(** * maps_overview: the EXIF reader, the GPS resolver and the page builder

    A shallow embedding of [generate_maps.py].  Python values are an
    inductive type, dictionaries are insertion-ordered association lists,
    floats are the kernel's binary64 numbers, and a raised exception is the
    [Raise] branch of a result type. *)

From Stdlib Require Import ZArith QArith Qpower Qabs Lqa Lia Floats.
From stdpp Require Import base decidable option list strings.

Set Warnings "-register-all".

(** ** Python values *)

(** A dictionary key: the program only ever uses tag numbers and tag names. *)
Inductive key :=
| KInt (z : Z)
| KStr (s : string).

#[global] Instance key_eq_dec : EqDecision key.
Proof. solve_decision. Defined.

(** The values that can sit in an EXIF mapping.  [PyRational n d] is
    Pillow's [IFDRational] read from a RATIONAL field: an object with integer
    attributes [numerator] and [denominator].  A [PyDict] lists its items in
    insertion order. *)
Inductive pyval :=
| PyNone
| PyInt (z : Z)
| PyFloat (f : float)
| PyStr (s : string)
| PyTuple (items : list pyval)
| PyRational (numerator denominator : Z)
| PyDict (items : list (key * pyval)).

Abbreviation dict := (list (key * pyval)).

(** The exceptions that the modelled operations raise, and [OtherError] for
    whatever the imaging library raises on a file it cannot read. *)
Inductive exn :=
| TypeError
| IndexError
| KeyError
| AttributeError
| ZeroDivisionError
| OverflowError
| OtherError (what : string).

Inductive result (A : Type) :=
| Ok (a : A)
| Raise (e : exn).
Arguments Ok {A} a.
Arguments Raise {A} e.

#[global] Instance result_ret : MRet result := fun A a => Ok a.

#[global] Instance result_bind : MBind result := fun A B k r =>
  match r with
  | Ok a => k a
  | Raise e => Raise e
  end.

(** ** Dictionaries *)

(** [d.get(k)] without the default: the first (only) item under [k]. *)
Fixpoint dict_lookup (d : dict) (k : key) : option pyval :=
  match d with
  | [] => None
  | (k', v) :: d' => if decide (k' = k) then Some v else dict_lookup d' k
  end.

(** [d[k] = v]: an existing key keeps its place, a new one goes last. *)
Fixpoint dict_set (d : dict) (k : key) (v : pyval) : dict :=
  match d with
  | [] => [(k, v)]
  | (k', v') :: d' =>
      if decide (k' = k) then (k', v) :: d' else (k', v') :: dict_set d' k v
  end.

(** [d.get(k)]: [None] when the key is missing. *)
Definition dict_get (d : dict) (k : string) : pyval :=
  default PyNone (dict_lookup d (KStr k)).

(** ** Operations on values *)

(** Truth value of an object, as [if x] and [and] test it.  An
    [IFDRational] with a zero denominator holds NaN, which is true. *)
Definition truthy (v : pyval) : bool :=
  match v with
  | PyNone => false
  | PyInt z => negb (z =? 0)%Z
  | PyFloat f => negb (PrimFloat.eqb f 0)
  | PyStr s => negb (String.eqb s "")
  | PyTuple items => negb (bool_decide (items = []))
  | PyRational n d => (d =? 0)%Z || negb (n =? 0)%Z
  | PyDict items => negb (bool_decide (items = []))
  end.

(** [v.get(k)]: only a dictionary has the method. *)
Definition py_get (v : pyval) (k : string) : result pyval :=
  match v with
  | PyDict d => Ok (dict_get d k)
  | _ => Raise AttributeError
  end.

(** Sequence indexing with Python's negative indices. *)
Definition seq_index {A} (l : list A) (i : Z) : option A :=
  let n := Z.of_nat (length l) in
  if (0 <=? i)%Z then l !! Z.to_nat i
  else if (- n <=? i)%Z then l !! Z.to_nat (n + i)
  else None.

(** [v[k]] for an integer or string subscript. *)
Definition py_getitem (v : pyval) (k : key) : result pyval :=
  match v with
  | PyDict d =>
      match dict_lookup d k with
      | Some x => Ok x
      | None => Raise KeyError
      end
  | PyTuple items =>
      match k with
      | KInt i =>
          match seq_index items i with
          | Some x => Ok x
          | None => Raise IndexError
          end
      | KStr _ => Raise TypeError
      end
  | PyStr s =>
      match k with
      | KInt i =>
          match seq_index (String.list_ascii_of_string s) i with
          | Some c => Ok (PyStr (String c EmptyString))
          | None => Raise IndexError
          end
      | KStr _ => Raise TypeError
      end
  | PyNone | PyInt _ | PyFloat _ | PyRational _ _ => Raise TypeError
  end.

(** [v.numerator] and [v.denominator]: integers and rationals have them. *)
Definition py_numerator (v : pyval) : result Z :=
  match v with
  | PyInt z => Ok z
  | PyRational n _ => Ok n
  | _ => Raise AttributeError
  end.

Definition py_denominator (v : pyval) : result Z :=
  match v with
  | PyInt _ => Ok 1%Z
  | PyRational _ d => Ok d
  | _ => Raise AttributeError
  end.

(** [a / b] on two integers: the quotient rounded once to binary64,
    [ZeroDivisionError] for a zero divisor, [OverflowError] when the rounded
    quotient is not finite, and a zero that carries the sign of the
    operands. *)
Definition int_truediv (a b : Z) : result float :=
  if (b =? 0)%Z then Raise ZeroDivisionError
  else
    let negate := xorb (a <? 0)%Z (b <? 0)%Z in
    if (a =? 0)%Z then Ok (if negate then neg_zero else zero)
    else
      let q := SF2Prim (SFdiv prec emax
                          (S754_finite (a <? 0)%Z (Z.to_pos (Z.abs a)) 0)
                          (S754_finite (b <? 0)%Z (Z.to_pos (Z.abs b)) 0)) in
      if is_infinity q then Raise OverflowError else Ok q.

(** [v != s] for a string literal [s]. *)
Definition py_ne_str (v : pyval) (s : string) : bool :=
  match v with
  | PyStr s' => negb (String.eqb s' s)
  | _ => true
  end.

(** ** The resolver *)

(** [convert_dms_to_decimal]; its only caller passes three floats, on which
    the final [float(...)] is the identity. *)
Definition convert_dms_to_decimal (dms_coords : float * float * float) : float :=
  let '(degrees, minutes, seconds) := dms_coords in
  (degrees + (minutes / 60) + (seconds / 3600))%float.

(** [dms[i].numerator / dms[i].denominator], evaluated left to right. *)
Definition dms_component (dms : pyval) (i : Z) : result float :=
  x ← py_getitem dms (KInt i);
  n ← py_numerator x;
  y ← py_getitem dms (KInt i);
  d ← py_denominator y;
  int_truediv n d.

(** The tuple of three quotients handed to [convert_dms_to_decimal]. *)
Definition dms_tuple (dms : pyval) : result (float * float * float) :=
  degrees ← dms_component dms 0;
  minutes ← dms_component dms 1;
  seconds ← dms_component dms 2;
  Ok (degrees, minutes, seconds).

Definition get_gps_coordinates (exif_data : dict)
  : result (option float * option float) :=
  let gps_info := dict_get exif_data "GPSInfo" in
  if negb (truthy gps_info) then Ok (None, None)
  else
    gps_latitude ← py_get gps_info "GPSLatitude";
    gps_latitude_ref ← py_get gps_info "GPSLatitudeRef";
    gps_longitude ← py_get gps_info "GPSLongitude";
    gps_longitude_ref ← py_get gps_info "GPSLongitudeRef";
    if truthy gps_latitude && truthy gps_latitude_ref
       && truthy gps_longitude && truthy gps_longitude_ref
    then
      lat_dms ← dms_tuple gps_latitude;
      let lat := convert_dms_to_decimal lat_dms in
      let lat := if py_ne_str gps_latitude_ref "N" then (- lat)%float else lat in
      lon_dms ← dms_tuple gps_longitude;
      let lon := convert_dms_to_decimal lon_dms in
      let lon := if py_ne_str gps_longitude_ref "E" then (- lon)%float else lon in
      Ok (Some lat, Some lon)
    else Ok (None, None).

(** ** The metadata reader *)

(** What the imaging library yields for a path: [Image.open] followed by
    [_getexif()] either raises, or returns [None], or returns a dictionary
    from tag numbers to values, given here by its items in order. *)
Definition world := string -> result (option (list (Z * pyval))).

(** One line printed on standard output. *)
Inductive event :=
| ErrorReadingExif (image_path : string) (e : exn)
| WarningNoGps (img_file : string).

Record place := {
  name : string;
  lat : float;
  lon : float;
  image : string
}.

(** A key as a value, and a value as a key when it is a number or a name. *)
Definition key_val (k : key) : pyval :=
  match k with
  | KInt z => PyInt z
  | KStr s => PyStr s
  end.

Definition as_key (t : pyval) : option key :=
  match t with
  | PyInt z => Some (KInt z)
  | PyStr s => Some (KStr s)
  | _ => None
  end.

(** [for t in value]: the keys of a dictionary, the items of a tuple, the
    characters of a string; nothing else here is iterable. *)
Definition py_iter (value : pyval) : result (list pyval) :=
  match value with
  | PyDict d => Ok (map (fun kv => key_val kv.1) d)
  | PyTuple items => Ok items
  | PyStr s => Ok (map (fun c => PyStr (String c EmptyString)) (String.list_ascii_of_string s))
  | PyNone | PyInt _ | PyFloat _ | PyRational _ _ => Raise TypeError
  end.

Definition dq : string := String (Ascii.ascii_of_nat 34) EmptyString.
Definition nl : string := String (Ascii.ascii_of_nat 10) EmptyString.

(** The template up to the first hole, line by line. *)
Definition page_head : string :=
  String.concat nl
    [ "<!DOCTYPE html>";
      "<html>";
      "<head>";
      "    <title>My Personal Photo Map</title>";
      "    <meta charset=" +:+ dq +:+ "utf-8" +:+ dq +:+ " />";
      "    <meta name=" +:+ dq +:+ "viewport" +:+ dq +:+ " content=" +:+ dq +:+ "width=device-width, initial-scale=1.0" +:+ dq +:+ ">";
      "    <link rel=" +:+ dq +:+ "stylesheet" +:+ dq +:+ " href=" +:+ dq +:+ "https://unpkg.com/leaflet@1.9.4/dist/leaflet.css" +:+ dq +:+ " />";
      "    <script src=" +:+ dq +:+ "https://unpkg.com/leaflet@1.9.4/dist/leaflet.js" +:+ dq +:+ "></script>";
      "    <style>";
      "        html, body { height: 100%; margin: 0; padding: 0; }";
      "        #map { width: 100%; height: 100%; }";
      "        .leaflet-popup-content-wrapper { background-color: #f9f9f9; border-radius: 8px; }";
      "        .leaflet-popup-content { margin: 15px; text-align: center; }";
      "        .popup-image { max-width: 200px; height: auto; border-radius: 5px; margin-bottom: 5px; }";
      "    </style>";
      "</head>";
      "<body>";
      "<div id=" +:+ dq +:+ "map" +:+ dq +:+ "></div>";
      "<script>";
      "    const map = L.map('map').setView([" ].

(** The template between the centre and the record array. *)
Definition page_map : string :=
  String.concat nl
    [ "], 8);";
      "    L.tileLayer('https://{s}.tile.opentopomap.org/{z}/{x}/{y}.png', {";
      "        maxZoom: 17,";
      "        attribution: 'Map data: &copy; <a href=" +:+ dq +:+ "https://www.openstreetmap.org/copyright" +:+ dq +:+ ">OpenStreetMap</a> contributors, <a href=" +:+ dq +:+ "http://viewfinderpanoramas.org" +:+ dq +:+ ">SRTM</a> | Map style: &copy; <a href=" +:+ dq +:+ "https://opentopomap.org" +:+ dq +:+ ">OpenTopoMap</a> (<a href=" +:+ dq +:+ "https://creativecommons.org/licenses/by-sa/3.0/" +:+ dq +:+ ">CC-BY-SA</a>)'";
      "    }).addTo(map);";
      "";
      "    const places = " ].

(** The template after the record array. *)
Definition page_tail : string :=
  String.concat nl
    [ ";";
      "";
      "    const markers = [];";
      "    places.forEach(place => {";
      "        const marker = L.marker([place.lat, place.lon]);";
      "        markers.push(marker);";
      "";
      "        const popupContent = `";
      "            <b>${place.name}</b><br>";
      "            <img src=" +:+ dq +:+ "${place.image}" +:+ dq +:+ " alt=" +:+ dq +:+ "${place.name}" +:+ dq +:+ " class=" +:+ dq +:+ "popup-image" +:+ dq +:+ ">";
      "        `;";
      "        marker.bindPopup(popupContent);";
      "        marker.on('mouseover', function (e) { this.openPopup(); });";
      "        marker.on('mouseout', function (e) { this.closePopup(); });";
      "        marker.addTo(map);";
      "    });";
      "";
      "    if (markers.length > 0) {";
      "        const group = new L.featureGroup(markers);";
      "        map.fitBounds(group.getBounds());";
      "    }";
      "</script>";
      "</body>";
      "</html>" ].

Section Program.

(** Pillow's tag tables, [os.path.basename], and [repr] on floats and on
    strings are not part of the program. *)
Variables TAGS GPSTAGS : Z -> option string.
Variable basename : string -> string.
Variable float_repr : float -> string.
Variable str_repr : string -> string.

(** Nor is the builtin [sum] over the floats of a generator: what it
    returns is the interpreter's business.  CPython up to 3.11 adds the
    items from left to right, starting from 0, each addition rounded; from
    3.12 on it carries a compensation term, which can change the last bits
    of the result. *)
Variable py_sum : list float -> float.

(** [TAGS.get(tag, tag)] *)
Definition tag_decode (tag : Z) : key :=
  match TAGS tag with
  | Some decoded => KStr decoded
  | None => KInt tag
  end.

(** [GPSTAGS.get(t, t)] *)
Definition sub_decode (t : key) : key :=
  match t with
  | KInt z =>
      match GPSTAGS z with
      | Some sub_decoded => KStr sub_decoded
      | None => KInt z
      end
  | KStr s => KStr s
  end.

(** The inner loop over the GPS block.  A [t] that is neither a number
    nor a name cannot subscript any iterable [value], so the body raises
    [TypeError] there. *)
Fixpoint decode_gps_items (value : pyval) (ts : list pyval) (gps_data : dict)
  : result dict :=
  match ts with
  | [] => Ok gps_data
  | t :: ts' =>
      match as_key t with
      | Some k =>
          x ← py_getitem value k;
          decode_gps_items value ts' (dict_set gps_data (sub_decode k) x)
      | None => Raise TypeError
      end
  end.

Definition decode_gps (value : pyval) : result dict :=
  ts ← py_iter value;
  decode_gps_items value ts [].

(** The loop over [info.items()]: the mapping built so far, and the
    exception that stopped the loop, if any. *)
Fixpoint decode_tags (items : list (Z * pyval)) (exif_data : dict)
  : dict * option exn :=
  match items with
  | [] => (exif_data, None)
  | (tag, value) :: items' =>
      let decoded := tag_decode tag in
      if decide (decoded = KStr "GPSInfo") then
        match decode_gps value with
        | Ok gps_data =>
            decode_tags items' (dict_set exif_data decoded (PyDict gps_data))
        | Raise e => (exif_data, Some e)
        end
      else decode_tags items' (dict_set exif_data decoded value)
  end.

(** [get_exif_data]: the mapping returned and the lines printed. *)
Definition get_exif_data (w : world) (image_path : string) : dict * list event :=
  match w image_path with
  | Raise e => ([], [ErrorReadingExif image_path e])
  | Ok None => ([], [])
  | Ok (Some []) => ([], [])
  | Ok (Some items) =>
      match decode_tags items [] with
      | (exif_data, None) => (exif_data, [])
      | (exif_data, Some e) => (exif_data, [ErrorReadingExif image_path e])
      end
  end.

(** ** The page builder *)

(** The loop over [image_files]: the lines printed, and either the
    records gathered or the exception that ended the run. *)
Fixpoint collect_places (w : world) (image_files : list string)
  (places_data : list place) : list event * result (list place) :=
  match image_files with
  | [] => ([], Ok places_data)
  | img_file :: rest =>
      let '(exif, out) := get_exif_data w img_file in
      match get_gps_coordinates exif with
      | Raise e => (out, Raise e)
      | Ok (Some latitude, Some longitude) =>
          let p := {| name := basename img_file; lat := latitude;
                      lon := longitude; image := basename img_file |} in
          let '(out', r) := collect_places w rest (places_data ++ [p]) in
          (out ++ out', r)
      | Ok _ =>
          let '(out', r) := collect_places w rest places_data in
          (out ++ WarningNoGps img_file :: out', r)
      end
  end.

(** [len(xs)] as a float, rounded to nearest. *)
Definition float_of_nat (n : nat) : float :=
  SF2Prim (binary_normalize prec emax (Z.of_nat n) 0 false).

(** The default centre, 60.6 and 15.5 as binary64 numbers. *)
Definition default_center : float * float :=
  (0x1.e4ccccccccccdp+5%float, 0x1.fp+3%float).

(** Lines 95 to 103. *)
Definition map_center (places_data : list place) : float * float :=
  match places_data with
  | [] => default_center
  | _ :: _ =>
      let avg_lat := (py_sum (map lat places_data) / float_of_nat (length places_data))%float in
      let avg_lon := (py_sum (map lon places_data) / float_of_nat (length places_data))%float in
      (avg_lat, avg_lon)
  end.

(** [repr] of one record and of the list of records. *)
Definition place_repr (p : place) : string :=
  String.concat ""
    [ "{'name': "; str_repr (name p);
      ", 'lat': "; float_repr (lat p);
      ", 'lon': "; float_repr (lon p);
      ", 'image': "; str_repr (image p); "}" ].

Definition places_repr (places_data : list place) : string :=
  String.concat "" [ "["; String.concat ", " (map place_repr places_data); "]" ].

(** The f-string of lines 105 to 153. *)
Definition maps_html_content (center : float * float) (places_data : list place)
  : string :=
  String.concat ""
    [ page_head; float_repr center.1; ", "; float_repr center.2;
      page_map; places_repr places_data; page_tail ].

Definition generate_maps_html (w : world) (image_files : list string)
  : list event * result string :=
  let '(out, r) := collect_places w image_files [] in
  (out, places_data ← r; Ok (maps_html_content (map_center places_data) places_data)).

End Program.

(** ** The script *)

(** One line of standard output of a whole run: a line printed by the
    functions above, or one printed by the script itself. *)
Inductive line :=
| Logged (e : event)
| Printed (s : string).

(** What a run leaves behind: the lines printed, the text written to
    [maps.html] if the file was written, and the exception that ended the
    run if one did. *)
Record outcome := {
  stdout : list line;
  written : option string;
  raised : option exn
}.

(** [s.lower()] on the bytes of [s]: the letters A to Z.  (No character
    outside ASCII lowers to a dot or to j, p or g, so the test below reads
    the same on the UTF-8 bytes as on the code points.) *)
Definition ascii_lower (c : Ascii.ascii) : Ascii.ascii :=
  let n := Ascii.nat_of_ascii c in
  if (65 <=? n)%nat && (n <=? 90)%nat then Ascii.ascii_of_nat (n + 32) else c.

Definition py_lower (s : string) : string :=
  String.string_of_list_ascii (map ascii_lower (String.list_ascii_of_string s)).

(** [s.endswith(suffix)] *)
Definition py_endswith (s suffix : string) : bool :=
  bool_decide (String.list_ascii_of_string suffix
                 `suffix_of` String.list_ascii_of_string s).

Section Script.

(** The parameters as before, with [os.path.join] besides. *)
Variables TAGS GPSTAGS : Z -> option string.
Variable basename : string -> string.
Variable float_repr : float -> string.
Variable str_repr : string -> string.
Variable py_sum : list float -> float.
Variable join : string -> string -> string.

(** The list comprehension of line 158 over the names that [os.listdir]
    returned. *)
Definition jpg_files (current_directory : string) (listing : list string)
  : list string :=
  map (join current_directory)
      (List.filter (fun f => py_endswith (py_lower f) ".jpg") listing).

(** The [__main__] block.  [open_error] is the exception that opening
    [maps.html] for writing raises, if it raises. *)
Definition main (current_directory : string) (listing : list string)
  (open_error : option exn) (w : world) : outcome :=
  match jpg_files current_directory listing with
  | [] =>
      {| stdout := [Printed "No JPG files found in the current directory."];
         written := None; raised := None |}
  | jpg_files =>
      match generate_maps_html TAGS GPSTAGS basename float_repr str_repr py_sum w jpg_files with
      | (out, Raise e) =>
          {| stdout := map Logged out; written := None; raised := Some e |}
      | (out, Ok maps_html) =>
          match open_error with
          | Some e =>
              {| stdout := map Logged out; written := None; raised := Some e |}
          | None =>
              {| stdout :=
                   map Logged out
                   ++ [Printed "maps.html generated successfully!";
                       Printed "You can now open maps.html in your browser to view the map."];
                 written := Some maps_html; raised := None |}
          end
      end
  end.

End Script.

(** * Vocabulary of the properties *)

(** The four GPS sub-fields of a mapping whose ["GPSInfo"] entry is a
    nested mapping. *)
Definition has_gps_fields (exif_data : dict) (la la_ref lo lo_ref : pyval) : Prop :=
  exists gps_info : dict,
    dict_lookup exif_data (KStr "GPSInfo") = Some (PyDict gps_info) /\
    dict_get gps_info "GPSLatitude" = la /\
    dict_get gps_info "GPSLatitudeRef" = la_ref /\
    dict_get gps_info "GPSLongitude" = lo /\
    dict_get gps_info "GPSLongitudeRef" = lo_ref.

(** The sign that a hemisphere reference gives to a decimal value. *)
Definition hemisphere (ref : pyval) (marker : string) (x : float) : float :=
  if py_ne_str ref marker then (- x)%float else x.

(** A DMS triple of rationals, each a numerator and a denominator. *)
Definition dms_rationals (d m s : Z * Z) : pyval :=
  PyTuple [PyRational d.1 d.2; PyRational m.1 m.2; PyRational s.1 s.2].

(** The rational-to-float step. *)
Definition rational_to_float (r : Z * Z) : result float := int_truediv r.1 r.2.

(** [c.numerator / c.denominator] for one component. *)
Definition component_float (c : pyval) : result float :=
  n ← py_numerator c;
  d ← py_denominator c;
  int_truediv n d.

(** What the [i]-th component of a tuple evaluates to. *)
Definition component_at (items : list pyval) (i : nat) : result float :=
  match items !! i with
  | Some c => component_float c
  | None => Raise IndexError
  end.

(** A component that offers [numerator] and [denominator]. *)
Definition is_rational (c : pyval) : bool :=
  match c with
  | PyInt _ | PyRational _ _ => true
  | _ => false
  end.

(** A DMS tuple that is too short, or one of whose first three components
    is not a rational or has a zero denominator. *)
Inductive malformed_dms : pyval -> Prop :=
| dms_short (items : list pyval) :
    length items < 3 -> malformed_dms (PyTuple items)
| dms_not_rational (items : list pyval) (i : nat) (c : pyval) :
    i < 3 -> items !! i = Some c -> is_rational c = false ->
    malformed_dms (PyTuple items)
| dms_zero_denominator (items : list pyval) (i : nat) (n : Z) :
    i < 3 -> items !! i = Some (PyRational n 0) ->
    malformed_dms (PyTuple items).

(** The mapping lacks the GPS block or one of its four sub-fields. *)
Definition gps_field_missing (exif_data : dict) : Prop :=
  dict_lookup exif_data (KStr "GPSInfo") = None \/
  exists gps_info : dict,
    dict_lookup exif_data (KStr "GPSInfo") = Some (PyDict gps_info) /\
    (dict_lookup gps_info (KStr "GPSLatitude") = None \/
     dict_lookup gps_info (KStr "GPSLatitudeRef") = None \/
     dict_lookup gps_info (KStr "GPSLongitude") = None \/
     dict_lookup gps_info (KStr "GPSLongitudeRef") = None).

(** The GPS block or one of its four sub-fields is there but falsy. *)
Definition gps_field_falsy (exif_data : dict) : Prop :=
  (exists v, dict_lookup exif_data (KStr "GPSInfo") = Some v /\ truthy v = false) \/
  exists gps_info : dict,
    dict_lookup exif_data (KStr "GPSInfo") = Some (PyDict gps_info) /\
    exists (k : string) (v : pyval),
      k ∈ ["GPSLatitude"; "GPSLatitudeRef"; "GPSLongitude"; "GPSLongitudeRef"] /\
      dict_lookup gps_info (KStr k) = Some v /\ truthy v = false.

(** The exact value of a finite float, as a numerator over a positive
    denominator. *)
Definition float_exact (f : float) : option (Z * Z) :=
  match Prim2SF f with
  | S754_zero _ => Some (0, 1)%Z
  | S754_finite s m e =>
      let n := cond_Zopp s (Zpos m) in
      if (0 <=? e)%Z then Some (n * 2 ^ e, 1)%Z else Some (n, 2 ^ (- e))%Z
  | _ => None
  end.

(** [|f - num/den| < 1/tol], computed on exact integers. *)
Definition near (f : float) (num den tol : Z) : bool :=
  match float_exact f with
  | Some (n, d) => (Z.abs (n * den - num * d) * tol <? d * den)%Z
  | None => false
  end.

(** The exact value of a finite float, as a rational number. *)
Definition float_value (f : float) : option Q :=
  match float_exact f with
  | Some (n, d) => Some (n # Z.to_pos d)
  | None => None
  end.

(** [f] is finite and its exact value is the rational [q]. *)
Definition has_value (f : float) (q : Q) : Prop :=
  exists q', float_value f = Some q' /\ (q' == q)%Q.

(** The sum and the arithmetic mean of rational numbers: the mean is the
    sum of the values over their number. *)
Definition exact_sum (qs : list Q) : Q := fold_right Qplus 0%Q qs.

Definition exact_mean (qs : list Q) : Q :=
  (exact_sum qs / inject_Z (Z.of_nat (length qs)))%Q.

(** The integer [n] converted to binary64, by the processor's own
    conversion. *)
Definition int_to_float (n : nat) : float :=
  of_uint63 (Uint63.of_Z (Z.of_nat n)).

(** Two to the power [e], for any integer [e]. *)
Definition pow2 (e : Z) : Q := (2 ^ e)%Q.

(** What one rounding to the nearest binary64 number can change of the
    rational [x], at most: a 2^-53th of it, and half the least positive
    binary64 number on top for an [x] that small. *)
Definition rounding_error (x : Q) : Q :=
  (Qabs x * pow2 (-53) + pow2 (-1075))%Q.

(** The rational [q] is the value of some binary64 number. *)
Definition is_binary64 (q : Q) : Prop := exists f : float, has_value f q.

(** The rational [c] is the mean of the values [qs] up to rounding, [s]
    being what [sum] returned for them: it differs from the mean by no
    more than the error of [s], shared among the values, and one
    rounding of the quotient; and it is the mean when [s] is the exact sum
    and the mean is a binary64 number. *)
Definition approximates_mean (c s : Q) (qs : list Q) : Prop :=
  (Qabs (c - exact_mean qs)
   <= Qabs (s - exact_sum qs) / inject_Z (Z.of_nat (length qs))
      + rounding_error (s / inject_Z (Z.of_nat (length qs))))%Q /\
  ((s == exact_sum qs)%Q -> is_binary64 (exact_mean qs) ->
   (c == exact_mean qs)%Q).

(** The pair [center] is finite, and each of its coordinates is the mean
    of that coordinate of the records, up to rounding, whenever [sum]
    returns a finite number for the latitudes and for the longitudes. *)
Definition centred_on_means (py_sum : list float -> float)
  (places_data : list place) (center : float * float) : Prop :=
  forall (lats lons : list Q) (s_lat s_lon : Q),
    Forall2 has_value (map lat places_data) lats ->
    Forall2 has_value (map lon places_data) lons ->
    has_value (py_sum (map lat places_data)) s_lat ->
    has_value (py_sum (map lon places_data)) s_lon ->
    exists c_lat c_lon : Q,
      has_value center.1 c_lat /\ has_value center.2 c_lon /\
      approximates_mean c_lat s_lat lats /\
      approximates_mean c_lon s_lon lons.

(** The rounding routine of the kernel's specification keeps, with a
    shifted mantissa, two bits that say where the number shifted lies
    between that mantissa and the next: on the mantissa, below the middle,
    on the middle or above it.  [loc_inv y mrs] reads the record [mrs] as
    this statement about the rational [y]. *)
Definition loc_inv (y : Q) (mrs : shr_record) : Prop :=
  (0 <= shr_m mrs)%Z /\
  match shr_r mrs, shr_s mrs with
  | false, false => (y == inject_Z (shr_m mrs))%Q
  | false, true =>
      (inject_Z (shr_m mrs) < y)%Q /\ (y < inject_Z (shr_m mrs) + (1 # 2))%Q
  | true, false => (y == inject_Z (shr_m mrs) + (1 # 2))%Q
  | true, true =>
      (inject_Z (shr_m mrs) + (1 # 2) < y)%Q /\ (y < inject_Z (shr_m mrs) + 1)%Q
  end.

(** What the rounding routine returns for a mantissa and its exponent. *)
Definition SFpack (sx : bool) (m e : Z) : spec_float :=
  match m with
  | Z0 => S754_zero sx
  | Zpos p => if (e <=? emax - prec)%Z then S754_finite sx p e else S754_infinity sx
  | Zneg _ => S754_nan
  end.

(** The characters that end a number inside the page: a comma, a closing
    bracket, a closing brace. *)
Definition closes_number (c : Ascii.ascii) : bool :=
  Ascii.eqb c (Ascii.ascii_of_nat 44)
  || Ascii.eqb c (Ascii.ascii_of_nat 93)
  || Ascii.eqb c (Ascii.ascii_of_nat 125).

(** No character of [s] satisfies [P]. *)
Fixpoint free_of (P : Ascii.ascii -> bool) (s : string) : bool :=
  match s with
  | EmptyString => true
  | String c r => negb (P c) && free_of P r
  end.

(** What a reader of the page needs of [repr]: the text of a string ends
    where it ends, whatever follows it, and gives the string back; the text
    of a float gives the float back and holds none of the characters that
    end a number.  Python's [repr] is such: a string is quoted, with the
    quote escaped inside, and a float is written in digits, with a sign, a
    point and an exponent. *)
Record readable_reprs (float_repr : float -> string) (str_repr : string -> string)
  : Prop := {
  str_repr_delimited :
    forall a b x y, str_repr a +:+ x = str_repr b +:+ y -> a = b /\ x = y;
  float_repr_injective :
    forall a b, float_repr a = float_repr b -> a = b;
  float_repr_plain :
    forall a, free_of closes_number (float_repr a) = true
}.

(** The reader stores nothing but a nested mapping under ["GPSInfo"]. *)
Definition gps_block_is_dict (exif_data : dict) : Prop :=
  forall v, dict_lookup exif_data (KStr "GPSInfo") = Some v ->
            exists gps_data : dict, v = PyDict gps_data.

Section Vocabulary.

Variables TAGS GPSTAGS : Z -> option string.
Variable basename : string -> string.

(** A failed read: the library raised, or the GPS block could not be
    decoded after the tags [before] had been stored. *)
Inductive read_failure (w : world) (image_path : string) : exn -> dict -> Prop :=
| failure_open (e : exn) :
    w image_path = Raise e ->
    read_failure w image_path e []
| failure_decode (before after : list (Z * pyval)) (tag : Z) (value : pyval)
    (partial : dict) (e : exn) :
    w image_path = Ok (Some (before ++ (tag, value) :: after)) ->
    decode_tags TAGS GPSTAGS before [] = (partial, None) ->
    tag_decode TAGS tag = KStr "GPSInfo" ->
    decode_gps GPSTAGS value = Raise e ->
    read_failure w image_path e partial.

(** The record that the loop appends for a file, if it appends one. *)
Definition resolved_place (w : world) (img_file : string) : option place :=
  match get_gps_coordinates (get_exif_data TAGS GPSTAGS w img_file).1 with
  | Ok (Some latitude, Some longitude) =>
      Some {| name := basename img_file; lat := latitude;
              lon := longitude; image := basename img_file |}
  | _ => None
  end.

(** The records of the files whose coordinates resolve, in input order. *)
Definition resolved_places (w : world) (image_files : list string) : list place :=
  omap (resolved_place w) image_files.

(** The resolver returns, rather than raises, on the file's metadata. *)
Definition resolver_returns (w : world) (img_file : string) : Prop :=
  exists r, get_gps_coordinates (get_exif_data TAGS GPSTAGS w img_file).1 = Ok r.

End Vocabulary.

(** ** Further vocabulary *)

(** The files for which a warning line was printed, in order. *)
Definition warned (out : list event) : list string :=
  omap (fun ev => match ev with
                  | WarningNoGps f => Some f
                  | ErrorReadingExif _ _ => None
                  end) out.

(** Of the three components read from [items], the first to fail is the
    one at [i], and it fails with [e]. *)
Definition fails_first_at (items : list pyval) (i : nat) (e : exn) : Prop :=
  i < 3 /\
  component_at items i = Raise e /\
  forall j, j < i -> exists f, component_at items j = Ok f.

(** An integer read as the rational over 1. *)
Definition over_one (c : pyval) : pyval :=
  match c with
  | PyInt z => PyRational z 1
  | _ => c
  end.

(** A mapping keyed by tag numbers only, as the library returns a GPS
    block. *)
Definition keyed_by_numbers (d : dict) : Prop :=
  forall k, k ∈ d.*1 -> exists z, k = KInt z.

(** A tag table that gives distinct names to distinct tags. *)
Definition distinct_names (table : Z -> option string) : Prop :=
  forall z z', is_Some (table z) -> table z = table z' -> z = z'.

(** The value of a block under a tag number, [None] when it has none. *)
Definition ifd_get (d : dict) (tag : Z) : pyval :=
  default PyNone (dict_lookup d (KInt tag)).

Section ReaderVocabulary.

Variables TAGS GPSTAGS : Z -> option string.

(** What the loop over [info.items()] stores for one item, when the item
    does not make it fail. *)
Definition stored_value (tag : Z) (value : pyval) : option pyval :=
  if decide (tag_decode TAGS tag = KStr "GPSInfo") then
    match decode_gps GPSTAGS value with
    | Ok gps_data => Some (PyDict gps_data)
    | Raise _ => None
    end
  else Some value.

End ReaderVocabulary.

Section BuilderVocabulary.

Variables TAGS GPSTAGS : Z -> option string.
Variable basename : string -> string.

(** The files of a sequence for which the loop appends no record. *)
Definition skipped (w : world) (image_files : list string) : list string :=
  List.filter
    (fun f => match resolved_place TAGS GPSTAGS basename w f with
              | None => true
              | Some _ => false
              end) image_files.

(** The files of a sequence for which the loop appends a record. *)
Definition included (w : world) (image_files : list string) : list string :=
  List.filter
    (fun f => match resolved_place TAGS GPSTAGS basename w f with
              | Some _ => true
              | None => false
              end) image_files.

End BuilderVocabulary.

Section PageVocabulary.

Variable float_repr : float -> string.
Variable str_repr : string -> string.

(** The text of the record array after its first record. *)
Fixpoint array_rest (places_data : list place) : string :=
  match places_data with
  | [] => "]"
  | p :: rest =>
      ", " +:+ place_repr float_repr str_repr p +:+ array_rest rest
  end.

End PageVocabulary.

(** * Sample data *)

(** A sample mapping: the four GPS sub-fields under ["GPSInfo"]. *)
Definition gps_exif (la la_ref lo lo_ref : pyval) : dict :=
  [(KStr "Make", PyStr "Canon");
   (KStr "GPSInfo",
    PyDict [(KStr "GPSLatitudeRef", la_ref);
            (KStr "GPSLatitude", la);
            (KStr "GPSLongitudeRef", lo_ref);
            (KStr "GPSLongitude", lo)])].

(** A mapping that holds only the sub-fields that are given. *)
Definition optional_field (k : string) (o : option pyval) : dict :=
  match o with
  | Some v => [(KStr k, v)]
  | None => []
  end.

Definition gps_exif_of (la la_ref lo lo_ref : option pyval) : dict :=
  [(KStr "GPSInfo",
    PyDict (optional_field "GPSLatitude" la ++ optional_field "GPSLatitudeRef" la_ref
            ++ optional_field "GPSLongitude" lo
            ++ optional_field "GPSLongitudeRef" lo_ref))].

Definition scenario_ints : dict :=
  [(KStr "GPSInfo",
    PyDict [(KStr "GPSLatitude", PyTuple [PyInt 40; PyInt 26; PyInt 46]);
            (KStr "GPSLatitudeRef", PyStr "N");
            (KStr "GPSLongitude", PyTuple [PyInt 79; PyInt 56; PyInt 55]);
            (KStr "GPSLongitudeRef", PyStr "W")])].

Definition scenario_rationals : dict :=
  [(KStr "GPSInfo",
    PyDict [(KStr "GPSLatitude", dms_rationals (40, 1) (26, 1) (46, 1))%Z;
            (KStr "GPSLatitudeRef", PyStr "N");
            (KStr "GPSLongitude", dms_rationals (79, 1) (56, 1) (55, 1))%Z;
            (KStr "GPSLongitudeRef", PyStr "W")])].

Definition scenario_lat : float := 0x1.4391a2b3c4d5ep+5%float.

Definition scenario_lon : float := (- 0x1.3fcb60b60b60cp+6)%float.

(** Pillow's names for the tags that matter here. *)
Definition pillow_TAGS (tag : Z) : option string :=
  if (tag =? 271)%Z then Some "Make"
  else if (tag =? 272)%Z then Some "Model"
  else if (tag =? 34853)%Z then Some "GPSInfo"
  else None.

Definition pillow_GPSTAGS (tag : Z) : option string :=
  if (tag =? 1)%Z then Some "GPSLatitudeRef"
  else if (tag =? 2)%Z then Some "GPSLatitude"
  else if (tag =? 3)%Z then Some "GPSLongitudeRef"
  else if (tag =? 4)%Z then Some "GPSLongitude"
  else None.

(** [posixpath.basename]: what follows the last slash. *)
Fixpoint has_slash (p : string) : bool :=
  match p with
  | EmptyString => false
  | String c rest => Ascii.eqb c (Ascii.ascii_of_nat 47) || has_slash rest
  end.

Fixpoint posix_basename (p : string) : string :=
  match p with
  | EmptyString => EmptyString
  | String c rest =>
      if Ascii.eqb c (Ascii.ascii_of_nat 47) || has_slash rest then posix_basename rest else p
  end.

(** Stand-ins for [repr], to instantiate the parameters in closed examples:
    a float as its signed significand and binary exponent, a string between
    single quotes. *)
Fixpoint decimal_digits (fuel : nat) (n : Z) (acc : string) : string :=
  match fuel with
  | O => acc
  | S fuel' =>
      let acc' := String (Ascii.ascii_of_nat (48 + Z.to_nat (n mod 10))) acc in
      if (n / 10 =? 0)%Z then acc' else decimal_digits fuel' (n / 10) acc'
  end.

Definition Z_decimal (z : Z) : string :=
  (if (z <? 0)%Z then "-" else "")
  +:+ decimal_digits (S (Z.to_nat (Z.log2 (Z.abs z)))) (Z.abs z) "".

Definition sample_float_repr (f : float) : string :=
  match Prim2SF f with
  | S754_zero s => if s then "-0.0" else "0.0"
  | S754_infinity s => if s then "-inf" else "inf"
  | S754_nan => "nan"
  | S754_finite s m e => Z_decimal (cond_Zopp s (Zpos m)) +:+ "p" +:+ Z_decimal e
  end.

Definition sample_str_repr (s : string) : string := "'" +:+ s +:+ "'".

(** [sum] as CPython up to 3.11 computes it: the items added from left to
    right, starting from 0, each addition rounded. *)
Definition plain_sum (xs : list float) : float :=
  fold_left PrimFloat.add xs zero.

(** [sum] as CPython from 3.12 on computes it on floats: the first item
    added to 0, then each further item added with the rounding error of
    the addition gathered in a compensation term, which is added at the
    end when it is finite and not zero. *)
Fixpoint compensated_loop (xs : list float) (f_result c : float) : float :=
  match xs with
  | [] =>
      if negb (is_zero c) && is_finite c then (f_result + c)%float else f_result
  | x :: xs' =>
      let t := (f_result + x)%float in
      let c' :=
        if (abs x <=? abs f_result)%float
        then (c + ((f_result - t) + x))%float
        else (c + ((x - t) + f_result))%float in
      compensated_loop xs' t c'
  end.

Definition compensated_sum (xs : list float) : float :=
  match xs with
  | [] => zero
  | x :: xs' => compensated_loop xs' (zero + x)%float zero
  end.

(** A GPS block as the library returns it, keyed by tag numbers. *)
Definition gps_ifd (la_ref la lo_ref lo : pyval) : pyval :=
  PyDict [(KInt 1, la_ref); (KInt 2, la); (KInt 3, lo_ref); (KInt 4, lo)].

(** Two photos with coordinates, one without metadata, one whose GPS block
    the library could not load, and nothing else on disk. *)
Definition sample_world : world := fun image_path =>
  if String.eqb image_path "/photos/a.jpg" then
    Ok (Some [(271, PyStr "Canon");
              (34853, gps_ifd (PyStr "N") (dms_rationals (40, 1) (26, 1) (46, 1))
                              (PyStr "W") (dms_rationals (79, 1) (56, 1) (55, 1)))])%Z
  else if String.eqb image_path "/photos/b.jpg" then
    Ok (Some [(34853, gps_ifd (PyStr "N") (dms_rationals (42, 1) (30, 1) (0, 1))
                              (PyStr "W") (dms_rationals (80, 1) (15, 1) (0, 1)))])%Z
  else if String.eqb image_path "/photos/c.jpg" then Ok None
  else if String.eqb image_path "/photos/broken.jpg" then
    Ok (Some [(271, PyStr "Canon"); (34853, PyNone); (272, PyStr "EOS")])%Z
  else Raise (OtherError "FileNotFoundError").

(** The same disk with one more photo on it. *)
Definition other_world : world := fun image_path =>
  if String.eqb image_path "/photos/z.jpg" then Ok None
  else sample_world image_path.

Definition sample_files : list string :=
  ["/photos/a.jpg"; "/photos/b.jpg"; "/photos/c.jpg"].

(** [posixpath.join] of two components. *)
Definition posix_join (a b : string) : string :=
  match b with
  | String c _ =>
      if Ascii.eqb c (Ascii.ascii_of_nat 47) then b
      else if String.eqb a "" || py_endswith a "/" then a +:+ b
      else a +:+ "/" +:+ b
  | EmptyString =>
      if String.eqb a "" || py_endswith a "/" then a else a +:+ "/"
  end.

(** A GPS block with more than the four sub-fields: altitude reference
    and altitude under tags 5 and 6. *)
Definition sample_ifd : dict :=
  [(KInt 1, PyStr "N"); (KInt 2, dms_rationals (40, 1) (26, 1) (46, 1));
   (KInt 3, PyStr "W"); (KInt 4, dms_rationals (79, 1) (56, 1) (55, 1));
   (KInt 5, PyInt 0); (KInt 6, PyRational 2350 10)]%Z.

(** A disk with one photo whose latitude has a zero denominator. *)
Definition faulty_world : world := fun image_path =>
  if String.eqb image_path "/photos/b.jpg" then
    Ok (Some [(34853, gps_ifd (PyStr "N") (dms_rationals (42, 1) (30, 0) (0, 1))
                              (PyStr "W") (dms_rationals (80, 1) (15, 1) (0, 1)))])%Z
  else sample_world image_path.

(** A disk with a photo that carries the longer block. *)
Definition ifd_world : world := fun image_path =>
  if String.eqb image_path "/photos/d.jpg" then
    Ok (Some [(271, PyStr "Canon"); (34853, PyDict sample_ifd); (272, PyStr "EOS")])%Z
  else sample_world image_path.

Definition sample_listing : list string :=
  ["a.jpg"; "notes.txt"; "b.JPG"; "c.jpeg"; "c.jpg"].

(** The same photos under upper-case names, as a camera writes them. *)
Definition upper_world : world := fun image_path =>
  if String.eqb image_path "/photos/b.JPG" then sample_world "/photos/b.jpg"
  else sample_world image_path.

(** Stand-ins for [repr] that can be read back.  A string is quoted, with
    a backslash before each quote and each backslash inside. *)
Definition needs_escape (c : Ascii.ascii) : bool :=
  Ascii.eqb c (Ascii.ascii_of_nat 39) || Ascii.eqb c (Ascii.ascii_of_nat 92).

Fixpoint quoted_tail (s : string) : string :=
  match s with
  | EmptyString => "'"
  | String c r =>
      if needs_escape c
      then String (Ascii.ascii_of_nat 92) (String c (quoted_tail r))
      else String c (quoted_tail r)
  end.

Definition quoted_repr (s : string) : string :=
  String (Ascii.ascii_of_nat 39) (quoted_tail s).

(** A float is written as its sign, its mantissa and its exponent, the
    numbers in binary digits, the least significant first. *)
Fixpoint bits (p : positive) : string :=
  match p with
  | xH => "1"
  | xO q => "0" +:+ bits q
  | xI q => "1" +:+ bits q
  end.

Definition Z_bits (z : Z) : string :=
  match z with
  | Z0 => "0"
  | Zpos p => "+" +:+ bits p
  | Zneg p => "-" +:+ bits p
  end.

Definition binary_float_repr (f : float) : string :=
  match Prim2SF f with
  | S754_zero s => if s then "-0.0" else "0.0"
  | S754_infinity s => if s then "-inf" else "inf"
  | S754_nan => "nan"
  | S754_finite s m e =>
      (if s then "-b" else "+b") +:+ bits m +:+ "p" +:+ Z_bits e
  end.

Definition is_p (c : Ascii.ascii) : bool := Ascii.eqb c (Ascii.ascii_of_nat 112).

(** Two records whose coordinates average without rounding, and three
    whose latitudes have no binary mean. *)
Definition sample_places : list place :=
  [ {| name := "a.jpg"; lat := 40.5; lon := (-79.75); image := "a.jpg" |};
    {| name := "b.jpg"; lat := 42.5; lon := (-80.25); image := "b.jpg" |} ].

Definition uneven_places : list place :=
  [ {| name := "a.jpg"; lat := 40; lon := 10; image := "a.jpg" |};
    {| name := "b.jpg"; lat := 41; lon := 10; image := "b.jpg" |};
    {| name := "c.jpg"; lat := 41; lon := 10; image := "c.jpg" |} ].

(** * Properties of the resolver *)

(** Case analysis on membership in an explicit list. *)
Ltac elem_cases H :=
  repeat (apply elem_of_cons in H; destruct H as [-> | H]);
  [ .. | apply elem_of_nil in H; destruct H ].

Lemma dict_lookup_set_eq (d : dict) (k : key) (v : pyval) :
  dict_lookup (dict_set d k v) k = Some v.
Proof.
  induction d as [|[k' v'] d IH]; simpl.
  - destruct (decide (k = k)); [reflexivity | congruence].
  - destruct (decide (k' = k)) as [Heq | Hne]; simpl.
    + destruct (decide (k' = k)); [reflexivity | congruence].
    + destruct (decide (k' = k)); [congruence | exact IH].
Qed.

Lemma dict_lookup_set_ne (d : dict) (k k' : key) (v : pyval) :
  k <> k' -> dict_lookup (dict_set d k v) k' = dict_lookup d k'.
Proof.
  intros Hne. induction d as [|[k0 v0] d IH]; simpl.
  - destruct (decide (k = k')); [congruence | reflexivity].
  - destruct (decide (k0 = k)) as [-> | Hk0]; simpl.
    + destruct (decide (k = k')); [congruence | reflexivity].
    + destruct (decide (k0 = k')); [reflexivity | exact IH].
Qed.

Lemma int_truediv_zero (a : Z) : int_truediv a 0 = Raise ZeroDivisionError.
Proof. reflexivity. Qed.

Lemma py_ne_str_false (v : pyval) (s : string) :
  py_ne_str v s = false <-> v = PyStr s.
Proof.
  destruct v; simpl; try (split; [discriminate | discriminate]).
  rewrite negb_false_iff, String.eqb_eq. split; [intros ->; reflexivity | congruence].
Qed.

Lemma py_ne_str_true (v : pyval) (s : string) :
  py_ne_str v s = true <-> v <> PyStr s.
Proof.
  rewrite <- py_ne_str_false. destruct (py_ne_str v s); split; congruence.
Qed.

Lemma dms_component_tuple (items : list pyval) (i : Z) :
  (0 <= i)%Z ->
  dms_component (PyTuple items) i =
  match items !! Z.to_nat i with
  | Some c => component_float c
  | None => Raise IndexError
  end.
Proof.
  intros Hi. unfold dms_component, py_getitem, seq_index.
  destruct (Z.leb_spec 0 i); [| lia].
  destruct (items !! Z.to_nat i) as [c|]; [| reflexivity].
  simpl. unfold component_float.
  destruct (py_numerator c); reflexivity.
Qed.

(** The resolver on a mapping with a nested GPS mapping, field by field. *)
Lemma get_gps_coordinates_fields (exif_data : dict) (la la_ref lo lo_ref : pyval) :
  has_gps_fields exif_data la la_ref lo lo_ref ->
  get_gps_coordinates exif_data =
  if truthy la && truthy la_ref && truthy lo && truthy lo_ref then
    lat_dms ← dms_tuple la;
    lon_dms ← dms_tuple lo;
    Ok (Some (hemisphere la_ref "N" (convert_dms_to_decimal lat_dms)),
        Some (hemisphere lo_ref "E" (convert_dms_to_decimal lon_dms)))
  else Ok (None, None).
Proof.
  intros (gps_info & Hgps & <- & <- & <- & <-).
  unfold get_gps_coordinates.
  replace (dict_get exif_data "GPSInfo") with (PyDict gps_info)
    by (unfold dict_get; rewrite Hgps; reflexivity).
  destruct gps_info as [|kv gps_info]; reflexivity.
Qed.

Lemma dms_tuple_rationals (d m s : Z * Z) (fd fm fs : float) :
  rational_to_float d = Ok fd ->
  rational_to_float m = Ok fm ->
  rational_to_float s = Ok fs ->
  dms_tuple (dms_rationals d m s) = Ok (fd, fm, fs).
Proof.
  unfold rational_to_float, dms_tuple, dms_rationals. intros Hd Hm Hs.
  rewrite !dms_component_tuple by lia. simpl. unfold component_float. simpl.
  rewrite Hd. simpl. rewrite Hm. simpl. rewrite Hs. reflexivity.
Qed.

Lemma gps_exif_fields (la la_ref lo lo_ref : pyval) :
  has_gps_fields (gps_exif la la_ref lo lo_ref) la la_ref lo lo_ref.
Proof. eexists. repeat split. Defined.

(** C1: for DMS triples of rationals, an axis whose hemisphere reference is
    the positive marker ("N" for latitude, "E" for longitude) resolves to
    d + m/60 + s/3600, each rational first reduced to a float. *)
Theorem resolver_positive_marker_formula
  (exif_data : dict) (la_ref lo_ref : pyval) (d m s d' m' s' : Z * Z)
  (fd fm fs gd gm gs : float) :
  has_gps_fields exif_data (dms_rationals d m s) la_ref (dms_rationals d' m' s') lo_ref ->
  truthy la_ref = true -> truthy lo_ref = true ->
  rational_to_float d = Ok fd -> rational_to_float m = Ok fm ->
  rational_to_float s = Ok fs ->
  rational_to_float d' = Ok gd -> rational_to_float m' = Ok gm ->
  rational_to_float s' = Ok gs ->
  exists lat lon : float,
    get_gps_coordinates exif_data = Ok (Some lat, Some lon) /\
    (la_ref = PyStr "N" -> lat = (fd + fm / 60 + fs / 3600)%float) /\
    (lo_ref = PyStr "E" -> lon = (gd + gm / 60 + gs / 3600)%float).
Proof.
  intros Hf Hla Hlo Hd Hm Hs Hd' Hm' Hs'.
  rewrite (get_gps_coordinates_fields _ _ _ _ _ Hf), Hla, Hlo. simpl.
  rewrite (dms_tuple_rationals _ _ _ _ _ _ Hd Hm Hs),
          (dms_tuple_rationals _ _ _ _ _ _ Hd' Hm' Hs'). simpl.
  eexists _, _. split; [reflexivity |]. unfold hemisphere.
  split; intros ->; reflexivity.
Qed.

Lemma resolver_positive_marker_formula_witness :
  exists lat lon : float,
    get_gps_coordinates
      (gps_exif (dms_rationals (40, 1) (26, 1) (4600, 100)) (PyStr "N")
                (dms_rationals (79, 1) (56, 1) (55, 1)) (PyStr "E"))%Z
    = Ok (Some lat, Some lon) /\
    (PyStr "N" = PyStr "N" -> lat = (40 + 26 / 60 + 46 / 3600)%float) /\
    (PyStr "E" = PyStr "E" -> lon = (79 + 56 / 60 + 55 / 3600)%float).
Proof.
  apply (resolver_positive_marker_formula _ _ _ (40, 1) (26, 1) (4600, 100)
           (79, 1) (56, 1) (55, 1))%Z;
    first [ apply gps_exif_fields | vm_compute; reflexivity ].
Defined.

(** C2, as amended: for DMS triples of rationals, an axis whose hemisphere
    reference is non-empty and differs from the positive marker resolves to
    the negation of d + m/60 + s/3600; no error is reported. *)
Theorem resolver_other_reference_negates
  (exif_data : dict) (la_ref lo_ref : pyval) (d m s d' m' s' : Z * Z)
  (fd fm fs gd gm gs : float) :
  has_gps_fields exif_data (dms_rationals d m s) la_ref (dms_rationals d' m' s') lo_ref ->
  truthy la_ref = true -> truthy lo_ref = true ->
  rational_to_float d = Ok fd -> rational_to_float m = Ok fm ->
  rational_to_float s = Ok fs ->
  rational_to_float d' = Ok gd -> rational_to_float m' = Ok gm ->
  rational_to_float s' = Ok gs ->
  exists lat lon : float,
    get_gps_coordinates exif_data = Ok (Some lat, Some lon) /\
    (la_ref <> PyStr "N" -> lat = (- (fd + fm / 60 + fs / 3600))%float) /\
    (lo_ref <> PyStr "E" -> lon = (- (gd + gm / 60 + gs / 3600))%float).
Proof.
  intros Hf Hla Hlo Hd Hm Hs Hd' Hm' Hs'.
  rewrite (get_gps_coordinates_fields _ _ _ _ _ Hf), Hla, Hlo. simpl.
  rewrite (dms_tuple_rationals _ _ _ _ _ _ Hd Hm Hs),
          (dms_tuple_rationals _ _ _ _ _ _ Hd' Hm' Hs'). simpl.
  eexists _, _. split; [reflexivity |]. unfold hemisphere.
  split; intros Hne; apply py_ne_str_true in Hne; rewrite Hne; reflexivity.
Qed.

Lemma resolver_other_reference_negates_witness :
  exists lat lon : float,
    get_gps_coordinates
      (gps_exif (dms_rationals (40, 1) (26, 1) (46, 1)) (PyStr "S")
                (dms_rationals (79, 1) (56, 1) (55, 1)) (PyInt 7))%Z
    = Ok (Some lat, Some lon) /\
    (PyStr "S" <> PyStr "N" -> lat = (- (40 + 26 / 60 + 46 / 3600))%float) /\
    (PyInt 7 <> PyStr "E" -> lon = (- (79 + 56 / 60 + 55 / 3600))%float).
Proof.
  apply (resolver_other_reference_negates _ _ _ (40, 1) (26, 1) (46, 1)
           (79, 1) (56, 1) (55, 1))%Z;
    first [ apply gps_exif_fields | vm_compute; reflexivity ].
Defined.

(** C2, as stated, fails: the empty string is a reference other than "N",
    and the resolver answers absence, not the negated latitude. *)
Lemma resolver_empty_reference_absent :
  get_gps_coordinates
    (gps_exif (dms_rationals (40, 1) (26, 1) (46, 1)) (PyStr "")
              (dms_rationals (79, 1) (56, 1) (55, 1)) (PyStr "W"))%Z
  = Ok (None, None)
  /\ PyStr "" <> PyStr "N"
  /\ get_gps_coordinates
       (gps_exif (dms_rationals (40, 1) (26, 1) (46, 1)) (PyStr "")
                 (dms_rationals (79, 1) (56, 1) (55, 1)) (PyStr "W"))%Z
     <> Ok (Some (- (40 + 26 / 60 + 46 / 3600))%float,
            Some (- (79 + 56 / 60 + 55 / 3600))%float).
Proof.
  split; [vm_compute; reflexivity | split; [discriminate |]].
  vm_compute. discriminate.
Qed.

(** ** Absence *)

Lemma has_gps_fields_intro (exif_data gps_info : dict) :
  dict_lookup exif_data (KStr "GPSInfo") = Some (PyDict gps_info) ->
  has_gps_fields exif_data
    (dict_get gps_info "GPSLatitude") (dict_get gps_info "GPSLatitudeRef")
    (dict_get gps_info "GPSLongitude") (dict_get gps_info "GPSLongitudeRef").
Proof. intros H. exists gps_info. repeat split. exact H. Qed.

Lemma get_gps_coordinates_untruthy (exif_data gps_info : dict) :
  dict_lookup exif_data (KStr "GPSInfo") = Some (PyDict gps_info) ->
  truthy (dict_get gps_info "GPSLatitude")
  && truthy (dict_get gps_info "GPSLatitudeRef")
  && truthy (dict_get gps_info "GPSLongitude")
  && truthy (dict_get gps_info "GPSLongitudeRef") = false ->
  get_gps_coordinates exif_data = Ok (None, None).
Proof.
  intros Hgps Hf.
  rewrite (get_gps_coordinates_fields _ _ _ _ _ (has_gps_fields_intro _ _ Hgps)).
  rewrite Hf. reflexivity.
Qed.

Lemma get_gps_coordinates_no_block (exif_data : dict) :
  truthy (dict_get exif_data "GPSInfo") = false ->
  get_gps_coordinates exif_data = Ok (None, None).
Proof. intros H. unfold get_gps_coordinates. rewrite H. reflexivity. Qed.

(** X1: the resolver never returns one coordinate without the other:
    a result is the pair of two absences or a pair of two numbers. *)
Lemma get_gps_coordinates_never_partial (exif_data : dict) (lat lon : option float) :
  get_gps_coordinates exif_data = Ok (lat, lon) ->
  (lat = None /\ lon = None) \/ (is_Some lat /\ is_Some lon).
Proof.
  unfold get_gps_coordinates.
  destruct (truthy (dict_get exif_data "GPSInfo")); simpl;
    [| intros [= <- <-]; left; split; reflexivity].
  destruct (dict_get exif_data "GPSInfo"); simpl; try discriminate.
  destruct (truthy _ && truthy _ && truthy _ && truthy _); simpl;
    [| intros [= <- <-]; left; split; reflexivity].
  destruct (dms_tuple (dict_get _ "GPSLatitude")); simpl; [| discriminate].
  destruct (dms_tuple (dict_get _ "GPSLongitude")); simpl; [| discriminate].
  intros [= <- <-]. right. split; eexists; reflexivity.
Qed.

(** C3: when the GPS block or any of its four sub-fields is missing, in any
    combination, the resolver reports both coordinates absent. *)
Theorem resolver_absent_when_field_missing (exif_data : dict) :
  gps_field_missing exif_data ->
  get_gps_coordinates exif_data = Ok (None, None).
Proof.
  intros [Hnone | (gps_info & Hgps & Hmiss)].
  - apply get_gps_coordinates_no_block. unfold dict_get. rewrite Hnone. reflexivity.
  - apply (get_gps_coordinates_untruthy _ _ Hgps). unfold dict_get.
    destruct Hmiss as [H | [H | [H | H]]]; rewrite H; simpl;
      rewrite ?andb_false_r; reflexivity.
Qed.

Lemma resolver_absent_when_field_missing_witness :
  get_gps_coordinates
    [(KStr "GPSInfo",
      PyDict [(KStr "GPSLatitude", PyTuple [PyInt 40; PyInt 26; PyInt 46]);
              (KStr "GPSLatitudeRef", PyStr "N");
              (KStr "GPSLongitude", PyTuple [PyInt 79; PyInt 56; PyInt 55])])]
  = Ok (None, None).
Proof.
  apply resolver_absent_when_field_missing. right. eexists. split; [reflexivity |].
  right. right. right. reflexivity.
Defined.

(** Every combination of present and absent sub-fields but the full one
    resolves to absence. *)
Lemma resolver_absent_all_combinations (la la_ref lo lo_ref : option pyval) :
  la = None \/ la_ref = None \/ lo = None \/ lo_ref = None ->
  get_gps_coordinates (gps_exif_of la la_ref lo lo_ref) = Ok (None, None).
Proof.
  intros H.
  apply (get_gps_coordinates_untruthy _
           (optional_field "GPSLatitude" la ++ optional_field "GPSLatitudeRef" la_ref
            ++ optional_field "GPSLongitude" lo ++ optional_field "GPSLongitudeRef" lo_ref));
    [reflexivity |].
  destruct la, la_ref, lo, lo_ref; destruct H as [H | [H | [H | H]]];
    try discriminate H; cbn; rewrite ?andb_false_r; reflexivity.
Qed.

(** C10: when the GPS block or any of its four sub-fields is present but
    falsy (an empty string, an empty tuple, ...), the resolver reports both
    coordinates absent. *)
Theorem resolver_absent_when_field_falsy (exif_data : dict) :
  gps_field_falsy exif_data ->
  get_gps_coordinates exif_data = Ok (None, None).
Proof.
  intros [(v & Hv & Hf) | (gps_info & Hgps & k & v & Hk & Hv & Hf)].
  - apply get_gps_coordinates_no_block. unfold dict_get. rewrite Hv. exact Hf.
  - apply (get_gps_coordinates_untruthy _ _ Hgps). unfold dict_get.
    elem_cases Hk; rewrite Hv; simpl; rewrite Hf; rewrite ?andb_false_r; reflexivity.
Qed.

Lemma resolver_absent_when_field_falsy_witness :
  get_gps_coordinates
    (gps_exif (PyTuple [PyInt 40; PyInt 26; PyInt 46]) (PyStr "")
              (PyTuple [PyInt 79; PyInt 56; PyInt 55]) (PyStr "W"))
  = Ok (None, None).
Proof.
  apply resolver_absent_when_field_falsy. right. eexists. split; [reflexivity |].
  exists "GPSLatitudeRef", (PyStr ""). split; [| split; reflexivity].
  apply list_elem_of_further, list_elem_of_here.
Defined.

(** ** Malformed GPS fields *)

Lemma dms_tuple_components (items : list pyval) :
  dms_tuple (PyTuple items) =
  (degrees ← component_at items 0;
   minutes ← component_at items 1;
   seconds ← component_at items 2;
   Ok (degrees, minutes, seconds)).
Proof.
  unfold dms_tuple. rewrite !dms_component_tuple by lia. reflexivity.
Qed.

Lemma dms_tuple_raises_at (items : list pyval) (i : nat) (e : exn) :
  i < 3 -> component_at items i = Raise e ->
  exists e', dms_tuple (PyTuple items) = Raise e'.
Proof.
  intros Hi He. rewrite dms_tuple_components.
  destruct (component_at items 0) as [f0|e0] eqn:H0; simpl; [| eauto].
  destruct (component_at items 1) as [f1|e1] eqn:H1; simpl; [| eauto].
  destruct (component_at items 2) as [f2|e2] eqn:H2; simpl; [| eauto].
  destruct i as [|[|[|i]]]; [congruence | congruence | congruence | lia].
Qed.

Lemma component_float_not_rational (c : pyval) :
  is_rational c = false -> component_float c = Raise AttributeError.
Proof. destruct c; simpl; intros H; try discriminate H; reflexivity. Qed.

Lemma component_float_zero_denominator (n : Z) :
  component_float (PyRational n 0) = Raise ZeroDivisionError.
Proof. reflexivity. Qed.

Lemma dms_tuple_malformed (dms : pyval) :
  malformed_dms dms -> exists e, dms_tuple dms = Raise e.
Proof.
  intros [items Hlen | items i c Hi Hc Hr | items i n Hi Hc].
  - apply (dms_tuple_raises_at items 2 IndexError); [lia |].
    unfold component_at. rewrite (proj2 (lookup_ge_None items 2)) by lia.
    reflexivity.
  - apply (dms_tuple_raises_at items i AttributeError); [exact Hi |].
    unfold component_at. rewrite Hc. apply component_float_not_rational, Hr.
  - apply (dms_tuple_raises_at items i ZeroDivisionError); [exact Hi |].
    unfold component_at. rewrite Hc. apply component_float_zero_denominator.
Qed.

(** C5, as amended: when all four GPS sub-fields are present and non-empty
    and a DMS field is malformed (fewer than three components, a component
    without numerator and denominator, a zero denominator), the resolver
    raises and the exception reaches the caller; with four non-empty
    sub-fields it never answers absence. *)
Theorem resolver_malformed_raises
  (exif_data : dict) (la la_ref lo lo_ref : pyval) :
  has_gps_fields exif_data la la_ref lo lo_ref ->
  truthy la = true -> truthy la_ref = true ->
  truthy lo = true -> truthy lo_ref = true ->
  (malformed_dms la \/ malformed_dms lo ->
   exists e, get_gps_coordinates exif_data = Raise e) /\
  get_gps_coordinates exif_data <> Ok (None, None).
Proof.
  intros Hf Hla Hlar Hlo Hlor.
  rewrite (get_gps_coordinates_fields _ _ _ _ _ Hf), Hla, Hlar, Hlo, Hlor. simpl.
  split.
  - intros [Hm | Hm]; apply dms_tuple_malformed in Hm as [e He].
    + rewrite He. simpl. eauto.
    + rewrite He. destruct (dms_tuple la); simpl; eauto.
  - destruct (dms_tuple la); simpl; [| discriminate].
    destruct (dms_tuple lo); simpl; discriminate.
Qed.

Lemma resolver_malformed_raises_witness :
  (exists e,
     get_gps_coordinates
       (gps_exif (PyTuple [PyRational 40 1; PyRational 26 0; PyRational 46 1])
                 (PyStr "N") (PyTuple [PyInt 79; PyInt 56; PyInt 55]) (PyStr "W"))
     = Raise e) /\
  get_gps_coordinates
    (gps_exif (PyTuple [PyRational 40 1; PyRational 26 0; PyRational 46 1])
              (PyStr "N") (PyTuple [PyInt 79; PyInt 56; PyInt 55]) (PyStr "W"))
  <> Ok (None, None).
Proof.
  destruct (resolver_malformed_raises
              (gps_exif (PyTuple [PyRational 40 1; PyRational 26 0; PyRational 46 1])
                        (PyStr "N") (PyTuple [PyInt 79; PyInt 56; PyInt 55]) (PyStr "W"))
              _ (PyStr "N") _ (PyStr "W") (gps_exif_fields _ _ _ _)
              eq_refl eq_refl eq_refl eq_refl) as [Hraise Hpresent].
  split; [| exact Hpresent].
  apply Hraise. left. apply (dms_zero_denominator _ 1 26); [lia | reflexivity].
Defined.

(** C5, as stated, fails: each kind of malformed DMS field makes the
    resolver raise. *)
Lemma resolver_malformed_exceptions :
  get_gps_coordinates
    (gps_exif (PyTuple [PyRational 40 1; PyRational 26 0; PyRational 46 1])
              (PyStr "N") (PyTuple [PyInt 79; PyInt 56; PyInt 55]) (PyStr "W"))
  = Raise ZeroDivisionError
  /\ get_gps_coordinates
       (gps_exif (PyTuple [PyRational 40 1; PyRational 26 1])
                 (PyStr "N") (PyTuple [PyInt 79; PyInt 56; PyInt 55]) (PyStr "W"))
     = Raise IndexError
  /\ get_gps_coordinates
       (gps_exif (PyTuple [PyFloat 40; PyFloat 26; PyFloat 46])
                 (PyStr "N") (PyTuple [PyInt 79; PyInt 56; PyInt 55]) (PyStr "W"))
     = Raise AttributeError.
Proof. repeat split; vm_compute; reflexivity. Qed.

(** ** The round-trip scenario *)

(** C7: the mapping with GPSLatitude (40, 26, 46), reference "N",
    GPSLongitude (79, 56, 55), reference "W" resolves to a pair within
    0.0001 of (40.4461, -79.9486), whether the components are plain
    integers or rationals over 1. *)
Theorem resolver_round_trip_scenario :
  get_gps_coordinates scenario_ints = Ok (Some scenario_lat, Some scenario_lon) /\
  get_gps_coordinates scenario_rationals = Ok (Some scenario_lat, Some scenario_lon) /\
  near scenario_lat 404461 10000 10000 = true /\
  near scenario_lon (-799486) 10000 10000 = true.
Proof. repeat split; vm_compute; reflexivity. Qed.

(** * Binary64 division

    The kernel's floats are specified by the functions of [SpecFloat]: a
    quotient is the exact quotient of the mantissas, shifted to the
    exponent of the result and rounded to nearest, ties to even.  This
    part follows that computation, in exact rational arithmetic, up to
    what the centre of the map needs: the quotient of a finite float by a
    count is finite, and lies within one rounding of the exact quotient. *)

Section Rounding.

Local Open Scope Q_scope.

Lemma inject_Z_xO (p : positive) : inject_Z (Z.pos p~0) == 2 * inject_Z (Z.pos p).
Proof. change (Z.pos p~0) with (2 * Z.pos p)%Z. rewrite inject_Z_mult. reflexivity. Qed.

Lemma inject_Z_xI (p : positive) : inject_Z (Z.pos p~1) == 2 * inject_Z (Z.pos p) + 1.
Proof.
  change (Z.pos p~1) with (2 * Z.pos p + 1)%Z.
  rewrite inject_Z_plus, inject_Z_mult. reflexivity.
Qed.

Lemma shr_1_inv (y : Q) (mrs : shr_record) :
  loc_inv y mrs -> loc_inv (y * (1 # 2)) (shr_1 mrs).
Proof.
  destruct mrs as [m r s]. unfold loc_inv. simpl shr_m. simpl shr_r. simpl shr_s.
  intros (Hm & H).
  destruct m as [|p|p]; [| destruct p as [p|p|] |]; simpl;
    try (exfalso; lia); (split; [lia |]).
  - change (inject_Z 0) with 0 in *. destruct r, s; simpl; lra.
  - pose proof (inject_Z_xI p) as E. 
    assert (0 < inject_Z (Z.pos p)) by (change 0 with (inject_Z 0); rewrite <- Zlt_Qlt; lia).
    destruct r, s; simpl; lra.
  - pose proof (inject_Z_xO p) as E.
    destruct r, s; simpl; lra.
  - change (inject_Z 1) with 1 in *. change (inject_Z 0) with 0.
    destruct r, s; simpl; lra.
Qed.

Lemma loc_inv_proper (y y' : Q) (mrs : shr_record) :
  y == y' -> loc_inv y mrs -> loc_inv y' mrs.
Proof.
  intros E [Hm H]. split; [exact Hm |].
  destruct (shr_r mrs), (shr_s mrs); lra.
Qed.

Lemma iter_pos_shr_inv (p : positive) (y : Q) (mrs : shr_record) :
  loc_inv y mrs ->
  loc_inv (y / inject_Z (2 ^ Z.pos p)) (SpecFloat.iter_pos shr_1 p mrs).
Proof.
  revert y mrs. induction p as [p IH|p IH|]; intros y mrs H; simpl SpecFloat.iter_pos.
  - apply (loc_inv_proper
             ((y * (1 # 2)) / inject_Z (2 ^ Z.pos p) / inject_Z (2 ^ Z.pos p))).
    + assert (E : (2 ^ Z.pos p~1 = 2 * 2 ^ Z.pos p * 2 ^ Z.pos p)%Z).
      { replace (Z.pos p~1) with (1 + (Z.pos p + Z.pos p))%Z by lia.
        rewrite !Z.pow_add_r by lia. lia. }
      rewrite E, !inject_Z_mult.
      assert (0 < inject_Z (2 ^ Z.pos p)).
      { change 0 with (inject_Z 0). rewrite <- Zlt_Qlt. apply Z.pow_pos_nonneg; lia. }
      change (inject_Z 2) with 2. field. lra.
    + apply IH, IH, shr_1_inv, H.
  - apply (loc_inv_proper (y / inject_Z (2 ^ Z.pos p) / inject_Z (2 ^ Z.pos p))).
    + assert (E : (2 ^ Z.pos p~0 = 2 ^ Z.pos p * 2 ^ Z.pos p)%Z).
      { replace (Z.pos p~0) with (Z.pos p + Z.pos p)%Z by lia.
        rewrite !Z.pow_add_r by lia. lia. }
      rewrite E, !inject_Z_mult.
      assert (0 < inject_Z (2 ^ Z.pos p)).
      { change 0 with (inject_Z 0). rewrite <- Zlt_Qlt. apply Z.pow_pos_nonneg; lia. }
      field. lra.
    + apply IH, IH, H.
  - apply (loc_inv_proper (y * (1 # 2))).
    + change (inject_Z (2 ^ 1)) with 2. field.
    + apply shr_1_inv, H.
Qed.

Local Open Scope Z_scope.

Lemma digits2_pos_bounds (m : positive) :
  2 ^ (Z.pos (digits2_pos m) - 1) <= Z.pos m < 2 ^ Z.pos (digits2_pos m).
Proof.
  induction m as [m IH|m IH|]; simpl digits2_pos.
  - rewrite Pos2Z.inj_succ.
    replace (Z.succ (Z.pos (digits2_pos m)) - 1) with (Z.succ (Z.pos (digits2_pos m) - 1)) by lia.
    rewrite !Z.pow_succ_r by lia. lia.
  - rewrite Pos2Z.inj_succ.
    replace (Z.succ (Z.pos (digits2_pos m)) - 1) with (Z.succ (Z.pos (digits2_pos m) - 1)) by lia.
    rewrite !Z.pow_succ_r by lia. lia.
  - simpl. lia.
Qed.

Lemma Zdigits2_bounds (m : Z) :
  0 < m -> 0 < Zdigits2 m /\ 2 ^ (Zdigits2 m - 1) <= m < 2 ^ Zdigits2 m.
Proof.
  destruct m as [|p|p]; try lia. intros _. simpl Zdigits2.
  split; [lia | apply digits2_pos_bounds].
Qed.

Lemma Zdigits2_nonneg (m : Z) : 0 <= Zdigits2 m.
Proof. destruct m; simpl; lia. Qed.

Lemma Zdigits2_unique (m d : Z) :
  0 < d -> 2 ^ (d - 1) <= m < 2 ^ d -> Zdigits2 m = d.
Proof.
  intros Hd [Hlo Hhi].
  assert (Hm : 0 < m) by (pose proof (Z.pow_pos_nonneg 2 (d - 1)); lia).
  destruct (Zdigits2_bounds m Hm) as (Hd0 & Hlo0 & Hhi0).
  destruct (Z.lt_trichotomy (Zdigits2 m) d) as [L | [E | G]]; [| exact E |].
  - assert (2 ^ Zdigits2 m <= 2 ^ (d - 1)) by (apply Z.pow_le_mono_r; lia). lia.
  - assert (2 ^ d <= 2 ^ (Zdigits2 m - 1)) by (apply Z.pow_le_mono_r; lia). lia.
Qed.

Lemma Zdigits2_le (a b : Z) : 0 <= a <= b -> Zdigits2 a <= Zdigits2 b.
Proof.
  intros [Ha Hab].
  destruct (Z.eq_dec a 0%Z) as [-> | Hne]; [apply Zdigits2_nonneg |].
  destruct (Zdigits2_bounds a ltac:(lia)) as (Hda & Hlo & Hhi).
  destruct (Zdigits2_bounds b ltac:(lia)) as (Hdb & Hlo' & Hhi').
  destruct (Z.le_gt_cases (Zdigits2 a) (Zdigits2 b)) as [L | G]; [exact L |].
  assert (2 ^ Zdigits2 b <= 2 ^ (Zdigits2 a - 1)) by (apply Z.pow_le_mono_r; lia).
  lia.
Qed.

(** m < 2^d -> digits m <= d *)
Lemma Zdigits2_le_pow (m d : Z) : 0 <= d -> 0 <= m < 2 ^ d -> Zdigits2 m <= d.
Proof.
  intros Hd [Hm Hlt].
  destruct (Z.eq_dec m 0%Z) as [-> | Hne]; [simpl; lia |].
  destruct (Zdigits2_bounds m ltac:(lia)) as (Hdm & Hlo & Hhi).
  destruct (Z.le_gt_cases (Zdigits2 m) d) as [L | G]; [exact L |].
  assert (2 ^ d <= 2 ^ (Zdigits2 m - 1)) by (apply Z.pow_le_mono_r; lia).
  lia.
Qed.

(** 2^(d-1) <= m -> d <= digits m *)
Lemma Zdigits2_ge_pow (m d : Z) : 2 ^ (d - 1) <= m -> 0 < d -> d <= Zdigits2 m.
Proof.
  intros Hlo Hd.
  assert (Hm : 0 < m) by (pose proof (Z.pow_pos_nonneg 2 (d - 1)); lia).
  destruct (Zdigits2_bounds m Hm) as (Hdm & Hlo' & Hhi').
  destruct (Z.le_gt_cases d (Zdigits2 m)) as [L | G]; [exact L |].
  assert (2 ^ Zdigits2 m <= 2 ^ (d - 1)) by (apply Z.pow_le_mono_r; lia).
  lia.
Qed.

Lemma fexp_eq (e : Z) : fexp prec emax e = Z.max (e - 53) (-1074).
Proof. reflexivity. Qed.

Lemma shr_1_m (mrs : shr_record) :
  0 <= shr_m mrs -> shr_m (shr_1 mrs) = shr_m mrs / 2.
Proof.
  destruct mrs as [m r s]. simpl. intros Hm.
  destruct m as [|p|p]; [reflexivity | | lia].
  destruct p as [p|p|]; simpl.
  - rewrite Pos2Z.inj_xI. apply (Z.div_unique _ _ _ 1); lia.
  - rewrite Pos2Z.inj_xO. apply (Z.div_unique _ _ _ 0); lia.
  - reflexivity.
Qed.

Lemma shr_1_m_nonneg (mrs : shr_record) :
  0 <= shr_m mrs -> 0 <= shr_m (shr_1 mrs).
Proof. intros H. rewrite shr_1_m by exact H. apply Z.div_pos; lia. Qed.

Lemma iter_pos_shr_m (p : positive) (mrs : shr_record) :
  0 <= shr_m mrs ->
  0 <= shr_m (SpecFloat.iter_pos shr_1 p mrs) /\
  shr_m (SpecFloat.iter_pos shr_1 p mrs) = shr_m mrs / 2 ^ Z.pos p.
Proof.
  revert mrs. induction p as [p IH|p IH|]; intros mrs Hm; simpl SpecFloat.iter_pos.
  - pose proof (shr_1_m_nonneg mrs Hm) as H1.
    destruct (IH (shr_1 mrs) H1) as [H2 E2].
    destruct (IH _ H2) as [H3 E3].
    split; [exact H3 |].
    rewrite E3, E2, shr_1_m by exact Hm.
    replace (Z.pos p~1) with (1 + Z.pos p + Z.pos p) by lia.
    rewrite !Z.pow_add_r by lia.
    rewrite !Z.div_div by (try apply Z.pow_pos_nonneg; lia).
    f_equal; lia.
  - destruct (IH mrs Hm) as [H2 E2].
    destruct (IH _ H2) as [H3 E3].
    split; [exact H3 |].
    rewrite E3, E2.
    replace (Z.pos p~0) with (Z.pos p + Z.pos p) by lia.
    rewrite !Z.pow_add_r by lia.
    rewrite !Z.div_div by (try apply Z.pow_pos_nonneg; lia).
    reflexivity.
  - split; [apply shr_1_m_nonneg, Hm |].
    rewrite shr_1_m by exact Hm. reflexivity.
Qed.

Lemma Zdigits2_shift (m n : Z) :
  0 <= n -> 2 ^ n <= m -> Zdigits2 (m / 2 ^ n) = Zdigits2 m - n.
Proof.
  intros Hn Hm.
  assert (Hp : 0 < 2 ^ n) by (apply Z.pow_pos_nonneg; lia).
  destruct (Zdigits2_bounds m ltac:(lia)) as (Hd & Hlo & Hhi).
  assert (Hnd : n < Zdigits2 m).
  { destruct (Z.lt_ge_cases n (Zdigits2 m)) as [L | G]; [exact L |].
    assert (2 ^ Zdigits2 m <= 2 ^ n) by (apply Z.pow_le_mono_r; lia). lia. }
  apply Zdigits2_unique; [lia |].
  split.
  - apply Z.div_le_lower_bound; [exact Hp |].
    rewrite <- Z.pow_add_r by lia.
    replace (n + (Zdigits2 m - n - 1)) with (Zdigits2 m - 1) by lia. exact Hlo.
  - apply Z.div_lt_upper_bound; [exact Hp |].
    rewrite <- Z.pow_add_r by lia.
    replace (n + (Zdigits2 m - n)) with (Zdigits2 m) by lia. exact Hhi.
Qed.

Local Open Scope Q_scope.

Lemma pow2_pos (e : Z) : 0 < pow2 e.
Proof. apply Qpower_0_lt. reflexivity. Qed.

Lemma pow2_add (a b : Z) : pow2 (a + b) == pow2 a * pow2 b.
Proof. apply Qpower_plus. discriminate. Qed.

Lemma pow2_inject (n : Z) : (0 <= n)%Z -> pow2 n == inject_Z (2 ^ n).
Proof. intros H. rewrite Zpower_Qpower by exact H. reflexivity. Qed.

Lemma pow2_pred (e : Z) : pow2 (e - 1) == pow2 e * (1 # 2).
Proof.
  unfold Z.sub. rewrite pow2_add. reflexivity.
Qed.

Lemma pow2_le (a b : Z) : (a <= b)%Z -> pow2 a <= pow2 b.
Proof. intros H. apply Qpower_le_compat_l; [exact H | discriminate]. Qed.

Lemma pow2_lt (a b : Z) : (a < b)%Z -> pow2 a < pow2 b.
Proof. intros H. apply Qpower_lt_compat_l; [exact H | reflexivity]. Qed.

Lemma shr_record_of_loc_m (m : Z) (l : location) : shr_m (shr_record_of_loc m l) = m.
Proof. destruct l as [|[]]; reflexivity. Qed.

Lemma round_nearest_even_spec (y : Q) (mrs : shr_record) :
  loc_inv y mrs ->
  let k := round_nearest_even (shr_m mrs) (loc_of_shr_record mrs) in
  (shr_m mrs <= k <= shr_m mrs + 1)%Z /\
  - (1 # 2) <= inject_Z k - y /\ inject_Z k - y <= 1 # 2.
Proof.
  destruct mrs as [m r s]. unfold loc_inv. simpl. intros [Hm H].
  assert (E : inject_Z (m + 1) == inject_Z m + 1) by (rewrite inject_Z_plus; reflexivity).
  destruct r, s; simpl.
  - split; [lia | lra].
  - destruct (Z.even m); split; try lia; lra.
  - split; [lia | lra].
  - split; [lia | lra].
Qed.

Lemma shr_fexp_first (mx ex : Z) (lx : location) (x : Q) :
  (0 <= mx)%Z ->
  loc_inv (x / pow2 ex) (shr_record_of_loc mx lx) ->
  (ex <= fexp prec emax (Zdigits2 mx + ex))%Z ->
  exists mrs,
    shr_fexp prec emax mx ex lx = (mrs, fexp prec emax (Zdigits2 mx + ex)) /\
    loc_inv (x / pow2 (fexp prec emax (Zdigits2 mx + ex))) mrs /\
    (fexp prec emax (Zdigits2 (shr_m mrs) + fexp prec emax (Zdigits2 mx + ex))
     = fexp prec emax (Zdigits2 mx + ex))%Z.
Proof.
  intros Hm Hloc He.
  set (e1 := fexp prec emax (Zdigits2 mx + ex)) in *.
  unfold shr_fexp, shr. fold e1.
  destruct (e1 - ex)%Z as [|p|p] eqn:Hn; [| | lia].
  - assert (E : e1 = ex) by lia.
    exists (shr_record_of_loc mx lx).
    rewrite shr_record_of_loc_m, E.
    split; [reflexivity |]. split; [exact Hloc |].
    rewrite <- E at 2. reflexivity.
  - exists (SpecFloat.iter_pos shr_1 p (shr_record_of_loc mx lx)).
    assert (E : e1 = (ex + Z.pos p)%Z) by lia.
    split; [rewrite E; reflexivity |].
    split.
    + apply (loc_inv_proper (x / pow2 ex / inject_Z (2 ^ Z.pos p))).
      * rewrite E, pow2_add, <- (pow2_inject (Z.pos p)) by lia.
        pose proof (pow2_pos ex). pose proof (pow2_pos (Z.pos p)).
        field. lra.
      * apply iter_pos_shr_inv, Hloc.
    + destruct (iter_pos_shr_m p (shr_record_of_loc mx lx)) as [_ Em];
        [rewrite shr_record_of_loc_m; exact Hm |].
      rewrite Em, shr_record_of_loc_m.
      destruct (Z.le_gt_cases (2 ^ Z.pos p) mx) as [L | G].
      * rewrite Zdigits2_shift by lia.
        replace (Zdigits2 mx - Z.pos p + e1)%Z with (Zdigits2 mx + ex)%Z by lia.
        reflexivity.
      * rewrite Z.div_small by lia. simpl Zdigits2.
        assert (Hd : (Zdigits2 mx <= Z.pos p)%Z) by (apply Zdigits2_le_pow; lia).
        unfold e1 in *. rewrite !fexp_eq in *. lia.
Qed.

Lemma shr_fexp_second (k e1 m1 : Z) :
  (0 <= m1)%Z ->
  fexp prec emax (Zdigits2 m1 + e1) = e1 ->
  (m1 <= k <= m1 + 1)%Z ->
  exists mrs e3,
    shr_fexp prec emax k e1 loc_Exact = (mrs, e3) /\
    (0 <= shr_m mrs)%Z /\
    inject_Z (shr_m mrs) * pow2 e3 == inject_Z k * pow2 e1 /\
    e3 = fexp prec emax (Zdigits2 k + e1) /\
    (Zdigits2 (shr_m mrs) + e3 = Zdigits2 k + e1)%Z.
Proof.
  intros Hm1 Hcanon Hk.
  assert (Hlow : (Zdigits2 m1 <= Zdigits2 k)%Z) by (apply Zdigits2_le; lia).
  assert (Hup : (Zdigits2 k <= Zdigits2 m1 + 1)%Z).
  { apply Zdigits2_le_pow; [pose proof (Zdigits2_nonneg m1); lia |].
    split; [lia |].
    destruct (Z.eq_dec m1 0%Z) as [-> | Hne]; [simpl; lia |].
    destruct (Zdigits2_bounds m1 ltac:(lia)) as (Hd & _ & Hhi).
    rewrite Z.pow_add_r by lia. change (2 ^ 1)%Z with 2%Z. lia. }
  unfold shr_fexp, shr.
  rewrite fexp_eq in Hcanon.
  destruct (fexp prec emax (Zdigits2 k + e1) - e1)%Z as [|p|p] eqn:Hn;
    rewrite fexp_eq in Hn; [| | lia].
  - exists {| shr_m := k; shr_r := false; shr_s := false |}, e1.
    simpl. split; [reflexivity |]. split; [lia |]. split; [reflexivity |].
    split; [rewrite fexp_eq; lia | reflexivity].
  - assert (Hp : p = 1%positive) by lia. subst p.
    assert (Hd1 : Zdigits2 m1 = 53%Z) by lia.
    assert (Hdk : Zdigits2 k = 54%Z) by lia.
    assert (Hk2 : k = (2 ^ 53)%Z).
    { assert (Hkpos : (0 < k)%Z) by (destruct k; simpl in Hdk; lia).
      destruct (Zdigits2_bounds k Hkpos) as (_ & Hlo & _).
      assert (Hm1pos : (0 < m1)%Z) by (destruct m1; simpl in Hd1; lia).
      destruct (Zdigits2_bounds m1 Hm1pos) as (_ & _ & Hhi).
      rewrite Hdk in Hlo. rewrite Hd1 in Hhi. change (54 - 1)%Z with 53%Z in Hlo. lia. }
    subst k.
    exists (shr_1 {| shr_m := 2 ^ 53; shr_r := false; shr_s := false |}), (e1 + 1)%Z.
    split; [reflexivity |].
    split; [vm_compute; discriminate |].
    split.
    + rewrite pow2_add. change (pow2 1) with 2.
      change (shr_m (shr_1 {| shr_m := 2 ^ 53; shr_r := false; shr_s := false |}))
        with (2 ^ 52)%Z.
      change (inject_Z (2 ^ 53)) with (inject_Z (2 ^ 52) * 2). ring.
    + split; [rewrite fexp_eq; lia |].
      change (shr_m (shr_1 {| shr_m := 2 ^ 53; shr_r := false; shr_s := false |}))
        with (2 ^ 52)%Z.
      rewrite Hdk. change (Zdigits2 (2 ^ 52)) with 53%Z. lia.
Qed.

Lemma round_aux_spec (sx : bool) (mx ex : Z) (lx : location) (x : Q) :
  (0 <= mx)%Z ->
  loc_inv (x / pow2 ex) (shr_record_of_loc mx lx) ->
  (ex <= fexp prec emax (Zdigits2 mx + ex))%Z ->
  exists m e,
    binary_round_aux prec emax sx mx ex lx = SFpack sx m e /\
    (0 <= m)%Z /\
    e = fexp prec emax (Zdigits2 m + e) /\
    (fexp prec emax (Zdigits2 mx + ex) <= e)%Z /\
    - pow2 (fexp prec emax (Zdigits2 mx + ex) - 1) <= inject_Z m * pow2 e - x /\
    inject_Z m * pow2 e - x <= pow2 (fexp prec emax (Zdigits2 mx + ex) - 1).
Proof.
  intros Hm Hloc He.
  destruct (shr_fexp_first mx ex lx x Hm Hloc He) as (mrs & E1 & Hloc1 & Hcanon).
  set (e1 := fexp prec emax (Zdigits2 mx + ex)) in *.
  pose proof (round_nearest_even_spec _ _ Hloc1) as (Hk & Hlo & Hhi).
  set (k := round_nearest_even (shr_m mrs) (loc_of_shr_record mrs)) in *.
  destruct (shr_fexp_second k e1 (shr_m mrs) (proj1 Hloc1) Hcanon Hk)
    as (mrs3 & e3 & E3 & Hm3 & Eval & Ee3 & Hdig).
  exists (shr_m mrs3), e3.
  split.
  { unfold binary_round_aux. rewrite E1. fold k. rewrite E3. reflexivity. }
  split; [exact Hm3 |].
  split; [rewrite Hdig; exact Ee3 |].
  split.
  { rewrite Ee3, <- Hcanon at 1. rewrite !fexp_eq.
    assert ((Zdigits2 (shr_m mrs) <= Zdigits2 k)%Z) by (apply Zdigits2_le; destruct Hloc1; lia).
    lia. }
  rewrite Eval, pow2_pred.
  pose proof (pow2_pos e1) as Hp.
  assert (Ex : x == (x / pow2 e1) * pow2 e1) by (field; lra).
  set (y := x / pow2 e1) in *.
  split.
  - rewrite Ex. nra.
  - rewrite Ex. nra.
Qed.

Lemma fexp_le (a b : Z) : (a <= b)%Z -> (fexp prec emax a <= fexp prec emax b)%Z.
Proof. intros H. rewrite !fexp_eq. lia. Qed.

Lemma new_location_inv (my r q : Z) (y : Q) :
  (0 < my)%Z -> (0 <= r < my)%Z -> (0 <= q)%Z ->
  y == inject_Z q + inject_Z r / inject_Z my ->
  loc_inv y (shr_record_of_loc q (new_location my r)).
Proof.
  intros Hmy Hr Hq Ey.
  assert (HM : 0 < inject_Z my) by (change 0 with (inject_Z 0); rewrite <- Zlt_Qlt; exact Hmy).
  assert (HR : 0 <= inject_Z r) by (change 0 with (inject_Z 0); rewrite <- Zle_Qle; lia).
  set (t := inject_Z r / inject_Z my) in *.
  assert (Et : t * inject_Z my == inject_Z r) by (unfold t; field; lra).
  assert (Half : forall c, (2 * r ?= my)%Z = c ->
                 match c with
                 | Lt => t < 1 # 2
                 | Eq => t == 1 # 2
                 | Gt => 1 # 2 < t
                 end).
  { intros c Hc. destruct c.
    - apply Z.compare_eq in Hc.
      assert (E : 2 * inject_Z r == inject_Z my).
      { rewrite <- Hc, inject_Z_mult. reflexivity. }
      nra.
    - rewrite Z.compare_lt_iff in Hc.
      assert (E : 2 * inject_Z r < inject_Z my).
      { change 2 with (inject_Z 2). rewrite <- inject_Z_mult, <- Zlt_Qlt. exact Hc. }
      nra.
    - rewrite Z.compare_gt_iff in Hc.
      assert (E : inject_Z my < 2 * inject_Z r).
      { change 2 with (inject_Z 2). rewrite <- inject_Z_mult, <- Zlt_Qlt. exact Hc. }
      nra. }
  assert (Ht1 : t < 1).
  { assert (E : inject_Z r < inject_Z my) by (rewrite <- Zlt_Qlt; lia). nra. }
  assert (Ht0 : (r =? 0)%Z = false -> 0 < t).
  { intros Hne. apply Z.eqb_neq in Hne.
    assert (E : 0 < inject_Z r) by (change 0 with (inject_Z 0); rewrite <- Zlt_Qlt; lia).
    nra. }
  unfold new_location, loc_inv.
  destruct (Z.even my) eqn:Heven.
  - unfold new_location_even.
    destruct (r =? 0)%Z eqn:Hr0.
    + apply Z.eqb_eq in Hr0. subst r. simpl.
      split; [exact Hq |]. change (inject_Z 0) with 0 in Et. nra.
    + specialize (Ht0 eq_refl).
      pose proof (Half _ eq_refl) as H.
      destruct (2 * r ?= my)%Z; simpl; (split; [exact Hq |]); lra.
  - unfold new_location_odd.
    destruct (r =? 0)%Z eqn:Hr0.
    + apply Z.eqb_eq in Hr0. subst r. simpl.
      split; [exact Hq |]. change (inject_Z 0) with 0 in Et. nra.
    + specialize (Ht0 eq_refl).
      pose proof (Half _ eq_refl) as H.
      assert (Hodd : Z.odd my = true) by (rewrite <- Z.negb_even, Heven; reflexivity).
      apply Z.odd_spec in Hodd as [j Hj].
      destruct (2 * r + 1 ?= my)%Z eqn:Hc.
      * apply Z.compare_eq in Hc.
        assert (Hlt : (2 * r ?= my)%Z = Lt) by (apply Z.compare_lt_iff; lia).
        rewrite Hlt in H. simpl. split; [exact Hq |]. lra.
      * rewrite Z.compare_lt_iff in Hc.
        assert (Hlt : (2 * r ?= my)%Z = Lt) by (apply Z.compare_lt_iff; lia).
        rewrite Hlt in H. simpl. split; [exact Hq |]. lra.
      * rewrite Z.compare_gt_iff in Hc.
        assert (Hgt : (2 * r ?= my)%Z = Gt) by (apply Z.compare_gt_iff; lia).
        rewrite Hgt in H. simpl. split; [exact Hq |]. lra.
Qed.

Lemma inject_Z_pos_lt (m : Z) : (0 < m)%Z -> 0 < inject_Z m.
Proof. intros H. change 0 with (inject_Z 0). rewrite <- Zlt_Qlt. exact H. Qed.

Lemma inject_Z_nonneg (m : Z) : (0 <= m)%Z -> 0 <= inject_Z m.
Proof. intros H. change 0 with (inject_Z 0). rewrite <- Zle_Qle. exact H. Qed.

Lemma div_core_spec (mx my : positive) (ex ey : Z) :
  exists q e' l,
    SFdiv_core_binary prec emax (Z.pos mx) ex (Z.pos my) ey = (q, e', l) /\
    (0 <= q)%Z /\
    loc_inv (inject_Z (Z.pos mx) / inject_Z (Z.pos my) * pow2 (ex - ey) / pow2 e')
      (shr_record_of_loc q l) /\
    (e' <= fexp prec emax (Zdigits2 q + e'))%Z /\
    inject_Z q * pow2 e'
    <= inject_Z (Z.pos mx) / inject_Z (Z.pos my) * pow2 (ex - ey).
Proof.
  unfold SFdiv_core_binary.
  set (d1 := Zdigits2 (Z.pos mx)). set (d2 := Zdigits2 (Z.pos my)).
  set (e' := Z.min (fexp prec emax (d1 + ex - (d2 + ey))) (ex - ey)).
  set (s := (ex - ey - e')%Z).
  assert (Hs : (0 <= s)%Z) by (unfold s, e'; lia).
  set (m' := match s with
             | 0%Z => Z.pos mx
             | Z.pos _ => Z.shiftl (Z.pos mx) s
             | Z.neg _ => 0%Z
             end).
  assert (Em' : m' = (Z.pos mx * 2 ^ s)%Z).
  { unfold m'. destruct s as [|p|p] eqn:Es; [simpl; lia | | lia].
    rewrite Z.shiftl_mul_pow2 by lia. reflexivity. }
  clearbody m'.
  assert (Hps : (0 < 2 ^ s)%Z) by (apply Z.pow_pos_nonneg; lia).
  pose proof (Z_div_mod m' (Z.pos my) ltac:(lia)) as Hdm.
  destruct (Z.div_eucl m' (Z.pos my)) as [q r] eqn:Hqr.
  destruct Hdm as [Hm' Hr].
  assert (Hq : (0 <= q)%Z).
  { assert (0 <= m')%Z by (subst m'; lia). nia. }
  exists q, e', (new_location (Z.pos my) r).
  split; [reflexivity |]. split; [exact Hq |].
  pose proof (inject_Z_pos_lt (Z.pos my) ltac:(lia)) as HMy.
  pose proof (pow2_pos e') as He'.
  assert (Ey : inject_Z (Z.pos mx) / inject_Z (Z.pos my) * pow2 (ex - ey) / pow2 e'
               == inject_Z q + inject_Z r / inject_Z (Z.pos my)).
  { replace (ex - ey)%Z with (s + e')%Z by (unfold s; lia).
    rewrite pow2_add, (pow2_inject s) by exact Hs.
    assert (E : inject_Z (Z.pos mx) * inject_Z (2 ^ s)
                == inject_Z (Z.pos my) * inject_Z q + inject_Z r).
    { rewrite <- !inject_Z_mult, <- inject_Z_plus, <- Hm', Em'. reflexivity. }
    field_simplify_eq; [| lra].
    rewrite <- E. ring. }
  split; [apply new_location_inv; [lia | exact Hr | exact Hq | exact Ey] |].
  split.
  - (* canonical exponent *)
    apply Z.le_trans with (fexp prec emax (d1 + ex - (d2 + ey))); [unfold e'; lia |].
    apply fexp_le.
    destruct (Z.le_gt_cases (d1 - d2 + s) 0) as [L | G].
    + pose proof (Zdigits2_nonneg q). unfold s in *. lia.
    + assert (Hdq : (d1 - d2 + s <= Zdigits2 q)%Z).
      { apply Zdigits2_ge_pow; [| lia].
        destruct (Zdigits2_bounds (Z.pos mx) ltac:(lia)) as (Hd1 & Hlo1 & _).
        destruct (Zdigits2_bounds (Z.pos my) ltac:(lia)) as (Hd2 & _ & Hhi2).
        fold d1 in Hd1, Hlo1. fold d2 in Hd2, Hhi2.
        assert (Hq' : q = (m' / Z.pos my)%Z).
        { apply (Z.div_unique_pos m' (Z.pos my) q r); lia. }
        rewrite Hq'. apply Z.div_le_lower_bound; [lia |].
        rewrite Em'.
        apply Z.le_trans with (2 ^ d2 * 2 ^ (d1 - d2 + s - 1))%Z.
        { apply Z.mul_le_mono_nonneg_r; [apply Z.pow_nonneg; lia | lia]. }
        rewrite <- Z.pow_add_r by lia.
        replace (d2 + (d1 - d2 + s - 1))%Z with ((d1 - 1) + s)%Z by lia.
        rewrite Z.pow_add_r by lia.
        apply Z.mul_le_mono_nonneg_r; lia. }
      unfold s in *. lia.
  - (* the quotient is below *)
    assert (Hle : inject_Z q
                  <= inject_Z (Z.pos mx) / inject_Z (Z.pos my) * pow2 (ex - ey) / pow2 e').
    { rewrite Ey.
      assert (0 <= inject_Z r / inject_Z (Z.pos my)).
      { apply Qle_shift_div_l; [exact HMy |]. rewrite Qmult_0_l.
        apply inject_Z_nonneg. lia. }
      lra. }
    set (X := inject_Z (Z.pos mx) / inject_Z (Z.pos my) * pow2 (ex - ey)) in *.
    assert (EX : X == X / pow2 e' * pow2 e') by (field; lra).
    rewrite EX. apply Qmult_le_compat_r; [exact Hle | lra].
Qed.

Lemma pow2_digits_le (q : Z) : (0 < q)%Z -> pow2 (Zdigits2 q - 1) <= inject_Z q.
Proof.
  intros Hq. destruct (Zdigits2_bounds q Hq) as (Hd & Hlo & _).
  rewrite pow2_inject by lia. rewrite <- Zle_Qle. exact Hlo.
Qed.

Lemma pow2_lt_inv (a b : Z) : pow2 a < pow2 b -> (a < b)%Z.
Proof. intros H. apply (Qpower_lt_compat_l_inv 2); [exact H | reflexivity]. Qed.

Lemma pow2_le_inv (a b : Z) : pow2 a <= pow2 b -> (a <= b)%Z.
Proof. intros H. apply (Qpower_le_compat_l_inv 2); [exact H | reflexivity]. Qed.

Lemma SFdiv_finite_spec (sx sy : bool) (mx my : positive) (ex ey : Z) :
  exists m e e1,
    SFdiv prec emax (S754_finite sx mx ex) (S754_finite sy my ey)
    = SFpack (xorb sx sy) m e /\
    (0 <= m)%Z /\
    e = fexp prec emax (Zdigits2 m + e) /\
    (e1 <= e)%Z /\
    - pow2 (e1 - 1)
    <= inject_Z m * pow2 e
       - inject_Z (Z.pos mx) / inject_Z (Z.pos my) * pow2 (ex - ey) /\
    inject_Z m * pow2 e
    - inject_Z (Z.pos mx) / inject_Z (Z.pos my) * pow2 (ex - ey)
    <= pow2 (e1 - 1) /\
    pow2 (e1 - 1)
    <= inject_Z (Z.pos mx) / inject_Z (Z.pos my) * pow2 (ex - ey) * pow2 (-53)
       + pow2 (-1075) /\
    (forall b,
        inject_Z (Z.pos mx) / inject_Z (Z.pos my) * pow2 (ex - ey) < pow2 b ->
        (e1 <= fexp prec emax b)%Z).
Proof.
  destruct (div_core_spec mx my ex ey) as (q & e' & l & Ecore & Hq & Hloc & He' & Hbelow).
  set (x := inject_Z (Z.pos mx) / inject_Z (Z.pos my) * pow2 (ex - ey)) in *.
  destruct (round_aux_spec (xorb sx sy) q e' l x Hq Hloc He')
    as (m & e & Eround & Hm & Hcanon & Hle & Hlo & Hhi).
  set (e1 := fexp prec emax (Zdigits2 q + e')) in *.
  exists m, e, e1.
  split; [simpl; rewrite Ecore; exact Eround |].
  split; [exact Hm |]. split; [exact Hcanon |]. split; [exact Hle |].
  split; [exact Hlo |]. split; [exact Hhi |].
  assert (Hx : 0 <= x).
  { apply Qle_trans with (inject_Z q * pow2 e'); [| exact Hbelow].
    pose proof (pow2_pos e'). pose proof (inject_Z_nonneg q Hq). nra. }
  assert (Hmag : (0 < q)%Z -> pow2 (Zdigits2 q - 1 + e') <= x).
  { intros Hqpos. apply Qle_trans with (inject_Z q * pow2 e'); [| exact Hbelow].
    rewrite pow2_add. apply Qmult_le_compat_r; [apply pow2_digits_le, Hqpos |].
    pose proof (pow2_pos e'). lra. }
  assert (Hq0 : q = 0%Z -> e1 = (-1074)%Z).
  { intros ->. unfold e1 in *. simpl Zdigits2 in *. rewrite fexp_eq in *. lia. }
  split.
  - destruct (Z.eq_dec e1 (-1074)%Z) as [E | Hne].
    + rewrite E. change (-1074 - 1)%Z with (-1075)%Z.
      pose proof (pow2_pos (-53)). nra.
    + assert (Hqpos : (0 < q)%Z) by (destruct (Z.eq_dec q 0%Z) as [E | E]; [destruct (Hne (Hq0 E)) | lia]).
      assert (Ee1 : (e1 - 1 = (Zdigits2 q - 1 + e') + -53)%Z).
      { unfold e1 in *. rewrite fexp_eq in *. lia. }
      rewrite Ee1, pow2_add.
      pose proof (Hmag Hqpos). pose proof (pow2_pos (-53)). pose proof (pow2_pos (-1075)).
      nra.
  - intros b Hlt.
    destruct (Z.eq_dec q 0%Z) as [E | E]; [rewrite (Hq0 E), fexp_eq; lia |].
    assert (Hqpos : (0 < q)%Z) by lia.
    assert (H : (Zdigits2 q - 1 + e' < b)%Z).
    { apply pow2_lt_inv. apply Qle_lt_trans with x; [apply Hmag, Hqpos | exact Hlt]. }
    unfold e1. rewrite !fexp_eq. lia.
Qed.

Lemma Zdigits2_mul_pow2 (m d : Z) :
  (0 < m)%Z -> (0 <= d)%Z -> Zdigits2 (m * 2 ^ d) = (Zdigits2 m + d)%Z.
Proof.
  intros Hm Hd. destruct (Zdigits2_bounds m Hm) as (Hdm & Hlo & Hhi).
  assert (Hp : (0 < 2 ^ d)%Z) by (apply Z.pow_pos_nonneg; lia).
  apply Zdigits2_unique; [lia |].
  replace (Zdigits2 m + d - 1)%Z with ((Zdigits2 m - 1) + d)%Z by lia.
  rewrite !Z.pow_add_r by lia. split; nia.
Qed.

Lemma binary_round_spec (sx : bool) (mx : positive) (ex : Z) :
  exists m e,
    binary_round prec emax sx mx ex = SFpack sx m e /\
    (0 <= m)%Z /\
    e = fexp prec emax (Zdigits2 m + e) /\
    (fexp prec emax (Zdigits2 (Z.pos mx) + ex) <= e)%Z /\
    - pow2 (fexp prec emax (Zdigits2 (Z.pos mx) + ex) - 1)
    <= inject_Z m * pow2 e - inject_Z (Z.pos mx) * pow2 ex /\
    inject_Z m * pow2 e - inject_Z (Z.pos mx) * pow2 ex
    <= pow2 (fexp prec emax (Zdigits2 (Z.pos mx) + ex) - 1).
Proof.
  unfold binary_round, shl_align.
  change (Z.pos (digits2_pos mx)) with (Zdigits2 (Z.pos mx)).
  set (f := fexp prec emax (Zdigits2 (Z.pos mx) + ex)).
  set (x := inject_Z (Z.pos mx) * pow2 ex).
  pose proof (pow2_pos ex) as Hex.
  destruct (f - ex)%Z as [|d|d] eqn:Hd.
  - assert (Hloc : loc_inv (x / pow2 ex) (shr_record_of_loc (Z.pos mx) loc_Exact)).
    { split; [simpl; lia |]. simpl. unfold x. field. lra. }
    destruct (round_aux_spec sx (Z.pos mx) ex loc_Exact x ltac:(lia) Hloc ltac:(fold f; lia))
      as (m & e & E & Hm & Hc & Hle & Hlo & Hhi).
    exists m, e. fold f in Hle, Hlo, Hhi. repeat split; assumption.
  - assert (Hloc : loc_inv (x / pow2 ex) (shr_record_of_loc (Z.pos mx) loc_Exact)).
    { split; [simpl; lia |]. simpl. unfold x. field. lra. }
    destruct (round_aux_spec sx (Z.pos mx) ex loc_Exact x ltac:(lia) Hloc ltac:(fold f; lia))
      as (m & e & E & Hm & Hc & Hle & Hlo & Hhi).
    exists m, e. fold f in Hle, Hlo, Hhi. repeat split; assumption.
  - assert (Emz : Z.pos (Pos.iter xO mx d) = (Z.pos mx * 2 ^ Z.pos d)%Z).
    { change (Pos.iter xO mx d) with (shift_pos d mx).
      rewrite shift_pos_correct. change (Z.pow_pos 2 d) with (2 ^ Z.pos d)%Z. lia. }
    assert (Ef : ex = (f + Z.pos d)%Z) by lia.
    assert (Edig : (Zdigits2 (Z.pos (Pos.iter xO mx d)) + f = Zdigits2 (Z.pos mx) + ex)%Z).
    { rewrite Emz, Zdigits2_mul_pow2 by lia. lia. }
    assert (Hloc : loc_inv (x / pow2 f) (shr_record_of_loc (Z.pos (Pos.iter xO mx d)) loc_Exact)).
    { split; [simpl; lia |]. simpl shr_r. simpl shr_s. simpl shr_m.
      rewrite Emz, inject_Z_mult, <- (pow2_inject (Z.pos d)) by lia.
      unfold x. rewrite Ef at 1. rewrite pow2_add.
      pose proof (pow2_pos f). field. lra. }
    destruct (round_aux_spec sx (Z.pos (Pos.iter xO mx d)) f loc_Exact x ltac:(lia) Hloc)
      as (m & e & E & Hm & Hc & Hle & Hlo & Hhi).
    { rewrite Edig. fold f. lia. }
    rewrite Edig in Hle, Hlo, Hhi. fold f in Hle, Hlo, Hhi.
    exists m, e. repeat split; assumption.
Qed.

Lemma round_on_grid (m e e1 j : Z) (x : Q) :
  (e1 <= e)%Z ->
  x == inject_Z j * pow2 e1 ->
  - pow2 (e1 - 1) <= inject_Z m * pow2 e - x ->
  inject_Z m * pow2 e - x <= pow2 (e1 - 1) ->
  inject_Z m * pow2 e == x.
Proof.
  intros He Ex Hlo Hhi.
  pose proof (pow2_pos e1) as Hp.
  assert (Em : inject_Z m * pow2 e == inject_Z (m * 2 ^ (e - e1)) * pow2 e1).
  { replace e with ((e - e1) + e1)%Z at 1 by lia.
    rewrite pow2_add, (pow2_inject (e - e1)) by lia.
    rewrite inject_Z_mult. ring. }
  set (i := (m * 2 ^ (e - e1) - j)%Z).
  assert (Ei : inject_Z i * pow2 e1 == inject_Z m * pow2 e - x).
  { unfold i. rewrite Em, Ex. unfold Z.sub.
    rewrite inject_Z_plus, inject_Z_opp. ring. }
  rewrite pow2_pred in Hlo, Hhi. rewrite <- Ei in Hlo, Hhi.
  assert (Hi1 : inject_Z (-1) < inject_Z i).
  { change (inject_Z (-1)) with (-1). nra. }
  assert (Hi2 : inject_Z i < inject_Z 1).
  { change (inject_Z 1) with 1. nra. }
  rewrite <- Zlt_Qlt in Hi1, Hi2.
  assert (Hi : i = 0%Z) by lia.
  rewrite Hi in Ei. change (inject_Z 0) with 0 in Ei. lra.
Qed.

Lemma SFpack_finite (sx : bool) (m e : Z) :
  (0 < m)%Z -> (e <= 971)%Z ->
  exists p, m = Z.pos p /\ SFpack sx m e = S754_finite sx p e.
Proof.
  intros Hm He. destruct m as [|p|p]; try lia.
  exists p. split; [reflexivity |]. unfold SFpack.
  change (emax - prec)%Z with 971%Z.
  destruct (e <=? 971)%Z eqn:E; [reflexivity |]. apply Z.leb_gt in E. lia.
Qed.

(** The exponent of a canonical number below [2^b]. *)
Lemma canonical_exponent_le (m e b : Z) :
  (0 < m)%Z -> e = fexp prec emax (Zdigits2 m + e) ->
  inject_Z m * pow2 e < pow2 b -> (-1074 <= b - 53)%Z ->
  (e <= b - 53)%Z.
Proof.
  intros Hm Hc Hlt Hb.
  assert (H : (Zdigits2 m - 1 + e < b)%Z).
  { apply pow2_lt_inv. apply Qle_lt_trans with (inject_Z m * pow2 e); [| exact Hlt].
    rewrite pow2_add. apply Qmult_le_compat_r; [apply pow2_digits_le, Hm |].
    pose proof (pow2_pos e). lra. }
  rewrite fexp_eq in Hc. lia.
Qed.

Lemma normalize_int (N : Z) :
  (0 < N < 2 ^ 53)%Z ->
  exists m e,
    binary_normalize prec emax N 0 false = S754_finite false m e /\
    inject_Z (Z.pos m) * pow2 e == inject_Z N.
Proof.
  intros [Hpos Hlt]. destruct N as [|p|p]; try lia.
  simpl binary_normalize.
  destruct (binary_round_spec false p 0) as (m & e & E & Hm & Hc & Hle & Hlo & Hhi).
  set (e1 := fexp prec emax (Zdigits2 (Z.pos p) + 0)) in *.
  assert (He1 : (e1 <= 0)%Z).
  { assert (Zdigits2 (Z.pos p) <= 53)%Z by (apply Zdigits2_le_pow; lia).
    unfold e1. rewrite fexp_eq. lia. }
  assert (Ex : inject_Z (Z.pos p) * pow2 0 == inject_Z (Z.pos p * 2 ^ (- e1)) * pow2 e1).
  { rewrite inject_Z_mult, <- (pow2_inject (- e1)) by lia.
    rewrite <- Qmult_assoc, <- pow2_add.
    replace (- e1 + e1)%Z with 0%Z by lia. reflexivity. }
  pose proof (round_on_grid m e e1 _ _ Hle Ex Hlo Hhi) as Eval.
  change (pow2 0) with 1 in Eval. rewrite Qmult_1_r in Eval.
  assert (Hmpos : (0 < m)%Z).
  { destruct (Z.eq_dec m 0%Z) as [-> | Hne]; [| lia].
    change (inject_Z 0) with 0 in Eval.
    pose proof (inject_Z_pos_lt (Z.pos p) ltac:(lia)). lra. }
  assert (He : (e <= 971)%Z).
  { assert (e <= 53 - 53)%Z; [| lia].
    apply (canonical_exponent_le m e 53 Hmpos Hc); [| lia].
    rewrite Eval, (pow2_inject 53) by lia. rewrite <- Zlt_Qlt. exact Hlt. }
  destruct (SFpack_finite false m e Hmpos He) as (q & -> & Epack).
  exists q, e. split; [rewrite E; exact Epack | exact Eval].
Qed.

Lemma float_value_zero (f : float) (s : bool) :
  Prim2SF f = S754_zero s -> float_value f = Some (0 # 1).
Proof. intros H. unfold float_value, float_exact. rewrite H. reflexivity. Qed.

Lemma float_value_finite (f : float) (s : bool) (m : positive) (e : Z) :
  Prim2SF f = S754_finite s m e ->
  exists q, float_value f = Some q /\
            q == inject_Z (cond_Zopp s (Z.pos m)) * pow2 e.
Proof.
  intros H. unfold float_value, float_exact. rewrite H.
  destruct (0 <=? e)%Z eqn:He.
  - apply Z.leb_le in He. eexists. split; [reflexivity |].
    rewrite (pow2_inject e) by exact He. rewrite <- inject_Z_mult.
    simpl Z.to_pos. unfold inject_Z. reflexivity.
  - apply Z.leb_gt in He. eexists. split; [reflexivity |].
    rewrite Qmake_Qdiv, Z2Pos.id by (apply Z.pow_pos_nonneg; lia).
    rewrite <- (pow2_inject (- e)) by lia.
    unfold pow2. rewrite Qpower_opp.
    pose proof (pow2_pos e) as Hp. unfold pow2 in Hp. field. lra.
Qed.

Lemma float_value_inv (f : float) (q : Q) :
  float_value f = Some q ->
  (exists s, Prim2SF f = S754_zero s /\ q == 0) \/
  (exists s m e, Prim2SF f = S754_finite s m e /\
                 q == inject_Z (cond_Zopp s (Z.pos m)) * pow2 e).
Proof.
  intros H. destruct (Prim2SF f) as [s|s| |s m e] eqn:E.
  - left. exists s. split; [reflexivity |].
    rewrite (float_value_zero f s E) in H. injection H as <-. reflexivity.
  - unfold float_value, float_exact in H. rewrite E in H. discriminate H.
  - unfold float_value, float_exact in H. rewrite E in H. discriminate H.
  - right. exists s, m, e. split; [reflexivity |].
    destruct (float_value_finite f s m e E) as (q' & Hq' & Eq').
    rewrite H in Hq'. injection Hq' as <-. exact Eq'.
Qed.

Lemma finite_bounds (f : float) (s : bool) (m : positive) (e : Z) :
  Prim2SF f = S754_finite s m e ->
  e = fexp prec emax (Zdigits2 (Z.pos m) + e) /\
  (e <= 971)%Z /\
  inject_Z (Z.pos m) * pow2 e < pow2 (Zdigits2 (Z.pos m) + e) /\
  inject_Z (Z.pos m) * pow2 e <= inject_Z (2 ^ 53 - 1) * pow2 971.
Proof.
  intros H. pose proof (Prim2SF_valid f) as Hv. rewrite H in Hv.
  simpl in Hv. unfold bounded, canonical_mantissa in Hv.
  apply andb_prop in Hv as [Hc He].
  apply Z.eqb_eq in Hc. apply Z.leb_le in He.
  change (emax - prec)%Z with 971%Z in He.
  change (Z.pos (digits2_pos m)) with (Zdigits2 (Z.pos m)) in Hc.
  destruct (Zdigits2_bounds (Z.pos m) ltac:(lia)) as (Hd & Hlo & Hhi).
  pose proof (pow2_pos e) as Hp.
  split; [symmetry; exact Hc |]. split; [exact He |].
  split.
  - rewrite Z.add_comm, pow2_add, (pow2_inject (Zdigits2 (Z.pos m))) by lia.
    rewrite Qmult_comm. apply Qmult_lt_l; [exact Hp |].
    rewrite <- Zlt_Qlt. exact Hhi.
  - assert (Hd53 : (Zdigits2 (Z.pos m) <= 53)%Z) by (rewrite fexp_eq in Hc; lia).
    assert (Hm : (Z.pos m <= 2 ^ 53 - 1)%Z).
    { assert (2 ^ Zdigits2 (Z.pos m) <= 2 ^ 53)%Z by (apply Z.pow_le_mono_r; lia). lia. }
    apply Qle_trans with (inject_Z (2 ^ 53 - 1) * pow2 e).
    + apply Qmult_le_compat_r; [rewrite <- Zle_Qle; exact Hm | lra].
    + rewrite !(Qmult_comm (inject_Z (2 ^ 53 - 1))).
      apply Qmult_le_compat_r; [apply pow2_le, He |].
      apply inject_Z_nonneg. lia.
Qed.

Lemma int_to_float_spec (N : nat) :
  (0 < N)%nat -> (Z.of_nat N < 2 ^ 53)%Z ->
  exists m e,
    Prim2SF (int_to_float N) = S754_finite false m e /\
    inject_Z (Z.pos m) * pow2 e == inject_Z (Z.of_nat N).
Proof.
  intros Hpos Hlt. unfold int_to_float.
  rewrite of_uint63_spec, Uint63.of_Z_spec.
  rewrite Z.mod_small by (split; [lia |]; apply Z.lt_trans with (2 ^ 53)%Z; [exact Hlt | reflexivity]).
  apply normalize_int. lia.
Qed.

Lemma pow2_sub_div (a b : Z) : pow2 (a - b) == pow2 a / pow2 b.
Proof.
  unfold Z.sub. rewrite pow2_add. unfold pow2 at 2. rewrite Qpower_opp.
  reflexivity.
Qed.

Lemma cond_Zopp_value (s : bool) (m : Z) (t : Q) :
  inject_Z (cond_Zopp s m) * t == (if s then - (inject_Z m * t) else inject_Z m * t).
Proof.
  destruct s; simpl; [rewrite inject_Z_opp; ring | reflexivity].
Qed.

Theorem div_by_count (s : float) (N : nat) (q : Q) :
  (0 < N)%nat -> (Z.of_nat N < 2 ^ 53)%Z ->
  float_value s = Some q ->
  exists c,
    float_value (s / int_to_float N) = Some c /\
    Qabs (c - q / inject_Z (Z.of_nat N))
    <= Qabs (q / inject_Z (Z.of_nat N)) * pow2 (-53) + pow2 (-1075) /\
    (forall (f : float) (c' : Q),
        float_value f = Some c' -> c' == q / inject_Z (Z.of_nat N) ->
        c == q / inject_Z (Z.of_nat N)).
Proof.
  intros Hpos Hlt Hq.
  destruct (int_to_float_spec N Hpos Hlt) as (mN & eN & EN & EvalN).
  set (n := inject_Z (Z.of_nat N)) in *.
  assert (Hn : 1 <= n).
  { unfold n. change 1 with (inject_Z 1). rewrite <- Zle_Qle. lia. }
  pose proof (pow2_pos (-53)) as Hp53. pose proof (pow2_pos (-1075)) as Hp1075.
  destruct (float_value_inv s q Hq) as [(sz & Es & Eq) | (ss & ms & es & Es & Eq)].
  - (* the sum is a zero *)
    exists (0 # 1).
    split.
    { apply (float_value_zero _ (xorb sz false)).
      rewrite div_spec, Es, EN. reflexivity. }
    assert (E0 : q / n == 0) by (rewrite Eq; field; lra).
    split.
    + rewrite E0. change (0 # 1) with 0.
      setoid_replace (0 - 0) with 0 using relation Qeq by ring.
      change (Qabs 0) with 0. lra.
    + intros f c' _ _. rewrite E0. reflexivity.
  - (* the sum is finite and not zero *)
    destruct (SFdiv_finite_spec ss false ms mN es eN)
      as (m & e & e1 & Ediv & Hm & Hcanon & Hle & Hlo & Hhi & Hrel & Hmag).
    destruct (finite_bounds s ss ms es Es) as (Hcs & Hes & Hmags & Hmax).
    set (X := inject_Z (Z.pos ms) * pow2 es) in *.
    pose proof (pow2_pos es) as Hpes. pose proof (pow2_pos eN) as HpeN.
    pose proof (inject_Z_pos_lt (Z.pos ms) ltac:(lia)) as HMs.
    pose proof (inject_Z_pos_lt (Z.pos mN) ltac:(lia)) as HMn.
    assert (HX : 0 < X) by (unfold X; nra).
    assert (Ex : inject_Z (Z.pos ms) / inject_Z (Z.pos mN) * pow2 (es - eN) == X / n).
    { rewrite pow2_sub_div. unfold X. rewrite <- EvalN. field. lra. }
    rewrite Ex in Hlo, Hhi, Hrel.
    assert (Hmagx : forall b, X / n < pow2 b -> (e1 <= fexp prec emax b)%Z).
    { intros b Hb. apply Hmag. rewrite Ex. exact Hb. }
    clear Hmag.
    set (x := X / n) in *.
    assert (Hx : 0 < x) by (unfold x; apply Qlt_shift_div_l; lra).
    assert (HxX : x <= X).
    { unfold x. apply Qle_shift_div_r; [lra |]. nra. }
    (* the quotient does not overflow *)
    assert (He1 : (e1 <= 971)%Z).
    { apply (Hmagx 1024%Z). apply Qle_lt_trans with X; [exact HxX |].
      apply Qle_lt_trans with (inject_Z (2 ^ 53 - 1) * pow2 971); [exact Hmax |].
      replace 1024%Z with (53 + 971)%Z by reflexivity.
      rewrite pow2_add, (pow2_inject 53) by lia.
      apply Qmult_lt_r; [apply pow2_pos |]. rewrite <- Zlt_Qlt. lia. }
    assert (Hfin : (0 < m)%Z -> (e <= 971)%Z).
    { intros Hmpos.
      assert (e <= 1024 - 53)%Z; [| lia].
      apply (canonical_exponent_le m e 1024 Hmpos Hcanon); [| lia].
      apply Qle_lt_trans with (x + pow2 (e1 - 1)); [lra |].
      apply Qle_lt_trans with (inject_Z (2 ^ 53 - 1) * pow2 971 + pow2 970).
      { apply Qplus_le_compat; [lra | apply pow2_le; lia]. }
      replace 1024%Z with (54 + 970)%Z by reflexivity.
      replace 971%Z with (1 + 970)%Z by reflexivity.
      rewrite !pow2_add, (pow2_inject 54), (pow2_inject 1) by lia.
      pose proof (pow2_pos 970) as H970.
      set (P := pow2 970) in *.
      assert (E : inject_Z (2 ^ 53 - 1) * (inject_Z (2 ^ 1) * P) + P
                  == inject_Z (2 ^ 54 - 1) * P).
      { assert (E' : inject_Z (2 ^ 54 - 1)
                     == inject_Z (2 ^ 53 - 1) * inject_Z (2 ^ 1) + 1).
        { rewrite <- inject_Z_mult. change 1 with (inject_Z 1).
          rewrite <- inject_Z_plus. reflexivity. }
        rewrite E'. ring. }
      rewrite E. apply Qmult_lt_r; [exact H970 |]. rewrite <- Zlt_Qlt. lia. }
    assert (Eqn : q / n == if ss then - x else x).
    { rewrite Eq, cond_Zopp_value. fold X. unfold x. destruct ss; field; lra. }
    assert (Habs : Qabs (q / n) == x).
    { rewrite Eqn. destruct ss; [rewrite Qabs_opp |]; apply Qabs_pos; lra. }
    destruct (Z.eq_dec m 0%Z) as [Em | Em].
    + (* the quotient rounds to zero *)
      subst m. simpl SFpack in Ediv. change (inject_Z 0) with 0 in *.
      exists (0 # 1).
      split.
      { apply (float_value_zero _ (xorb ss false)).
        rewrite div_spec, Es, EN. unfold SF64div. exact Ediv. }
      split.
      * rewrite Habs. apply Qabs_Qle_condition.
        change (0 # 1) with 0. destruct ss; rewrite Eqn; split; lra.
      * intros f c' Hf Ec'. exfalso.
        (* a float of value x lies on the grid, so the rounding is exact *)
        destruct (float_value_inv f c' Hf) as [(sf & Ef & Ec0) | (sf & mf & ef & Ef & Ecf)].
        { rewrite Ec0 in Ec'. destruct ss; rewrite Eqn in Ec'; lra. }
        destruct (finite_bounds f sf mf ef Ef) as (Hcf & _ & Hmagf & _).
        assert (Exf : x == inject_Z (Z.pos mf) * pow2 ef).
        { rewrite Ecf, cond_Zopp_value, Eqn in Ec'.
          pose proof (inject_Z_pos_lt (Z.pos mf) ltac:(lia)).
          pose proof (pow2_pos ef).
          destruct sf, ss; nra. }
        assert (He1f : (e1 <= ef)%Z).
        { rewrite Hcf. apply Hmagx. fold x. rewrite Exf. exact Hmagf. }
        assert (Egrid : x == inject_Z (Z.pos mf * 2 ^ (ef - e1)) * pow2 e1).
        { rewrite Exf, inject_Z_mult, <- (pow2_inject (ef - e1)) by lia.
          rewrite <- Qmult_assoc, <- pow2_add.
          replace (ef - e1 + e1)%Z with ef by lia. reflexivity. }
        pose proof (round_on_grid 0 e e1 _ x Hle Egrid) as Hex.
        change (inject_Z 0) with 0 in Hex.
        assert (0 * pow2 e == x) by (apply Hex; lra). lra.
    + destruct (SFpack_finite (xorb ss false) m e ltac:(lia) (Hfin ltac:(lia)))
        as (p & Emp & Epack).
      assert (Eres : Prim2SF (s / int_to_float N) = S754_finite (xorb ss false) p e).
      { rewrite div_spec, Es, EN. unfold SF64div. rewrite Ediv. exact Epack. }
      destruct (float_value_finite _ _ _ _ Eres) as (c & Hc & Ec).
      rewrite xorb_false_r, <- Emp, cond_Zopp_value in Ec.
      set (V := inject_Z m * pow2 e) in *.
      exists c. split; [exact Hc |].
      split.
      * rewrite Habs. apply Qabs_Qle_condition.
        rewrite Ec, Eqn. destruct ss; split; lra.
      * intros f c' Hf Ec'.
        destruct (float_value_inv f c' Hf) as [(sf & Ef & Ec0) | (sf & mf & ef & Ef & Ecf)].
        { exfalso. rewrite Ec0 in Ec'. destruct ss; rewrite Eqn in Ec'; lra. }
        destruct (finite_bounds f sf mf ef Ef) as (Hcf & _ & Hmagf & _).
        assert (Exf : x == inject_Z (Z.pos mf) * pow2 ef).
        { rewrite Ecf, cond_Zopp_value, Eqn in Ec'.
          pose proof (inject_Z_pos_lt (Z.pos mf) ltac:(lia)).
          pose proof (pow2_pos ef).
          destruct sf, ss; nra. }
        assert (He1f : (e1 <= ef)%Z).
        { rewrite Hcf. apply Hmagx. fold x. rewrite Exf. exact Hmagf. }
        assert (Egrid : x == inject_Z (Z.pos mf * 2 ^ (ef - e1)) * pow2 e1).
        { rewrite Exf, inject_Z_mult, <- (pow2_inject (ef - e1)) by lia.
          rewrite <- Qmult_assoc, <- pow2_add.
          replace (ef - e1 + e1)%Z with ef by lia. reflexivity. }
        pose proof (round_on_grid m e e1 _ x Hle Egrid Hlo Hhi) as Hex.
        fold V in Hex. rewrite Ec, Eqn. destruct ss; lra.
Qed.

End Rounding.

(** * Properties of the page text and of the centre *)

(** ** Reading the page back *)

Lemma append_inj_l (a x y : string) : a +:+ x = a +:+ y -> x = y.
Proof.
  induction a as [|c a IH]; simpl; intros H; [exact H |].
  injection H as H. exact (IH H).
Qed.

Lemma string_tail_inj (c c' : Ascii.ascii) (x y : string) :
  String c x = String c' y -> x = y.
Proof. intros [= _ H]. exact H. Qed.

Lemma string_app_assoc (a b c : string) : (a +:+ b) +:+ c = a +:+ (b +:+ c).
Proof.
  induction a as [|x a IH]; [reflexivity |].
  change (String x ((a +:+ b) +:+ c) = String x (a +:+ (b +:+ c))).
  rewrite IH. reflexivity.
Qed.

(** Two texts free of closing characters, each followed by one, are equal
    when what they begin is. *)
Lemma split_at (P : Ascii.ascii -> bool) (u v : string) (d d' : Ascii.ascii)
  (x y : string) :
  free_of P u = true -> free_of P v = true -> P d = true -> P d' = true ->
  u +:+ String d x = v +:+ String d' y ->
  u = v /\ String d x = String d' y.
Proof.
  revert v. induction u as [|a u IH]; intros [|b v] Hu Hv Hd Hd' H; simpl in *.
  - split; [reflexivity | exact H].
  - injection H as -> _. rewrite Hd in Hv. discriminate Hv.
  - injection H as -> _. rewrite Hd' in Hu. discriminate Hu.
  - injection H as -> H.
    apply andb_prop in Hu as [_ Hu]. apply andb_prop in Hv as [_ Hv].
    destruct (IH v Hu Hv Hd Hd' H) as [-> E]. split; [reflexivity | exact E].
Qed.

Lemma free_of_app (P : Ascii.ascii -> bool) (a b : string) :
  free_of P (a +:+ b) = free_of P a && free_of P b.
Proof.
  induction a as [|c a IH]; [reflexivity |].
  simpl. rewrite IH, andb_assoc. reflexivity.
Qed.

(** The template goes on with a closing bracket after the centre. *)
Lemma page_map_closes :
  exists rest, page_map = String (Ascii.ascii_of_nat 93) rest.
Proof. eexists. vm_compute. reflexivity. Qed.

Section PageText.

Variable float_repr : float -> string.
Variable str_repr : string -> string.
Hypothesis readable : readable_reprs float_repr str_repr.

Local Abbreviation record_text := (place_repr float_repr str_repr).
Local Abbreviation array_text := (places_repr float_repr str_repr).
Local Abbreviation array_tail := (array_rest float_repr str_repr).
Local Abbreviation page_text := (maps_html_content float_repr str_repr).

Lemma float_repr_closed (a b : float) (d d' : Ascii.ascii) (x y : string) :
  closes_number d = true -> closes_number d' = true ->
  float_repr a +:+ String d x = float_repr b +:+ String d' y ->
  a = b /\ String d x = String d' y.
Proof.
  intros Hd Hd' H.
  destruct (split_at closes_number _ _ d d' x y
              (float_repr_plain _ _ readable a) (float_repr_plain _ _ readable b)
              Hd Hd' H) as [E1 E2].
  split; [exact (float_repr_injective _ _ readable a b E1) | exact E2].
Qed.

Lemma float_repr_comma (a b : float) (x y : string) :
  float_repr a +:+ "," +:+ x = float_repr b +:+ "," +:+ y -> a = b /\ x = y.
Proof.
  intros H.
  apply (float_repr_closed a b (Ascii.ascii_of_nat 44) (Ascii.ascii_of_nat 44) x y)
    in H as [E H]; [| reflexivity | reflexivity].
  split; [exact E | injection H as H; exact H].
Qed.

Lemma place_repr_app (p : place) (x : string) :
  record_text p +:+ x
  = "{'name': " +:+ str_repr (name p) +:+ ", 'lat': " +:+ float_repr (lat p)
    +:+ ", 'lon': " +:+ float_repr (lon p) +:+ ", 'image': "
    +:+ str_repr (image p) +:+ "}" +:+ x.
Proof.
  unfold place_repr.
  change (String.concat "" ?l) with
    ("{'name': " +:+ str_repr (name p) +:+ ", 'lat': " +:+ float_repr (lat p)
     +:+ ", 'lon': " +:+ float_repr (lon p) +:+ ", 'image': "
     +:+ str_repr (image p) +:+ "}").
  rewrite !string_app_assoc. reflexivity.
Qed.

(** The text of a record ends where it ends, and gives the record back. *)
Lemma place_repr_delimited (p q : place) (x y : string) :
  record_text p +:+ x = record_text q +:+ y -> p = q /\ x = y.
Proof.
  rewrite !place_repr_app. intros H.
  apply append_inj_l in H.
  apply (str_repr_delimited _ _ readable) in H as [Hname H].
  change (", 'lat': " +:+ ?a = ", 'lat': " +:+ ?b)
    with ("," +:+ " 'lat': " +:+ a = "," +:+ " 'lat': " +:+ b) in H.
  apply append_inj_l, append_inj_l in H.
  change (", 'lon': " +:+ ?z) with ("," +:+ " 'lon': " +:+ z) in H.
  apply float_repr_comma in H as [Hlat H].
  apply append_inj_l in H.
  change (", 'image': " +:+ ?z) with ("," +:+ " 'image': " +:+ z) in H.
  apply float_repr_comma in H as [Hlon H].
  apply append_inj_l in H.
  apply (str_repr_delimited _ _ readable) in H as [Himage H].
  apply append_inj_l in H.
  split; [| exact H].
  destruct p, q; simpl in *; congruence.
Qed.

Lemma places_repr_cons (p : place) (places_data : list place) (x : string) :
  array_text (p :: places_data) +:+ x
  = "[" +:+ record_text p +:+ array_tail places_data +:+ x.
Proof.
  unfold places_repr.
  change (String.concat "" ["["; ?t; "]"]) with ("[" +:+ t +:+ "]").
  rewrite !string_app_assoc. f_equal.
  revert p. induction places_data as [|q rest IH]; intros p; [reflexivity |].
  change (String.concat ", " (map record_text (p :: q :: rest)))
    with (record_text p +:+ ", " +:+ String.concat ", " (map record_text (q :: rest))).
  rewrite !string_app_assoc, IH.
  change (array_tail (q :: rest)) with (", " +:+ record_text q +:+ array_tail rest).
  rewrite !string_app_assoc. reflexivity.
Qed.

Lemma array_rest_delimited (ps qs : list place) (x y : string) :
  array_tail ps +:+ x = array_tail qs +:+ y -> ps = qs /\ x = y.
Proof.
  revert qs. induction ps as [|p ps IH]; intros [|q qs] H.
  - injection H as H. split; [reflexivity | exact H].
  - discriminate H.
  - discriminate H.
  - change (array_tail (?r :: ?rs) +:+ ?z)
      with (", " +:+ (record_text r +:+ array_tail rs) +:+ z) in H.
    apply append_inj_l in H. rewrite !string_app_assoc in H.
    apply place_repr_delimited in H as [-> H].
    apply IH in H as [-> H]. split; [reflexivity | exact H].
Qed.

(** The text of the array ends where it ends, and gives the records back,
    as many as they are and in their order. *)
Lemma places_repr_delimited (ps qs : list place) (x y : string) :
  array_text ps +:+ x = array_text qs +:+ y -> ps = qs /\ x = y.
Proof.
  destruct ps as [|p ps], qs as [|q qs].
  - intros H. injection H as H. split; [reflexivity | exact H].
  - rewrite places_repr_cons, place_repr_app. discriminate.
  - rewrite places_repr_cons, place_repr_app. discriminate.
  - rewrite !places_repr_cons. intros H.
    apply append_inj_l in H.
    apply place_repr_delimited in H as [-> H].
    apply array_rest_delimited in H as [-> H]. split; [reflexivity | exact H].
Qed.

Lemma maps_html_content_app (center : float * float) (places_data : list place) :
  page_text center places_data
  = page_head +:+ float_repr center.1 +:+ "," +:+ " " +:+ float_repr center.2
    +:+ page_map +:+ array_text places_data +:+ page_tail.
Proof. reflexivity. Qed.

(** The page gives back the centre it shows and the records it embeds. *)
Lemma maps_html_content_inj (center center' : float * float)
  (places_data places_data' : list place) :
  page_text center places_data = page_text center' places_data' ->
  center = center' /\ places_data = places_data'.
Proof.
  destruct page_map_closes as [rest Hmap].
  rewrite !maps_html_content_app, Hmap. intros H.
  apply append_inj_l in H.
  apply float_repr_comma in H as [E1 H].
  apply append_inj_l in H.
  apply (float_repr_closed _ _ (Ascii.ascii_of_nat 93) (Ascii.ascii_of_nat 93))
    in H as [E2 H]; [| reflexivity | reflexivity].
  apply string_tail_inj, append_inj_l in H.
  apply places_repr_delimited in H as [E3 _].
  split; [| exact E3].
  destruct center, center'; simpl in *; congruence.
Qed.

End PageText.

(** ** The centre and the means *)

Lemma has_value_unique (f : float) (q q' : Q) :
  has_value f q -> has_value f q' -> (q == q')%Q.
Proof.
  intros (a & Ha & Ea) (b & Hb & Eb). rewrite Ha in Hb. injection Hb as <-.
  rewrite <- Ea, <- Eb. reflexivity.
Qed.

Lemma has_value_proper (f : float) (q q' : Q) :
  (q == q')%Q -> has_value f q -> has_value f q'.
Proof.
  intros E (a & Ha & Ea). exists a. split; [exact Ha |].
  rewrite Ea. exact E.
Qed.

(** [len(xs)] as a float is the processor's conversion of the integer. *)
Lemma float_of_nat_int (n : nat) :
  (Z.of_nat n < 2 ^ 63)%Z -> float_of_nat n = int_to_float n.
Proof.
  intros Hn. unfold float_of_nat, int_to_float.
  rewrite <- (SF2Prim_Prim2SF (of_uint63 _)), of_uint63_spec, Uint63.of_Z_spec.
  rewrite Z.mod_small; [reflexivity |].
  split; [lia | exact Hn].
Qed.

Section CentreFacts.

Local Open Scope Q_scope.

(** The quotient of what [sum] returned by the number of values is the
    mean of the values up to rounding. *)
Lemma quotient_approximates_mean (s : float) (N : nat) (qs : list Q) (s_q : Q) :
  (0 < N)%nat -> (Z.of_nat N < 2 ^ 53)%Z -> length qs = N ->
  has_value s s_q ->
  exists c, has_value (s / float_of_nat N)%float c /\ approximates_mean c s_q qs.
Proof.
  intros Hpos Hlt Hlen (q' & Hq' & Eq').
  destruct (div_by_count s N q' Hpos Hlt Hq') as (c & Hc & Hbound & Hexact).
  exists c. split.
  { exists c. split; [| reflexivity].
    rewrite float_of_nat_int; [exact Hc |].
    apply Z.lt_trans with (2 ^ 53)%Z; [exact Hlt | reflexivity]. }
  unfold approximates_mean, exact_mean, rounding_error. rewrite Hlen.
  set (n := inject_Z (Z.of_nat N)) in *.
  assert (Hn : 0 < n).
  { unfold n. change 0 with (inject_Z 0). rewrite <- Zlt_Qlt. lia. }
  assert (Ht : 0 < / n) by (apply Qinv_lt_0_compat, Hn).
  rewrite Eq' in Hbound.
  split.
  - set (R := Qabs (s_q / n) * pow2 (-53) + pow2 (-1075)) in *.
    apply Qabs_Qle_condition in Hbound as [Hlo Hhi].
    pose proof (proj1 (Qabs_Qle_condition (s_q - exact_sum qs)
                         (Qabs (s_q - exact_sum qs))) (Qle_refl _)) as [Dlo Dhi].
    set (d := Qabs (s_q - exact_sum qs)) in *.
    apply Qabs_Qle_condition.
    unfold Qdiv in *. set (t := / n) in *.
    split; nra.
  - intros Es (f & c' & Hf & Ec').
    rewrite <- Es, <- Eq'. apply (Hexact f c' Hf).
    rewrite Ec', <- Es, Eq'. reflexivity.
Qed.

End CentreFacts.

(** The centre of a non-empty list of records lies on the two means, up
    to rounding. *)
Lemma map_center_centred (py_sum : list float -> float) (places_data : list place) :
  places_data <> [] ->
  (Z.of_nat (length places_data) < 2 ^ 53)%Z ->
  centred_on_means py_sum places_data (map_center py_sum places_data).
Proof.
  intros Hsome Hlen lats lons s_lat s_lon Vlat Vlon Slat Slon.
  destruct places_data as [|p places_data]; [destruct (Hsome eq_refl) |].
  apply Forall2_length in Vlat, Vlon. rewrite length_map in Vlat, Vlon.
  destruct (quotient_approximates_mean _ (length (p :: places_data)) lats s_lat
              ltac:(simpl; lia) Hlen (eq_sym Vlat) Slat) as (c_lat & Hc_lat & Hm_lat).
  destruct (quotient_approximates_mean _ (length (p :: places_data)) lons s_lon
              ltac:(simpl; lia) Hlen (eq_sym Vlon) Slon) as (c_lon & Hc_lon & Hm_lon).
  exists c_lat, c_lon. unfold map_center, fst, snd.
  split; [exact Hc_lat |]. split; [exact Hc_lon |].
  split; [exact Hm_lat | exact Hm_lon].
Qed.

(** ** Means that are no binary64 number *)

Lemma pow2_mod3 (k : Z) :
  (0 <= k)%Z -> ((2 ^ k) mod 3 = 1 \/ (2 ^ k) mod 3 = 2)%Z.
Proof.
  revert k. apply natlike_ind; [left; reflexivity |].
  intros k Hk IH. rewrite Z.pow_succ_r by exact Hk.
  rewrite Z.mul_mod by lia.
  destruct IH as [-> | ->]; [right | left]; reflexivity.
Qed.

(** The value of a float is an integer over a power of two. *)
Lemma float_value_dyadic (f : float) (q : Q) :
  float_value f = Some q ->
  exists n k, (0 <= k)%Z /\ (q == n # Z.to_pos (2 ^ k))%Q.
Proof.
  unfold float_value, float_exact.
  destruct (Prim2SF f) as [s|s| |s m e]; try discriminate.
  - intros [= <-]. exists 0%Z, 0%Z. split; [lia | reflexivity].
  - destruct (0 <=? e)%Z eqn:He; intros [= <-].
    + exists (cond_Zopp s (Z.pos m) * 2 ^ e)%Z, 0%Z. split; [lia | reflexivity].
    + exists (cond_Zopp s (Z.pos m)), (- e)%Z.
      apply Z.leb_gt in He. split; [lia | reflexivity].
Qed.

(** No float has the value of a third of an integer that 3 does not
    divide. *)
Lemma no_float_third (m : Z) (f : float) :
  (m mod 3 <> 0)%Z -> ~ has_value f (m # 3).
Proof.
  intros Hm (q & Hq & E).
  apply float_value_dyadic in Hq as (n & k & Hk & Eq).
  rewrite Eq in E. unfold Qeq in E. simpl in E.
  rewrite Z2Pos.id in E by (apply Z.pow_pos_nonneg; lia).
  assert (H : ((m * 2 ^ k) mod 3 = 0)%Z).
  { rewrite <- E. apply Z.mod_mul. lia. }
  rewrite Z.mul_mod in H by lia.
  assert (Hr : (0 <= m mod 3 < 3)%Z) by (apply Z.mod_pos_bound; lia).
  destruct (pow2_mod3 k Hk) as [Hp | Hp]; rewrite Hp in H;
    assert (Hc : (m mod 3 = 1 \/ m mod 3 = 2)%Z) by lia;
    destruct Hc as [Hc | Hc]; rewrite Hc in H; discriminate H.
Qed.

(** * Properties of the reader and of the page builder *)

Section ProgramFacts.

Variables TAGS GPSTAGS : Z -> option string.
Variable basename : string -> string.
Variable float_repr : float -> string.
Variable str_repr : string -> string.
Variable py_sum : list float -> float.

Local Abbreviation reader := (get_exif_data TAGS GPSTAGS).
Local Abbreviation tags_loop := (decode_tags TAGS GPSTAGS).
Local Abbreviation gps_loop := (decode_gps GPSTAGS).
Local Abbreviation files_loop := (collect_places TAGS GPSTAGS basename).
Local Abbreviation page := (maps_html_content float_repr str_repr).
Local Abbreviation builder :=
  (generate_maps_html TAGS GPSTAGS basename float_repr str_repr py_sum).
Local Abbreviation failed := (read_failure TAGS GPSTAGS).
Local Abbreviation placed := (resolved_place TAGS GPSTAGS basename).
Local Abbreviation returns := (resolver_returns TAGS GPSTAGS).
Local Abbreviation resolved := (resolved_places TAGS GPSTAGS basename).
Local Abbreviation kept := (included TAGS GPSTAGS basename).
Local Abbreviation centre := (map_center py_sum).

(** ** The reader *)

Lemma decode_tags_app (before after : list (Z * pyval)) (exif_data : dict) :
  tags_loop (before ++ after) exif_data =
  match tags_loop before exif_data with
  | (exif_data', None) => tags_loop after exif_data'
  | (exif_data', Some e) => (exif_data', Some e)
  end.
Proof.
  revert exif_data. induction before as [|[tag value] before IH]; intros exif_data.
  - reflexivity.
  - simpl. destruct (decide _).
    + destruct (gps_loop value); [apply IH | reflexivity].
    + apply IH.
Qed.

(** C6, as amended: a failed read is logged and not raised; the reader
    returns the empty mapping when the library fails to open or read the
    file, and the tags stored so far when decoding the GPS block fails. *)
Theorem reader_failure_logged (w : world) (image_path : string)
  (e : exn) (partial : dict) :
  failed w image_path e partial ->
  reader w image_path = (partial, [ErrorReadingExif image_path e]) /\
  (w image_path = Raise e -> partial = []).
Proof.
  intros [e' Hw | before after tag value partial' e' Hw Hbefore Htag Hgps].
  - unfold get_exif_data. rewrite Hw. split; reflexivity.
  - split; [| rewrite Hw; discriminate].
    unfold get_exif_data. rewrite Hw.
    assert (Hdec : tags_loop (before ++ (tag, value) :: after) [] = (partial', Some e')).
    { rewrite decode_tags_app, Hbefore. simpl. rewrite Htag.
      destruct (decide _); [| congruence]. rewrite Hgps. reflexivity. }
    rewrite Hdec. destruct (before ++ (tag, value) :: after) eqn:Happ; [| reflexivity].
    destruct before; discriminate.
Qed.

(** Without a failure nothing is logged. *)
Lemma reader_log_is_failure (w : world) (image_path : string) :
  (reader w image_path).2 = [] \/
  exists e, (reader w image_path).2 = [ErrorReadingExif image_path e].
Proof.
  unfold get_exif_data.
  destruct (w image_path) as [[[|item items]|]|e].
  - left; reflexivity.
  - destruct (tags_loop (item :: items) []) as [exif_data [e|]];
      [right; eexists | left]; reflexivity.
  - left; reflexivity.
  - right; eexists; reflexivity.
Qed.

Lemma decode_tags_failure (items : list (Z * pyval)) (exif_data partial : dict)
  (e : exn) :
  tags_loop items exif_data = (partial, Some e) ->
  exists before tag value after,
    items = before ++ (tag, value) :: after /\
    tags_loop before exif_data = (partial, None) /\
    tag_decode TAGS tag = KStr "GPSInfo" /\
    gps_loop value = Raise e.
Proof.
  revert exif_data.
  induction items as [|[tag value] items IH]; intros exif_data Hrun;
    [discriminate Hrun |].
  simpl in Hrun. destruct (decide (tag_decode TAGS tag = KStr "GPSInfo")) as [Heq | Hne].
  - destruct (gps_loop value) as [gps_data|e'] eqn:Hgps.
    + destruct (IH _ Hrun) as (before & tag' & value' & after & -> & Hb & Ht & Hv).
      exists ((tag, value) :: before), tag', value', after.
      repeat split; [| exact Ht | exact Hv].
      simpl. destruct (decide _); [| congruence]. rewrite Hgps. exact Hb.
    + injection Hrun as <- <-. exists [], tag, value, items.
      repeat split; [exact Heq | exact Hgps].
  - destruct (IH _ Hrun) as (before & tag' & value' & after & -> & Hb & Ht & Hv).
    exists ((tag, value) :: before), tag', value', after.
    repeat split; [| exact Ht | exact Hv].
    simpl. destruct (decide _); [congruence | exact Hb].
Qed.

(** X11: an error line is printed for a file only when the library
    raised on it or its GPS block could not be decoded, and the mapping
    returned is then the one that [read_failure] names. *)
Lemma reader_error_is_failure (w : world) (image_path : string)
  (partial : dict) (e : exn) :
  reader w image_path = (partial, [ErrorReadingExif image_path e]) ->
  failed w image_path e partial.
Proof.
  unfold get_exif_data.
  destruct (w image_path) as [[[|item items]|]|e'] eqn:Hw; try discriminate.
  - destruct (tags_loop (item :: items) []) as [exif_data [e'|]] eqn:Hrun;
      [| discriminate].
    intros [= <- <-].
    destruct (decode_tags_failure _ _ _ _ Hrun)
      as (before & tag & value & after & Hitems & Hb & Ht & Hv).
    rewrite Hitems in Hw. exact (failure_decode _ _ _ _ _ _ _ _ _ _ Hw Hb Ht Hv).
  - intros [= <- <-]. apply failure_open. exact Hw.
Qed.

Lemma decode_tags_gps_block (items : list (Z * pyval)) (exif_data : dict) :
  gps_block_is_dict exif_data ->
  gps_block_is_dict (tags_loop items exif_data).1.
Proof.
  revert exif_data.
  induction items as [|[tag value] items IH]; intros exif_data Hinv; [exact Hinv |].
  simpl. destruct (decide _) as [Heq | Hne].
  - destruct (gps_loop value) as [gps_data|e]; [| exact Hinv].
    apply IH. intros v. rewrite Heq, dict_lookup_set_eq.
    intros [= <-]. eexists. reflexivity.
  - apply IH. intros v. rewrite dict_lookup_set_ne by exact Hne. apply Hinv.
Qed.

Lemma reader_gps_block (w : world) (image_path : string) :
  gps_block_is_dict (reader w image_path).1.
Proof.
  assert (Hnil : gps_block_is_dict []) by (intros v; discriminate).
  unfold get_exif_data.
  destruct (w image_path) as [[[|item items]|]|e]; try exact Hnil.
  pose proof (decode_tags_gps_block (item :: items) [] Hnil) as H.
  destruct (tags_loop (item :: items) []) as [exif_data [e|]]; exact H.
Qed.

(** ** The page builder *)

Lemma reader_logs_no_warning (w : world) (image_path f : string) :
  WarningNoGps f ∉ (reader w image_path).2.
Proof.
  destruct (reader_log_is_failure w image_path) as [-> | [e ->]].
  - apply not_elem_of_nil.
  - intros H. apply list_elem_of_singleton in H. discriminate H.
Qed.

Lemma collect_places_step (w : world) (img_file : string) (rest : list string)
  (places_data : list place) :
  files_loop w (img_file :: rest) places_data =
  match get_gps_coordinates (reader w img_file).1 with
  | Raise e => ((reader w img_file).2, Raise e)
  | Ok r =>
      match placed w img_file with
      | Some p =>
          ((reader w img_file).2 ++ (files_loop w rest (places_data ++ [p])).1,
           (files_loop w rest (places_data ++ [p])).2)
      | None =>
          ((reader w img_file).2
             ++ WarningNoGps img_file :: (files_loop w rest places_data).1,
           (files_loop w rest places_data).2)
      end
  end.
Proof.
  simpl. unfold resolved_place.
  destruct (reader w img_file) as [exif out]. simpl.
  destruct (get_gps_coordinates exif) as [[[la|] [lo|]]|e]; try reflexivity.
  - destruct (files_loop w rest _); reflexivity.
  - destruct (files_loop w rest _); reflexivity.
  - destruct (files_loop w rest _); reflexivity.
  - destruct (files_loop w rest _); reflexivity.
Qed.

Lemma collect_places_returns (w : world) (image_files : list string)
  (places_data : list place) :
  (forall f, f ∈ image_files -> returns w f) ->
  exists out,
    files_loop w image_files places_data
    = (out, Ok (places_data ++ omap (placed w) image_files)) /\
    forall f, WarningNoGps f ∈ out <->
              f ∈ image_files /\ placed w f = None.
Proof.
  revert places_data.
  induction image_files as [|img_file rest IH]; intros places_data Hret.
  - exists []. simpl. rewrite app_nil_r. split; [reflexivity |].
    intros f. split; [intros H | intros [H _]]; apply elem_of_nil in H; destruct H.
  - assert (Hrest : forall f, f ∈ rest -> returns w f).
    { intros f Hf. apply Hret. apply list_elem_of_further, Hf. }
    destruct (Hret img_file (list_elem_of_here _ _)) as [r Hr].
    pose proof (reader_logs_no_warning w img_file) as Hlog.
    rewrite collect_places_step, Hr. simpl omap.
    destruct (placed w img_file) as [p|] eqn:Hp.
    + destruct (IH (places_data ++ [p]) Hrest) as (out & Heq & Hwarn).
      rewrite Heq. simpl. exists ((reader w img_file).2 ++ out).
      split; [rewrite <- app_assoc; reflexivity |].
      intros f. rewrite elem_of_app, Hwarn, elem_of_cons.
      split.
      * intros [H | [H1 H2]]; [destruct (Hlog _ H) | auto].
      * intros [[-> | H1] H2]; [congruence | auto].
    + destruct (IH places_data Hrest) as (out & Heq & Hwarn).
      rewrite Heq. simpl. exists ((reader w img_file).2 ++ WarningNoGps img_file :: out).
      split; [reflexivity |].
      intros f. rewrite elem_of_app, !elem_of_cons, Hwarn.
      split.
      * intros [H | [[= ->] | [H1 H2]]]; [destruct (Hlog _ H) | auto | auto].
      * intros [[-> | H1] H2]; auto.
Qed.


Lemma resolved_places_included (w : world) (image_files : list string) :
  resolved w (kept w image_files) = resolved w image_files.
Proof.
  unfold resolved_places, included.
  induction image_files as [|f rest IH]; [reflexivity |].
  simpl. destruct (placed w f) as [p|] eqn:Hp; simpl; rewrite ?Hp;
    [f_equal |]; exact IH.
Qed.

Lemma included_subset (w : world) (image_files : list string) (f : string) :
  f ∈ kept w image_files -> f ∈ image_files.
Proof.
  unfold included. intros Hf. apply list_elem_of_In in Hf.
  apply List.filter_In in Hf as [Hf _]. apply list_elem_of_In, Hf.
Qed.


Lemma collect_places_returned (w : world) (image_files : list string)
  (places_data result : list place) (out : list event) :
  files_loop w image_files places_data = (out, Ok result) ->
  forall f, f ∈ image_files -> returns w f.
Proof.
  revert places_data out.
  induction image_files as [|img_file rest IH]; intros places_data out Hrun f Hf.
  - apply elem_of_nil in Hf. destruct Hf.
  - rewrite collect_places_step in Hrun.
    destruct (get_gps_coordinates (reader w img_file).1) as [r|e] eqn:Hr;
      [| discriminate Hrun].
    apply elem_of_cons in Hf. destruct Hf as [-> | Hf]; [exists r; exact Hr |].
    destruct (placed w img_file) as [p|]; injection Hrun as _ Hrest;
      refine (IH _ _ _ f Hf); rewrite <- Hrest; apply surjective_pairing.
Qed.

(** X14: a page is produced exactly when the resolver returns on every
    file of the sequence. *)
Lemma builder_returns_iff (w : world) (image_files : list string) :
  (exists out doc, builder w image_files = (out, Ok doc)) <->
  (forall f, f ∈ image_files -> returns w f).
Proof.
  unfold generate_maps_html. split.
  - intros (out & doc & Hrun).
    destruct (files_loop w image_files []) as [out' [result|e]] eqn:Hloop;
      [| discriminate Hrun].
    exact (collect_places_returned w image_files [] result out' Hloop).
  - intros Hret.
    destruct (collect_places_returns w image_files [] Hret) as (out & -> & _).
    eexists _, _. reflexivity.
Qed.

(** A resolver exception ends the run: no page is produced. *)
Lemma builder_raises (w : world) (before after : list string) (f : string)
  (e : exn) :
  (forall g, g ∈ before -> returns w g) ->
  get_gps_coordinates (reader w f).1 = Raise e ->
  exists out, builder w (before ++ f :: after) = (out, Raise e).
Proof.
  intros Hret Hf. unfold generate_maps_html.
  enough (H : forall places_data, exists out,
               files_loop w (before ++ f :: after) places_data = (out, Raise e)).
  { destruct (H []) as [out ->]. exists out. reflexivity. }
  induction before as [|g before IH]; intros places_data.
  - simpl app. rewrite collect_places_step, Hf. eexists. reflexivity.
  - assert (Hrest : forall g', g' ∈ before -> returns w g').
    { intros g' Hg'. apply Hret, list_elem_of_further, Hg'. }
    destruct (Hret g (list_elem_of_here _ _)) as [r Hr].
    simpl app. rewrite collect_places_step, Hr.
    destruct (placed w g) as [p|].
    + destruct (IH Hrest (places_data ++ [p])) as [out ->]. eexists. reflexivity.
    + destruct (IH Hrest places_data) as [out ->]. eexists. reflexivity.
Qed.

(** ** Determinism *)

Lemma reader_ext (w1 w2 : world) (image_path : string) :
  w1 image_path = w2 image_path -> reader w1 image_path = reader w2 image_path.
Proof. intros H. unfold get_exif_data. rewrite H. reflexivity. Qed.

Lemma collect_places_ext (w1 w2 : world) (image_files : list string)
  (places_data : list place) :
  (forall f, f ∈ image_files -> w1 f = w2 f) ->
  files_loop w1 image_files places_data = files_loop w2 image_files places_data.
Proof.
  revert places_data.
  induction image_files as [|img_file rest IH]; intros places_data Hagree;
    [reflexivity |].
  assert (Hrest : forall f, f ∈ rest -> w1 f = w2 f).
  { intros f Hf. apply Hagree, list_elem_of_further, Hf. }
  rewrite !collect_places_step. unfold resolved_place.
  rewrite (reader_ext w1 w2 img_file (Hagree _ (list_elem_of_here _ _))).
  destruct (get_gps_coordinates (reader w2 img_file).1) as [[[la|] [lo|]]|e];
    rewrite ?(IH _ Hrest); reflexivity.
Qed.

(** C9: two runs over the same file sequence, in which the library yields
    the same metadata for each listed file, produce the same document and
    the same printed lines. *)
Theorem builder_deterministic (w1 w2 : world) (image_files : list string) :
  (forall f, f ∈ image_files -> w1 f = w2 f) ->
  builder w1 image_files = builder w2 image_files.
Proof.
  intros Hagree. unfold generate_maps_html.
  rewrite (collect_places_ext w1 w2 image_files [] Hagree). reflexivity.
Qed.

End ProgramFacts.

(** * A sample run *)

(** ** The stand-ins for [repr] can be read back *)

Lemma quoted_tail_delimited (a b x y : string) :
  quoted_tail a +:+ x = quoted_tail b +:+ y -> a = b /\ x = y.
Proof.
  revert b. induction a as [|c a IH]; intros [|c' b] H.
  - injection H as H. split; [reflexivity | exact H].
  - simpl in H. destruct (needs_escape c') eqn:E; [discriminate H |].
    injection H as Hc _. subst c'. discriminate E.
  - simpl in H. destruct (needs_escape c) eqn:E; [discriminate H |].
    injection H as Hc _. subst c. discriminate E.
  - simpl in H.
    destruct (needs_escape c) eqn:E, (needs_escape c') eqn:E'.
    + injection H as -> H. destruct (IH _ H) as [-> ->]. split; reflexivity.
    + injection H as Hc _. subst c'. discriminate E'.
    + injection H as Hc _. subst c. discriminate E.
    + injection H as -> H. destruct (IH _ H) as [-> ->]. split; reflexivity.
Qed.

Lemma quoted_repr_delimited (a b x y : string) :
  quoted_repr a +:+ x = quoted_repr b +:+ y -> a = b /\ x = y.
Proof.
  unfold quoted_repr. intros H. apply string_tail_inj in H.
  exact (quoted_tail_delimited a b x y H).
Qed.

Lemma bits_free (P : Ascii.ascii -> bool) (p : positive) :
  P (Ascii.ascii_of_nat 48) = false -> P (Ascii.ascii_of_nat 49) = false ->
  free_of P (bits p) = true.
Proof.
  intros H0 H1. induction p as [p IH|p IH|].
  - change (negb (P (Ascii.ascii_of_nat 49)) && free_of P (bits p) = true).
    rewrite H1, IH. reflexivity.
  - change (negb (P (Ascii.ascii_of_nat 48)) && free_of P (bits p) = true).
    rewrite H0, IH. reflexivity.
  - change (negb (P (Ascii.ascii_of_nat 49)) && true = true).
    rewrite H1. reflexivity.
Qed.

Lemma bits_inj (p q : positive) : bits p = bits q -> p = q.
Proof.
  revert q. induction p as [p IH|p IH|]; intros [q|q|] H;
    try discriminate H; try reflexivity.
  - simpl in H. apply string_tail_inj in H. f_equal. exact (IH q H).
  - simpl in H. injection H as H. destruct p; discriminate H.
  - simpl in H. apply string_tail_inj in H. f_equal. exact (IH q H).
  - simpl in H. injection H as H. destruct q; discriminate H.
Qed.

Lemma Z_bits_inj (a b : Z) : Z_bits a = Z_bits b -> a = b.
Proof.
  destruct a, b; simpl; intros H; try discriminate H; try reflexivity;
    apply string_tail_inj, bits_inj in H; congruence.
Qed.

Lemma binary_float_repr_plain (f : float) :
  free_of closes_number (binary_float_repr f) = true.
Proof.
  unfold binary_float_repr.
  destruct (Prim2SF f) as [[|]|[|]| |s m e]; try reflexivity.
  rewrite !free_of_app, (bits_free closes_number m eq_refl eq_refl).
  destruct s, e as [|p|p]; try reflexivity;
    change (true && (true && (true && free_of closes_number (bits p))) = true);
    rewrite (bits_free closes_number p eq_refl eq_refl); reflexivity.
Qed.

Lemma binary_float_repr_inj (a b : float) :
  binary_float_repr a = binary_float_repr b -> a = b.
Proof.
  unfold binary_float_repr. intros H. apply Prim2SF_inj.
  destruct (Prim2SF a) as [[|]|[|]| |s m e], (Prim2SF b) as [[|]|[|]| |s' m' e'];
    try reflexivity; try discriminate H;
    try (destruct s; discriminate H); try (destruct s'; discriminate H).
  assert (Hs : s = s') by (destruct s, s'; (reflexivity || discriminate H)).
  subst s'.
  assert (H' : bits m +:+ "p" +:+ Z_bits e = bits m' +:+ "p" +:+ Z_bits e').
  { destruct s; apply string_tail_inj, string_tail_inj in H; exact H. }
  apply (split_at is_p) in H' as [Hm He];
    try reflexivity; try (apply bits_free; reflexivity).
  apply bits_inj in Hm. apply string_tail_inj, Z_bits_inj in He.
  subst. reflexivity.
Qed.

Lemma sample_reprs_readable : readable_reprs binary_float_repr quoted_repr.
Proof.
  split.
  - exact quoted_repr_delimited.
  - exact binary_float_repr_inj.
  - exact binary_float_repr_plain.
Qed.

(** ** The centre and the page of the sample run *)

Ltac exact_value :=
  eexists; split; [vm_compute; reflexivity | vm_compute; reflexivity].

(** The two interpreters' sums differ on 0.1, 0.2, 0.3, and agree on the
    sample records. *)
Example sample_sums :
  plain_sum [0x1.999999999999ap-4; 0x1.999999999999ap-3; 0x1.3333333333333p-2]%float
  = 0x1.3333333333334p-1%float /\
  compensated_sum [0x1.999999999999ap-4; 0x1.999999999999ap-3; 0x1.3333333333333p-2]%float
  = 0x1.3333333333333p-1%float /\
  plain_sum (map lat sample_places) = 83%float /\
  compensated_sum (map lat sample_places) = 83%float.
Proof. repeat split; vm_compute; reflexivity. Qed.



Lemma sample_files_resolve (f : string) :
  f ∈ sample_files ->
  resolver_returns pillow_TAGS pillow_GPSTAGS sample_world f.
Proof.
  intros Hf. unfold sample_files in Hf.
  elem_cases Hf; eexists; vm_compute; reflexivity.
Defined.

Lemma sample_worlds_agree (f : string) :
  f ∈ sample_files -> sample_world f = other_world f.
Proof.
  intros Hf. unfold sample_files in Hf.
  elem_cases Hf; reflexivity.
Defined.

(** The reader on the four sample files and on a missing one. *)
Example sample_reader :
  get_exif_data pillow_TAGS pillow_GPSTAGS sample_world "/photos/a.jpg"
  = ([(KStr "Make", PyStr "Canon");
      (KStr "GPSInfo",
       PyDict [(KStr "GPSLatitudeRef", PyStr "N");
               (KStr "GPSLatitude", dms_rationals (40, 1) (26, 1) (46, 1));
               (KStr "GPSLongitudeRef", PyStr "W");
               (KStr "GPSLongitude", dms_rationals (79, 1) (56, 1) (55, 1))])],
     [])%Z
  /\ get_exif_data pillow_TAGS pillow_GPSTAGS sample_world "/photos/c.jpg" = ([], [])
  /\ get_exif_data pillow_TAGS pillow_GPSTAGS sample_world "/photos/none.jpg"
     = ([], [ErrorReadingExif "/photos/none.jpg" (OtherError "FileNotFoundError")]).
Proof. repeat split; vm_compute; reflexivity. Qed.

Lemma reader_failure_logged_witness :
  (get_exif_data pillow_TAGS pillow_GPSTAGS sample_world "/photos/broken.jpg"
   = ([(KStr "Make", PyStr "Canon")],
      [ErrorReadingExif "/photos/broken.jpg" TypeError])
   /\ (sample_world "/photos/broken.jpg" = Raise TypeError ->
       [(KStr "Make", PyStr "Canon")] = [])).
Proof.
  apply (reader_failure_logged pillow_TAGS pillow_GPSTAGS sample_world
           "/photos/broken.jpg" TypeError [(KStr "Make", PyStr "Canon")]).
  apply (failure_decode pillow_TAGS pillow_GPSTAGS sample_world "/photos/broken.jpg"
           [(271, PyStr "Canon")] [(272, PyStr "EOS")] 34853 PyNone)%Z;
    reflexivity.
Defined.

(** C6, as stated, fails: the GPS block of this file cannot be decoded, and
    the reader returns the tag it had already stored. *)
Lemma reader_returns_partial_mapping :
  sample_world "/photos/broken.jpg"
  = Ok (Some [(271, PyStr "Canon"); (34853, PyNone); (272, PyStr "EOS")])%Z
  /\ decode_gps pillow_GPSTAGS PyNone = Raise TypeError
  /\ get_exif_data pillow_TAGS pillow_GPSTAGS sample_world "/photos/broken.jpg"
     = ([(KStr "Make", PyStr "Canon")],
        [ErrorReadingExif "/photos/broken.jpg" TypeError]).
Proof. repeat split; vm_compute; reflexivity. Qed.

(** The loop over the three sample files: two records, one warning. *)
Example sample_collect :
  collect_places pillow_TAGS pillow_GPSTAGS posix_basename sample_world sample_files []
  = ([WarningNoGps "/photos/c.jpg"],
     Ok [ {| name := "a.jpg"; lat := scenario_lat; lon := scenario_lon;
             image := "a.jpg" |};
          {| name := "b.jpg"; lat := 42.5; lon := (-80.25); image := "b.jpg" |} ])
  /\ map_center plain_sum
       [ {| name := "a.jpg"; lat := 40.5; lon := (-79.75); image := "a.jpg" |};
         {| name := "b.jpg"; lat := 42.5; lon := (-80.25); image := "b.jpg" |} ]
     = (41.5, -80)%float.
Proof. split; vm_compute; reflexivity. Qed.



(** The array that the page of the sample run embeds. *)
Example sample_array :
  places_repr binary_float_repr quoted_repr
    (resolved_places pillow_TAGS pillow_GPSTAGS posix_basename
       sample_world sample_files)
  = "[{'name': 'a.jpg', 'lat': +b01111010101100100011110011010100010110001001110000101p-111101, 'lon': -b00110000011011010000011011010000011011010011111111001p-011101, 'image': 'a.jpg'}, {'name': 'b.jpg', 'lat': +b00000000000000000000000000000000000000000000001010101p-111101, 'lon': -b00000000000000000000000000000000000000000000100000101p-011101, 'image': 'b.jpg'}]".
Proof. vm_compute. reflexivity. Qed.

Lemma builder_deterministic_witness :
  generate_maps_html pillow_TAGS pillow_GPSTAGS posix_basename
    sample_float_repr sample_str_repr plain_sum sample_world sample_files
  = generate_maps_html pillow_TAGS pillow_GPSTAGS posix_basename
      sample_float_repr sample_str_repr plain_sum other_world sample_files.
Proof.
  apply (builder_deterministic pillow_TAGS pillow_GPSTAGS posix_basename
           sample_float_repr sample_str_repr plain_sum sample_world other_world sample_files).
  exact sample_worlds_agree.
Defined.

(** * Further properties of the resolver *)

Lemma get_gps_coordinates_never_partial_witness :
  (Some scenario_lat = None /\ Some scenario_lon = None) \/
  (is_Some (Some scenario_lat) /\ is_Some (Some scenario_lon)).
Proof.
  apply (get_gps_coordinates_never_partial scenario_ints).
  vm_compute. reflexivity.
Defined.

(** X2: a ["GPSInfo"] entry that is truthy but not a mapping (a number, a
    string, a tuple) makes the resolver raise [AttributeError] at its
    first [.get]. *)
Theorem resolver_block_not_mapping (exif_data : dict) (v : pyval) :
  dict_lookup exif_data (KStr "GPSInfo") = Some v ->
  truthy v = true ->
  (forall d, v <> PyDict d) ->
  get_gps_coordinates exif_data = Raise AttributeError.
Proof.
  intros Hv Ht Hd. unfold get_gps_coordinates.
  replace (dict_get exif_data "GPSInfo") with v
    by (unfold dict_get; rewrite Hv; reflexivity).
  rewrite Ht. destruct v; try reflexivity.
  destruct (Hd _ eq_refl).
Qed.

Lemma resolver_block_not_mapping_witness :
  get_gps_coordinates [(KStr "Make", PyStr "Canon"); (KStr "GPSInfo", PyInt 1234)]
  = Raise AttributeError.
Proof.
  apply (resolver_block_not_mapping _ (PyInt 1234));
    [reflexivity | reflexivity | discriminate].
Defined.

Lemma dms_tuple_first_failure (items : list pyval) (i : nat) (e : exn) :
  fails_first_at items i e -> dms_tuple (PyTuple items) = Raise e.
Proof.
  intros (Hi & He & Hbefore). rewrite dms_tuple_components.
  destruct i as [|[|[|i]]]; [| | | lia].
  - rewrite He. reflexivity.
  - destruct (Hbefore 0) as [f0 ->]; [lia |]. simpl. rewrite He. reflexivity.
  - destruct (Hbefore 0) as [f0 ->]; [lia |].
    destruct (Hbefore 1) as [f1 ->]; [lia |]. simpl. rewrite He. reflexivity.
Qed.

(** X3: with four non-empty sub-fields, the exception that reaches the
    caller is that of the first component to fail, the latitude's three
    before the longitude's. *)
Theorem resolver_first_failing_component
  (exif_data : dict) (la la_ref lo lo_ref : pyval) :
  has_gps_fields exif_data la la_ref lo lo_ref ->
  truthy la = true -> truthy la_ref = true ->
  truthy lo = true -> truthy lo_ref = true ->
  (forall items i e,
      la = PyTuple items -> fails_first_at items i e ->
      get_gps_coordinates exif_data = Raise e) /\
  (forall t items i e,
      dms_tuple la = Ok t -> lo = PyTuple items -> fails_first_at items i e ->
      get_gps_coordinates exif_data = Raise e).
Proof.
  intros Hf Hla Hlar Hlo Hlor.
  rewrite (get_gps_coordinates_fields _ _ _ _ _ Hf), Hla, Hlar, Hlo, Hlor. simpl.
  split.
  - intros items i e -> Hfail. rewrite (dms_tuple_first_failure _ _ _ Hfail).
    reflexivity.
  - intros t items i e -> -> Hfail. rewrite (dms_tuple_first_failure _ _ _ Hfail).
    reflexivity.
Qed.

Lemma resolver_first_failing_component_witness :
  get_gps_coordinates
    (gps_exif (PyTuple [PyRational 40 1; PyRational 26 0; PyStr "x"]) (PyStr "N")
              (PyTuple [PyInt 79]) (PyStr "W"))
  = Raise ZeroDivisionError /\
  get_gps_coordinates
    (gps_exif (PyTuple [PyInt 40; PyInt 26; PyInt 46]) (PyStr "N")
              (PyTuple [PyInt 79]) (PyStr "W"))
  = Raise IndexError.
Proof.
  split.
  - apply (proj1 (resolver_first_failing_component _
                    (PyTuple [PyRational 40 1; PyRational 26 0; PyStr "x"]) (PyStr "N")
                    (PyTuple [PyInt 79]) (PyStr "W")
                    (gps_exif_fields _ _ _ _) eq_refl eq_refl eq_refl eq_refl)
             [PyRational 40 1; PyRational 26 0; PyStr "x"] 1 ZeroDivisionError eq_refl).
    split; [lia | split; [reflexivity |]].
    intros j Hj. assert (j = 0) as -> by lia. eexists. vm_compute. reflexivity.
  - apply (proj2 (resolver_first_failing_component _
                    (PyTuple [PyInt 40; PyInt 26; PyInt 46]) (PyStr "N")
                    (PyTuple [PyInt 79]) (PyStr "W")
                    (gps_exif_fields _ _ _ _) eq_refl eq_refl eq_refl eq_refl)
             (40, 26, 46)%float [PyInt 79] 1 IndexError);
      [vm_compute; reflexivity | reflexivity |].
    split; [lia | split; [reflexivity |]].
    intros j Hj. assert (j = 0) as -> by lia. eexists. vm_compute. reflexivity.
Defined.

(** X4: only the first three components of a DMS field are read: what
    follows them changes nothing. *)
Theorem resolver_reads_three_components
  (exif_long exif_short : dict) (la_ref lo_ref : pyval)
  (d m s d' m' s' : pyval) (more more' : list pyval) :
  has_gps_fields exif_long (PyTuple (d :: m :: s :: more)) la_ref
                           (PyTuple (d' :: m' :: s' :: more')) lo_ref ->
  has_gps_fields exif_short (PyTuple [d; m; s]) la_ref (PyTuple [d'; m'; s']) lo_ref ->
  get_gps_coordinates exif_long = get_gps_coordinates exif_short.
Proof.
  intros Hlong Hshort.
  rewrite (get_gps_coordinates_fields _ _ _ _ _ Hlong),
          (get_gps_coordinates_fields _ _ _ _ _ Hshort).
  rewrite !dms_tuple_components. reflexivity.
Qed.

Lemma resolver_reads_three_components_witness :
  get_gps_coordinates
    (gps_exif (PyTuple [PyInt 40; PyInt 26; PyInt 46; PyStr "x"; PyRational 1 0])
              (PyStr "N") (PyTuple [PyInt 79; PyInt 56; PyInt 55; PyNone]) (PyStr "W"))
  = get_gps_coordinates
      (gps_exif (PyTuple [PyInt 40; PyInt 26; PyInt 46]) (PyStr "N")
                (PyTuple [PyInt 79; PyInt 56; PyInt 55]) (PyStr "W")).
Proof.
  apply (resolver_reads_three_components _ _ (PyStr "N") (PyStr "W")
           (PyInt 40) (PyInt 26) (PyInt 46) (PyInt 79) (PyInt 56) (PyInt 55)
           [PyStr "x"; PyRational 1 0] [PyNone]);
    apply gps_exif_fields.
Defined.

Lemma component_at_over_one (items : list pyval) (i : nat) :
  component_at (over_one <$> items) i = component_at items i.
Proof.
  unfold component_at. rewrite list_lookup_fmap.
  destruct (items !! i) as [c|]; [| reflexivity]. destruct c; reflexivity.
Qed.

(** X5: a component given as a plain integer resolves as the rational of
    that integer over 1, in any position of either DMS field. *)
Theorem resolver_integers_as_rationals
  (exif_ints exif_rationals : dict) (la_ref lo_ref : pyval)
  (la lo : list pyval) :
  has_gps_fields exif_ints (PyTuple la) la_ref (PyTuple lo) lo_ref ->
  has_gps_fields exif_rationals (PyTuple (over_one <$> la)) la_ref
                                (PyTuple (over_one <$> lo)) lo_ref ->
  get_gps_coordinates exif_ints = get_gps_coordinates exif_rationals.
Proof.
  intros Hints Hrat.
  rewrite (get_gps_coordinates_fields _ _ _ _ _ Hints),
          (get_gps_coordinates_fields _ _ _ _ _ Hrat).
  rewrite !dms_tuple_components, !component_at_over_one.
  destruct la, lo; reflexivity.
Qed.

Lemma resolver_integers_as_rationals_witness :
  get_gps_coordinates
    (gps_exif (PyTuple [PyInt 40; PyRational 53 2; PyInt 0]) (PyStr "N")
              (PyTuple [PyInt 79; PyInt 56; PyInt 55]) (PyStr "W"))
  = get_gps_coordinates
      (gps_exif (PyTuple [PyRational 40 1; PyRational 53 2; PyRational 0 1]) (PyStr "N")
                (PyTuple [PyRational 79 1; PyRational 56 1; PyRational 55 1]) (PyStr "W")).
Proof.
  apply (resolver_integers_as_rationals _ _ (PyStr "N") (PyStr "W")
           [PyInt 40; PyRational 53 2; PyInt 0] [PyInt 79; PyInt 56; PyInt 55]);
    apply gps_exif_fields.
Defined.

(** X6: the resolver reads nothing but the four sub-fields of the GPS
    block: other tags, other GPS sub-fields and the order of the entries
    do not matter. *)
Theorem resolver_reads_four_fields
  (exif_data exif_data' : dict) (la la_ref lo lo_ref : pyval) :
  has_gps_fields exif_data la la_ref lo lo_ref ->
  has_gps_fields exif_data' la la_ref lo lo_ref ->
  get_gps_coordinates exif_data = get_gps_coordinates exif_data'.
Proof.
  intros H H'.
  rewrite (get_gps_coordinates_fields _ _ _ _ _ H),
          (get_gps_coordinates_fields _ _ _ _ _ H').
  reflexivity.
Qed.

Lemma resolver_reads_four_fields_witness :
  get_gps_coordinates scenario_rationals
  = get_gps_coordinates
      [(KStr "Model", PyStr "EOS");
       (KStr "GPSInfo",
        PyDict [(KStr "GPSAltitude", PyRational 2350 10);
                (KStr "GPSLongitudeRef", PyStr "W");
                (KStr "GPSLongitude", dms_rationals (79, 1) (56, 1) (55, 1));
                (KInt 31, PyInt 0);
                (KStr "GPSLatitude", dms_rationals (40, 1) (26, 1) (46, 1));
                (KStr "GPSLatitudeRef", PyStr "N")]);
       (KInt 41729, PyInt 1)]%Z.
Proof.
  apply (resolver_reads_four_fields _ _
           (dms_rationals (40, 1) (26, 1) (46, 1))%Z (PyStr "N")
           (dms_rationals (79, 1) (56, 1) (55, 1))%Z (PyStr "W"));
    eexists; repeat split.
Defined.

(** * Further properties of the reader *)

Lemma dict_lookup_elem (d : dict) (k : key) (v : pyval) :
  dict_lookup d k = Some v -> (k, v) ∈ d.
Proof.
  induction d as [|[k' v'] d IH]; simpl; [discriminate |].
  destruct (decide (k' = k)) as [-> | Hne].
  - intros [= ->]. apply list_elem_of_here.
  - intros H. apply list_elem_of_further, IH, H.
Qed.

Lemma dict_lookup_key (d : dict) (k : key) (v : pyval) :
  (k, v) ∈ d -> is_Some (dict_lookup d k).
Proof.
  induction d as [|[k' v'] d IH]; intros H.
  - apply elem_of_nil in H. destruct H.
  - simpl. destruct (decide (k' = k)) as [-> | Hne]; [eexists; reflexivity |].
    apply elem_of_cons in H. destruct H as [[= -> ->] | H]; [congruence | exact (IH H)].
Qed.

(** A run of assignments [a[f y] = g y], read back under one key. *)
Lemma fold_set_lookup_none {A} (f : A -> key) (g : A -> pyval) (xs : list A)
  (acc : dict) (k : key) :
  (forall y, y ∈ xs -> f y <> k) ->
  dict_lookup (fold_left (fun a y => dict_set a (f y) (g y)) xs acc) k
  = dict_lookup acc k.
Proof.
  revert acc. induction xs as [|x xs IH]; intros acc Hne; [reflexivity |].
  simpl. rewrite IH by (intros y Hy; apply Hne, list_elem_of_further, Hy).
  apply dict_lookup_set_ne, Hne, list_elem_of_here.
Qed.

Lemma fold_set_lookup_some {A} (f : A -> key) (g : A -> pyval) (xs : list A)
  (acc : dict) (x : A) :
  x ∈ xs ->
  (forall y, y ∈ xs -> f y = f x -> g y = g x) ->
  dict_lookup (fold_left (fun a y => dict_set a (f y) (g y)) xs acc) (f x)
  = Some (g x).
Proof.
  induction xs as [|y xs IH] using rev_ind; intros Hx Hsame.
  - apply elem_of_nil in Hx. destruct Hx.
  - rewrite fold_left_app. simpl.
    destruct (decide (f y = f x)) as [Heq | Hne].
    + rewrite Heq, dict_lookup_set_eq. f_equal. apply Hsame; [| exact Heq].
      apply elem_of_app. right. apply list_elem_of_here.
    + rewrite dict_lookup_set_ne by exact Hne.
      apply elem_of_app in Hx. destruct Hx as [Hx | Hx].
      * apply IH; [exact Hx |]. intros z Hz. apply Hsame, elem_of_app. left. exact Hz.
      * apply list_elem_of_singleton in Hx. congruence.
Qed.

Section ReaderFacts.

Variables TAGS GPSTAGS : Z -> option string.

Local Abbreviation reader := (get_exif_data TAGS GPSTAGS).
Local Abbreviation tags_loop := (decode_tags TAGS GPSTAGS).
Local Abbreviation gps_loop := (decode_gps GPSTAGS).
Local Abbreviation gps_items_loop := (decode_gps_items GPSTAGS).
Local Abbreviation renamed := (sub_decode GPSTAGS).
Local Abbreviation stored := (stored_value TAGS GPSTAGS).

(** What the inner loop assigns for one entry of a GPS mapping. *)
Local Abbreviation gps_step d :=
  (fun (a : dict) (kv : key * pyval) =>
     dict_set a (renamed kv.1) (default PyNone (dict_lookup d kv.1))).

Lemma decode_gps_items_mapping (d kvs : dict) (gps_data : dict) :
  (forall kv, kv ∈ kvs -> is_Some (dict_lookup d kv.1)) ->
  gps_items_loop (PyDict d) (map (fun kv => key_val kv.1) kvs) gps_data
  = Ok (fold_left (gps_step d) kvs gps_data).
Proof.
  revert gps_data. induction kvs as [|[k v] kvs IH]; intros gps_data Hin;
    [reflexivity |].
  destruct (Hin (k, v) (list_elem_of_here _ _)) as [x Hx]. simpl in Hx.
  simpl. replace (as_key (key_val k)) with (Some k) by (destruct k; reflexivity).
  rewrite Hx. simpl. apply IH. intros kv Hkv. apply Hin, list_elem_of_further, Hkv.
Qed.

Lemma decode_gps_mapping (d : dict) :
  gps_loop (PyDict d) = Ok (fold_left (gps_step d) d []).
Proof.
  unfold decode_gps. simpl. apply decode_gps_items_mapping.
  intros [k v] Hkv. exact (dict_lookup_key _ _ _ Hkv).
Qed.

(** X7: a GPS block that is a mapping is always decoded, and each entry
    is found under the name that [GPSTAGS] gives its key (under the key
    itself when the table has no name for it), provided no other key of
    the block is given the same name. *)
Theorem gps_mapping_decoded (d : dict) :
  exists gps_data,
    gps_loop (PyDict d) = Ok gps_data /\
    forall k v,
      dict_lookup d k = Some v ->
      (forall k', k' ∈ d.*1 -> renamed k' = renamed k -> k' = k) ->
      dict_lookup gps_data (renamed k) = Some v.
Proof.
  eexists. split; [apply decode_gps_mapping |].
  intros k v Hk Hinj.
  pose proof (fold_set_lookup_some (fun kv : key * pyval => renamed kv.1)
                (fun kv => default PyNone (dict_lookup d kv.1)) d [] (k, v)) as H.
  simpl in H. rewrite Hk in H. apply H; [exact (dict_lookup_elem _ _ _ Hk) |].
  intros [k' v'] Hin Hsame. simpl in *.
  rewrite (Hinj k'); [rewrite Hk; reflexivity | | exact Hsame].
  apply list_elem_of_fmap. exists (k', v'). split; [reflexivity | exact Hin].
Qed.

Lemma gps_mapping_decoded_ok (d : dict) :
  exists gps_data, gps_loop (PyDict d) = Ok gps_data.
Proof. eexists. apply decode_gps_mapping. Qed.

(** In a block keyed by tag numbers and decoded through a table of
    distinct names, a name holds what the block held under its number. *)
Lemma decode_gps_named (d gps_data : dict) (z : Z) (sub_decoded : string) :
  keyed_by_numbers d -> distinct_names GPSTAGS ->
  gps_loop (PyDict d) = Ok gps_data ->
  GPSTAGS z = Some sub_decoded ->
  dict_lookup gps_data (KStr sub_decoded) = dict_lookup d (KInt z).
Proof.
  intros Hnum Hdist Hdec Hz. rewrite decode_gps_mapping in Hdec.
  injection Hdec as <-.
  assert (Hname : forall kv, kv ∈ d -> renamed kv.1 = KStr sub_decoded -> kv.1 = KInt z).
  { intros [k v] Hin. simpl. destruct (Hnum k) as [z' ->].
    - apply list_elem_of_fmap. exists (k, v). split; [reflexivity | exact Hin].
    - simpl. destruct (GPSTAGS z') as [n|] eqn:Hz'; [| discriminate].
      intros [= ->]. f_equal. symmetry. apply Hdist; [eexists; exact Hz | congruence]. }
  destruct (dict_lookup d (KInt z)) as [v|] eqn:Hv.
  - pose proof (fold_set_lookup_some (fun kv : key * pyval => renamed kv.1)
                  (fun kv => default PyNone (dict_lookup d kv.1)) d [] (KInt z, v)) as H.
    simpl in H. rewrite Hz, Hv in H. apply H; [exact (dict_lookup_elem _ _ _ Hv) |].
    intros kv Hin Hsame. rewrite (Hname kv Hin Hsame), Hv. reflexivity.
  - rewrite fold_set_lookup_none; [reflexivity |].
    intros kv Hin Hsame. destruct kv as [k v]. pose proof (Hname _ Hin Hsame) as Hk.
    simpl in Hk. subst k. destruct (dict_lookup_key _ _ _ Hin) as [x Hx]. congruence.
Qed.

(** What the outer loop assigns for one item that does not stop it. *)
Local Abbreviation tag_step :=
  (fun (a : dict) (tv : Z * pyval) =>
     dict_set a (tag_decode TAGS tv.1) (default PyNone (stored tv.1 tv.2))).

Lemma decode_tags_stored (items : list (Z * pyval)) (exif_data : dict) :
  (forall tv, tv ∈ items -> is_Some (stored tv.1 tv.2)) ->
  tags_loop items exif_data = (fold_left tag_step items exif_data, None).
Proof.
  revert exif_data. induction items as [|[tag value] items IH]; intros exif_data Hall;
    [reflexivity |].
  pose proof (Hall (tag, value) (list_elem_of_here _ _)) as [x Hx].
  assert (Hrest : forall tv, tv ∈ items -> is_Some (stored tv.1 tv.2)).
  { intros tv Htv. apply Hall, list_elem_of_further, Htv. }
  simpl in *. unfold stored_value in *.
  destruct (decide (tag_decode TAGS tag = KStr "GPSInfo")).
  - destruct (gps_loop value); [| discriminate Hx]. apply IH, Hrest.
  - apply IH, Hrest.
Qed.

Lemma decode_tags_success (items : list (Z * pyval)) (exif_data exif_data' : dict) :
  tags_loop items exif_data = (exif_data', None) ->
  (forall tv, tv ∈ items -> is_Some (stored tv.1 tv.2)) /\
  exif_data' = fold_left tag_step items exif_data.
Proof.
  revert exif_data. induction items as [|[tag value] items IH]; intros exif_data Hrun.
  - injection Hrun as <-. split; [| reflexivity].
    intros tv Htv. apply elem_of_nil in Htv. destruct Htv.
  - simpl in Hrun |- *. unfold stored_value at 2.
    assert (Hhead : is_Some (stored tag value) /\
                    tags_loop items (dict_set exif_data (tag_decode TAGS tag)
                                       (default PyNone (stored tag value)))
                    = (exif_data', None)).
    { unfold stored_value.
      destruct (decide (tag_decode TAGS tag = KStr "GPSInfo")).
      - destruct (gps_loop value); [| discriminate Hrun].
        split; [eexists; reflexivity | exact Hrun].
      - split; [eexists; reflexivity | exact Hrun]. }
    destruct Hhead as [Hsome Hrest]. destruct (IH _ Hrest) as [Hall Heq].
    split; [| exact Heq].
    intros tv Htv. apply elem_of_cons in Htv. destruct Htv as [-> | Htv];
      [exact Hsome | exact (Hall tv Htv)].
Qed.

Lemma reader_success (w : world) (image_path : string) (items : list (Z * pyval))
  (exif_data : dict) :
  w image_path = Ok (Some items) ->
  reader w image_path = (exif_data, []) ->
  (forall tv, tv ∈ items -> is_Some (stored tv.1 tv.2)) /\
  exif_data = fold_left tag_step items [].
Proof.
  intros Hw. unfold get_exif_data. rewrite Hw.
  destruct items as [|item items].
  - intros [= <-]. split; [| reflexivity].
    intros tv Htv. apply elem_of_nil in Htv. destruct Htv.
  - destruct (tags_loop (item :: items) []) as [exif_data' [e|]] eqn:Hrun;
      [discriminate |].
    intros [= <-]. exact (decode_tags_success _ _ _ Hrun).
Qed.

(** X8: after a read without error, every tag of the file is found under
    its decoded name, holding its value (its decoded block, for the GPS
    tag), unless another tag of the same decoded name stores something
    else; and the mapping holds no other key. *)
Theorem reader_stores_every_tag (w : world) (image_path : string)
  (items : list (Z * pyval)) (exif_data : dict) :
  w image_path = Ok (Some items) ->
  reader w image_path = (exif_data, []) ->
  (forall tag value,
      (tag, value) ∈ items ->
      (forall tag' value',
          (tag', value') ∈ items -> tag_decode TAGS tag' = tag_decode TAGS tag ->
          stored tag' value' = stored tag value) ->
      dict_lookup exif_data (tag_decode TAGS tag) = stored tag value) /\
  (forall k,
      (forall tag value, (tag, value) ∈ items -> tag_decode TAGS tag <> k) ->
      dict_lookup exif_data k = None).
Proof.
  intros Hw Hread. destruct (reader_success _ _ _ _ Hw Hread) as [Hall ->].
  split.
  - intros tag value Hin Hsame.
    pose proof (fold_set_lookup_some (fun tv : Z * pyval => tag_decode TAGS tv.1)
                  (fun tv => default PyNone (stored tv.1 tv.2)) items []
                  (tag, value) Hin) as H.
    simpl in H. rewrite H.
    + destruct (Hall _ Hin) as [x Hx]. simpl in Hx. rewrite Hx. reflexivity.
    + intros [tag' value'] Hin' Heq. simpl in *. rewrite (Hsame _ _ Hin' Heq).
      reflexivity.
  - intros k Hnone.
    rewrite (fold_set_lookup_none (fun tv : Z * pyval => tag_decode TAGS tv.1)
               (fun tv => default PyNone (stored tv.1 tv.2))); [reflexivity |].
    intros [tag value] Hin. exact (Hnone _ _ Hin).
Qed.

(** X9: whatever the library returns for a file, the ["GPSInfo"] entry of
    the reader's mapping, when there is one, is a nested mapping. *)
Theorem reader_gps_entry_is_mapping (w : world) (image_path : string) :
  dict_lookup (reader w image_path).1 (KStr "GPSInfo") = None \/
  exists gps_data : dict,
    dict_lookup (reader w image_path).1 (KStr "GPSInfo") = Some (PyDict gps_data).
Proof.
  pose proof (reader_gps_block TAGS GPSTAGS w image_path) as Hblock.
  destruct (dict_lookup (reader w image_path).1 (KStr "GPSInfo")) as [v|] eqn:Hv;
    [| left; reflexivity].
  right. destruct (Hblock v Hv) as [gps_data ->]. exists gps_data. reflexivity.
Qed.

(** X10: when the file has one GPS tag, whose block is keyed by tag
    numbers, and the tables name the tags as Pillow does, the resolver
    finds under its four names what the block holds under tags 2, 1, 4
    and 3 ([None] for a tag the block lacks). *)
Theorem reader_hands_over_gps_block (w : world) (image_path : string)
  (before after : list (Z * pyval)) (tag : Z) (d : dict) :
  TAGS tag = Some "GPSInfo" ->
  GPSTAGS 1%Z = Some "GPSLatitudeRef" -> GPSTAGS 2%Z = Some "GPSLatitude" ->
  GPSTAGS 3%Z = Some "GPSLongitudeRef" -> GPSTAGS 4%Z = Some "GPSLongitude" ->
  distinct_names GPSTAGS ->
  keyed_by_numbers d ->
  w image_path = Ok (Some (before ++ (tag, PyDict d) :: after)) ->
  (forall t v, (t, v) ∈ before ++ after -> tag_decode TAGS t <> KStr "GPSInfo") ->
  has_gps_fields (reader w image_path).1
    (ifd_get d 2) (ifd_get d 1) (ifd_get d 4) (ifd_get d 3).
Proof.
  intros Htag H1 H2 H3 H4 Hdist Hnum Hw Hother.
  destruct (gps_mapping_decoded_ok d) as [gps_data Hdec].
  assert (Hgps : tag_decode TAGS tag = KStr "GPSInfo")
    by (unfold tag_decode; rewrite Htag; reflexivity).
  assert (Hstored : stored tag (PyDict d) = Some (PyDict gps_data)).
  { unfold stored_value. destruct (decide _); [| congruence]. rewrite Hdec. reflexivity. }
  assert (Hall : forall tv, tv ∈ before ++ (tag, PyDict d) :: after ->
                            is_Some (stored tv.1 tv.2)).
  { intros [t v] Hin. simpl.
    apply elem_of_app in Hin as [Hin | Hin];
      [| apply elem_of_cons in Hin as [[= -> ->] | Hin]].
    - unfold stored_value. destruct (decide _) as [Heq |]; [| eexists; reflexivity].
      destruct (Hother t v); [apply elem_of_app; left; exact Hin | exact Heq].
    - rewrite Hstored. eexists. reflexivity.
    - unfold stored_value. destruct (decide _) as [Heq |]; [| eexists; reflexivity].
      destruct (Hother t v); [apply elem_of_app; right; exact Hin | exact Heq]. }
  assert (Hread : (reader w image_path).1
                  = fold_left tag_step (before ++ (tag, PyDict d) :: after) []).
  { unfold get_exif_data. rewrite Hw, (decode_tags_stored _ [] Hall).
    destruct (before ++ (tag, PyDict d) :: after) eqn:Happ; [| reflexivity].
    destruct before; discriminate. }
  exists gps_data. rewrite Hread. split.
  - pose proof (fold_set_lookup_some (fun tv : Z * pyval => tag_decode TAGS tv.1)
                  (fun tv => default PyNone (stored tv.1 tv.2))
                  (before ++ (tag, PyDict d) :: after) [] (tag, PyDict d)) as H.
    simpl in H. rewrite Hstored, Hgps in H. simpl in H. apply H.
    + apply elem_of_app. right. apply list_elem_of_here.
    + intros [t v] Hin Heq. simpl in *.
      apply elem_of_app in Hin as [Hin | Hin];
        [| apply elem_of_cons in Hin as [[= -> ->] | Hin]].
      * destruct (Hother t v); [apply elem_of_app; left; exact Hin | exact Heq].
      * rewrite Hstored. reflexivity.
      * destruct (Hother t v); [apply elem_of_app; right; exact Hin | exact Heq].
  - unfold dict_get, ifd_get.
    rewrite (decode_gps_named d gps_data 2 _ Hnum Hdist Hdec H2),
            (decode_gps_named d gps_data 1 _ Hnum Hdist Hdec H1),
            (decode_gps_named d gps_data 4 _ Hnum Hdist Hdec H4),
            (decode_gps_named d gps_data 3 _ Hnum Hdist Hdec H3).
    repeat split.
Qed.

End ReaderFacts.

(** * Further properties of the page builder *)

Lemma warned_app (out out' : list event) :
  warned (out ++ out') = warned out ++ warned out'.
Proof. unfold warned. apply omap_app. Qed.

Section BuilderFacts.

Variables TAGS GPSTAGS : Z -> option string.
Variable basename : string -> string.
Variable float_repr : float -> string.
Variable str_repr : string -> string.
Variable py_sum : list float -> float.

Local Abbreviation reader := (get_exif_data TAGS GPSTAGS).
Local Abbreviation files_loop := (collect_places TAGS GPSTAGS basename).
Local Abbreviation page := (maps_html_content float_repr str_repr).
Local Abbreviation builder :=
  (generate_maps_html TAGS GPSTAGS basename float_repr str_repr py_sum).
Local Abbreviation placed := (resolved_place TAGS GPSTAGS basename).
Local Abbreviation returns := (resolver_returns TAGS GPSTAGS).
Local Abbreviation loop_step := (collect_places_step TAGS GPSTAGS basename).

Lemma reader_warned (w : world) (image_path : string) :
  warned (reader w image_path).2 = [].
Proof.
  destruct (reader_log_is_failure TAGS GPSTAGS w image_path) as [-> | [e ->]];
    reflexivity.
Qed.

(** X12: a file that the library cannot read is reported twice, by an
    error line and then by a warning line, and the loop goes on with the
    next file and the records gathered so far. *)
Theorem unreadable_file_reported (w : world) (img_file : string)
  (rest : list string) (places_data : list place) (e : exn) :
  w img_file = Raise e ->
  files_loop w (img_file :: rest) places_data
  = (ErrorReadingExif img_file e :: WarningNoGps img_file
       :: (files_loop w rest places_data).1,
     (files_loop w rest places_data).2).
Proof.
  intros Hw. rewrite loop_step. unfold resolved_place, get_exif_data.
  rewrite Hw. reflexivity.
Qed.

Lemma collect_places_stops (w : world) (before : list string) (f : string) (e : exn) :
  (forall g, g ∈ before -> returns w g) ->
  get_gps_coordinates (reader w f).1 = Raise e ->
  forall places_data, exists out,
    forall after, files_loop w (before ++ f :: after) places_data = (out, Raise e).
Proof.
  intros Hret Hf.
  induction before as [|g before IH]; intros places_data.
  - exists (reader w f).2. intros after. simpl app. rewrite loop_step, Hf. reflexivity.
  - assert (Hrest : forall g', g' ∈ before -> returns w g').
    { intros g' Hg'. apply Hret, list_elem_of_further, Hg'. }
    destruct (Hret g (list_elem_of_here _ _)) as [r Hr].
    destruct (placed w g) as [p|] eqn:Hp.
    + destruct (IH Hrest (places_data ++ [p])) as [out Hout].
      exists ((reader w g).2 ++ out). intros after.
      simpl app. rewrite loop_step, Hr, Hp, Hout. reflexivity.
    + destruct (IH Hrest places_data) as [out Hout].
      exists ((reader w g).2 ++ WarningNoGps g :: out). intros after.
      simpl app. rewrite loop_step, Hr, Hp, Hout. reflexivity.
Qed.

(** X13: the first file on which the resolver raises ends the run with
    that exception: no page is produced, and the files after it are
    never read, so neither they nor anything printed depend on them. *)
Theorem builder_stops_at_exception (w : world) (before : list string)
  (f : string) (e : exn) :
  (forall g, g ∈ before -> returns w g) ->
  get_gps_coordinates (reader w f).1 = Raise e ->
  exists out, forall after, builder w (before ++ f :: after) = (out, Raise e).
Proof.
  intros Hret Hf.
  destruct (collect_places_stops w before f e Hret Hf []) as [out Hout].
  exists out. intros after. unfold generate_maps_html. rewrite Hout. reflexivity.
Qed.

Lemma collect_places_warned (w : world) (image_files : list string)
  (places_data : list place) :
  (forall f, f ∈ image_files -> returns w f) ->
  warned (files_loop w image_files places_data).1
  = skipped TAGS GPSTAGS basename w image_files.
Proof.
  revert places_data.
  induction image_files as [|img_file rest IH]; intros places_data Hret;
    [reflexivity |].
  assert (Hrest : forall f, f ∈ rest -> returns w f).
  { intros f Hf. apply Hret, list_elem_of_further, Hf. }
  destruct (Hret img_file (list_elem_of_here _ _)) as [r Hr].
  rewrite loop_step, Hr. unfold skipped. simpl List.filter.
  destruct (placed w img_file) as [p|]; simpl; rewrite warned_app, reader_warned; simpl.
  - apply IH, Hrest.
  - f_equal. apply IH, Hrest.
Qed.

Lemma length_placed_skipped (w : world) (image_files : list string) :
  length (omap (placed w) image_files)
  + length (skipped TAGS GPSTAGS basename w image_files)
  = length image_files.
Proof.
  unfold skipped. induction image_files as [|f rest IH]; [reflexivity |].
  simpl. destruct (placed w f); simpl; [| rewrite Nat.add_succ_r]; f_equal; exact IH.
Qed.

(** X15: in a run that produces a page, the warning lines name the files
    without coordinates, once each and in input order, and every file is
    either embedded or warned about. *)
Theorem builder_warns_in_order (w : world) (image_files : list string) :
  (forall f, f ∈ image_files -> returns w f) ->
  exists out doc,
    builder w image_files = (out, Ok doc) /\
    warned out = skipped TAGS GPSTAGS basename w image_files /\
    length (omap (placed w) image_files) + length (warned out)
    = length image_files.
Proof.
  intros Hret. pose proof (collect_places_warned w image_files [] Hret) as Hw.
  destruct (collect_places_returns TAGS GPSTAGS basename w image_files [] Hret)
    as (out & Heq & _).
  rewrite Heq in Hw. simpl in Hw.
  exists out. eexists. unfold generate_maps_html. rewrite Heq. simpl.
  split; [reflexivity | split; [exact Hw |]].
  rewrite Hw. apply length_placed_skipped.
Qed.

(** X16: going through a list in two batches, the second starting from
    the records of the first, prints the same lines and gathers the same
    records as one pass; an exception in the first batch ends both. *)
Theorem collect_places_batches (w : world) (first second : list string)
  (places_data : list place) :
  files_loop w (first ++ second) places_data =
  match files_loop w first places_data with
  | (out, Ok gathered) =>
      (out ++ (files_loop w second gathered).1, (files_loop w second gathered).2)
  | (out, Raise e) => (out, Raise e)
  end.
Proof.
  revert places_data.
  induction first as [|f first IH]; intros places_data.
  - simpl. destruct (files_loop w second places_data); reflexivity.
  - simpl app. rewrite !loop_step.
    destruct (get_gps_coordinates (reader w f).1) as [r|e]; [| reflexivity].
    destruct (placed w f) as [p|]; rewrite IH.
    + destruct (files_loop w first (places_data ++ [p])) as [out [gathered|e]];
        simpl; [rewrite app_assoc |]; reflexivity.
    + destruct (files_loop w first places_data) as [out [gathered|e]];
        simpl; [rewrite <- app_assoc |]; reflexivity.
Qed.

(** X17: when no file has coordinates, the page is centred on the
    fallback pair and embeds the empty array, and every file is warned
    about. *)
Theorem builder_without_coordinates (w : world) (image_files : list string) :
  (forall f, f ∈ image_files ->
             get_gps_coordinates (reader w f).1 = Ok (None, None)) ->
  exists out,
    builder w image_files
    = (out, Ok (page (0x1.e4ccccccccccdp+5, 15.5)%float [])) /\
    warned out = image_files /\
    places_repr float_repr str_repr [] = "[]".
Proof.
  intros Habsent.
  assert (Hret : forall f, f ∈ image_files -> returns w f).
  { intros f Hf. eexists. exact (Habsent f Hf). }
  assert (Hnone : forall f, f ∈ image_files -> placed w f = None).
  { intros f Hf. unfold resolved_place. rewrite (Habsent f Hf). reflexivity. }
  assert (Hplaces : omap (placed w) image_files = []).
  { clear Hret Habsent. induction image_files as [|f rest IH]; [reflexivity |].
    simpl. rewrite (Hnone f (list_elem_of_here _ _)).
    apply IH. intros g Hg. apply Hnone, list_elem_of_further, Hg. }
  assert (Hskipped : skipped TAGS GPSTAGS basename w image_files = image_files).
  { clear Hret Habsent Hplaces. unfold skipped.
    induction image_files as [|f rest IH]; [reflexivity |].
    simpl. rewrite (Hnone f (list_elem_of_here _ _)). f_equal.
    apply IH. intros g Hg. apply Hnone, list_elem_of_further, Hg. }
  pose proof (collect_places_warned w image_files [] Hret) as Hw.
  destruct (collect_places_returns TAGS GPSTAGS basename w image_files [] Hret)
    as (out & Heq & _).
  rewrite Heq in Hw. simpl in Hw. rewrite Hplaces in Heq.
  exists out. unfold generate_maps_html. rewrite Heq. simpl.
  split; [reflexivity | split; [| reflexivity]].
  rewrite Hw. exact Hskipped.
Qed.

End BuilderFacts.

(** * Properties of the script *)

Lemma list_ascii_of_string_app (a b : string) :
  String.list_ascii_of_string (a +:+ b)
  = String.list_ascii_of_string a ++ String.list_ascii_of_string b.
Proof. induction a as [|c a IH]; simpl; [| rewrite IH]; reflexivity. Qed.

Lemma string_of_list_ascii_app (l k : list Ascii.ascii) :
  String.string_of_list_ascii (l ++ k)
  = String.string_of_list_ascii l +:+ String.string_of_list_ascii k.
Proof. induction l as [|c l IH]; simpl; [| rewrite IH]; reflexivity. Qed.

Lemma string_of_list_ascii_length (l : list Ascii.ascii) :
  String.length (String.string_of_list_ascii l) = length l.
Proof. induction l as [|c l IH]; simpl; [| rewrite IH]; reflexivity. Qed.

Lemma string_append_assoc (a b c : string) : (a +:+ b) +:+ c = a +:+ (b +:+ c).
Proof.
  induction a as [|x a IH]; [reflexivity |].
  change (String x ((a +:+ b) +:+ c) = String x (a +:+ (b +:+ c))).
  f_equal. exact IH.
Qed.

Lemma py_lower_app (a b : string) : py_lower (a +:+ b) = py_lower a +:+ py_lower b.
Proof.
  unfold py_lower. rewrite list_ascii_of_string_app, List.map_app.
  apply string_of_list_ascii_app.
Qed.

(** [s.endswith(suffix)] holds exactly when [s] is something followed by
    [suffix]. *)
Lemma py_endswith_true (s suffix : string) :
  py_endswith s suffix = true <-> exists stem, s = stem +:+ suffix.
Proof.
  unfold py_endswith. rewrite bool_decide_eq_true. split.
  - intros [k Hk]. exists (String.string_of_list_ascii k).
    rewrite <- (String.string_of_list_ascii_of_string s), Hk.
    rewrite string_of_list_ascii_app, String.string_of_list_ascii_of_string.
    reflexivity.
  - intros [stem ->]. exists (String.list_ascii_of_string stem).
    apply list_ascii_of_string_app.
Qed.

(** X18: the script takes a directory entry exactly when its name ends in
    four characters that read ".jpg" once lowered: any letter case of the
    extension, and no other extension. *)
Theorem jpg_extension (f : string) :
  py_endswith (py_lower f) ".jpg" = true <->
  exists stem ext,
    f = stem +:+ ext /\ String.length ext = 4 /\ py_lower ext = ".jpg".
Proof.
  split.
  - unfold py_endswith, py_lower. rewrite bool_decide_eq_true.
    rewrite String.list_ascii_of_string_of_list_ascii. intros [k Hk].
    apply List.map_eq_app in Hk as (l1 & l2 & Hl & _ & H2).
    exists (String.string_of_list_ascii l1), (String.string_of_list_ascii l2).
    split; [| split].
    + rewrite <- string_of_list_ascii_app, <- Hl.
      symmetry. apply String.string_of_list_ascii_of_string.
    + rewrite string_of_list_ascii_length, <- (List.length_map ascii_lower), H2.
      reflexivity.
    + rewrite String.list_ascii_of_string_of_list_ascii, H2. reflexivity.
  - intros (stem & ext & -> & _ & Hext).
    rewrite py_lower_app, Hext. apply py_endswith_true. eexists. reflexivity.
Qed.

(** Names that the test takes and names that it leaves. *)
Example jpg_extension_samples :
  List.filter (fun f => py_endswith (py_lower f) ".jpg")
    ["a.jpg"; "B.JPG"; "c.Jpg"; ".jpg"; "d.jpeg"; "e.jpg.bak"; "jpg"; "f.png"; ""]
  = ["a.jpg"; "B.JPG"; "c.Jpg"; ".jpg"].
Proof. vm_compute. reflexivity. Qed.

Lemma has_slash_app (a b : string) :
  has_slash (a +:+ b) = has_slash a || has_slash b.
Proof.
  induction a as [|c a IH]; simpl; [reflexivity |].
  rewrite IH. apply orb_assoc.
Qed.

Lemma posix_basename_no_slash (b : string) :
  has_slash b = false -> posix_basename b = b.
Proof. destruct b as [|c b]; simpl; [reflexivity |]. intros ->. reflexivity. Qed.

Lemma posix_basename_app (a b : string) :
  has_slash b = false ->
  posix_basename (a +:+ b) = posix_basename a +:+ b.
Proof.
  intros Hb. induction a as [|c a IH]; simpl.
  - apply posix_basename_no_slash, Hb.
  - rewrite has_slash_app, Hb, orb_false_r.
    destruct (Ascii.eqb c (Ascii.ascii_of_nat 47) || has_slash a);
      [exact IH | reflexivity].
Qed.

Lemma posix_basename_slash (a : string) : posix_basename (a +:+ "/") = "".
Proof.
  induction a as [|c a IH]; [reflexivity |].
  simpl. rewrite has_slash_app. simpl. rewrite orb_true_r, orb_true_r. exact IH.
Qed.

Lemma posix_basename_directory (a : string) :
  String.eqb a "" || py_endswith a "/" = true -> posix_basename a = "".
Proof.
  intros H. apply orb_true_iff in H as [H | H].
  - apply String.eqb_eq in H as ->. reflexivity.
  - apply py_endswith_true in H as [stem ->]. apply posix_basename_slash.
Qed.

(** Joining a directory and a bare name and taking the base name gives
    the name back. *)
Lemma posix_basename_join (a b : string) :
  has_slash b = false -> posix_basename (posix_join a b) = b.
Proof.
  intros Hb. unfold posix_join. destruct b as [|c b].
  - destruct (String.eqb a "" || py_endswith a "/") eqn:Hdir.
    + apply posix_basename_directory, Hdir.
    + apply posix_basename_slash.
  - simpl in Hb. apply orb_false_iff in Hb as [Hc Hb]. rewrite Hc.
    assert (Hname : has_slash (String c b) = false) by (simpl; rewrite Hc, Hb; reflexivity).
    destruct (String.eqb a "" || py_endswith a "/") eqn:Hdir.
    + rewrite (posix_basename_app _ _ Hname), (posix_basename_directory _ Hdir).
      reflexivity.
    + rewrite <- string_append_assoc, (posix_basename_app _ _ Hname),
        posix_basename_slash. reflexivity.
Qed.

Lemma filter_all_false {A} (P : A -> bool) (l : list A) :
  (forall x, x ∈ l -> P x = false) -> List.filter P l = [].
Proof.
  induction l as [|x l IH]; intros H; [reflexivity |].
  simpl. rewrite (H x (list_elem_of_here _ _)).
  apply IH. intros y Hy. apply H, list_elem_of_further, Hy.
Qed.

Section ScriptFacts.

Variables TAGS GPSTAGS : Z -> option string.
Variable basename : string -> string.
Variable float_repr : float -> string.
Variable str_repr : string -> string.
Variable py_sum : list float -> float.
Variable join : string -> string -> string.

Local Abbreviation reader := (get_exif_data TAGS GPSTAGS).
Local Abbreviation builder :=
  (generate_maps_html TAGS GPSTAGS basename float_repr str_repr py_sum).
Local Abbreviation returns := (resolver_returns TAGS GPSTAGS).
Local Abbreviation script :=
  (main TAGS GPSTAGS basename float_repr str_repr py_sum join).

(** X19: in a directory with no entry ending in ".jpg", the script prints
    one line, reads no file and writes nothing, whatever is on the disk. *)
Theorem script_without_jpg (current_directory : string) (listing : list string)
  (open_error : option exn) (w : world) :
  (forall f, f ∈ listing -> py_endswith (py_lower f) ".jpg" = false) ->
  script current_directory listing open_error w
  = {| stdout := [Printed "No JPG files found in the current directory."];
       written := None; raised := None |}.
Proof.
  intros Hnone. unfold main, jpg_files.
  rewrite (filter_all_false _ _ Hnone). reflexivity.
Qed.

(** X20: when the resolver raises on one of the photos, the script ends
    with that exception: [maps.html] is not written and no success line
    is printed, however many photos resolve. *)
Theorem script_stops_without_writing (current_directory : string)
  (listing : list string) (open_error : option exn) (w : world)
  (before after : list string) (f : string) (e : exn) :
  jpg_files join current_directory listing = before ++ f :: after ->
  (forall g, g ∈ before -> returns w g) ->
  get_gps_coordinates (reader w f).1 = Raise e ->
  exists out,
    script current_directory listing open_error w
    = {| stdout := map Logged out; written := None; raised := Some e |}.
Proof.
  intros Hfiles Hret Hf. unfold main. rewrite Hfiles.
  destruct (builder_raises TAGS GPSTAGS basename float_repr str_repr py_sum
              w before after f e Hret Hf) as [out Hout].
  exists out.
  destruct (before ++ f :: after) as [|x t] eqn:Happ;
    [destruct before; discriminate Happ |].
  rewrite Hout. reflexivity.
Qed.

End ScriptFacts.

(** ** The script on a POSIX system *)

Lemma resolved_place_names (TAGS GPSTAGS : Z -> option string)
  (basename : string -> string) (w : world) (f : string) (p : place) :
  resolved_place TAGS GPSTAGS basename w f = Some p ->
  name p = basename f /\ image p = basename f.
Proof.
  unfold resolved_place.
  destruct (get_gps_coordinates _) as [[[la|] [lo|]]|e]; try discriminate.
  intros [= <-]. split; reflexivity.
Qed.

Lemma posix_names_sublist (TAGS GPSTAGS : Z -> option string) (w : world)
  (current_directory : string) (names : list string) :
  (forall n, n ∈ names -> has_slash n = false) ->
  map name (omap (resolved_place TAGS GPSTAGS posix_basename w)
              (map (posix_join current_directory) names))
  `sublist_of` names.
Proof.
  induction names as [|n names IH]; intros Hbare; [constructor |].
  assert (Hrest : map name (omap (resolved_place TAGS GPSTAGS posix_basename w)
                              (map (posix_join current_directory) names))
                  `sublist_of` names).
  { apply IH. intros m Hm. apply Hbare, list_elem_of_further, Hm. }
  simpl.
  destruct (resolved_place TAGS GPSTAGS posix_basename w
              (posix_join current_directory n)) as [p|] eqn:Hp.
  - apply resolved_place_names in Hp as [Hname _]. simpl. rewrite Hname.
    rewrite (posix_basename_join _ _ (Hbare n (list_elem_of_here _ _))).
    apply sublist_skip, Hrest.
  - apply sublist_cons, Hrest.
Qed.

(** X21: on a POSIX system, when the resolver returns on every photo of
    the directory, the script writes the page and prints its two closing
    lines; the markers are named after directory entries ending in
    ".jpg", in listing order, each showing the image of the same name. *)
Theorem script_names_markers_after_entries
  (TAGS GPSTAGS : Z -> option string)
  (float_repr : float -> string) (str_repr : string -> string)
  (py_sum : list float -> float)
  (current_directory : string) (listing : list string) (w : world) :
  (forall n, n ∈ listing -> has_slash n = false) ->
  jpg_files posix_join current_directory listing <> [] ->
  (forall f, f ∈ jpg_files posix_join current_directory listing ->
             resolver_returns TAGS GPSTAGS w f) ->
  exists out places_data,
    main TAGS GPSTAGS posix_basename float_repr str_repr py_sum posix_join
      current_directory listing None w
    = {| stdout :=
           map Logged out
           ++ [Printed "maps.html generated successfully!";
               Printed "You can now open maps.html in your browser to view the map."];
         written := Some (maps_html_content float_repr str_repr
                            (map_center py_sum places_data) places_data);
         raised := None |} /\
    map name places_data
    `sublist_of` List.filter (fun f => py_endswith (py_lower f) ".jpg") listing /\
    forall p, p ∈ places_data -> image p = name p.
Proof.
  intros Hbare Hsome Hret.
  destruct (collect_places_returns TAGS GPSTAGS posix_basename w _ [] Hret)
    as (out & Hrun & _).
  exists out,
    (omap (resolved_place TAGS GPSTAGS posix_basename w)
       (jpg_files posix_join current_directory listing)).
  split; [| split].
  - unfold main, generate_maps_html.
    destruct (jpg_files posix_join current_directory listing) as [|f files];
      [destruct (Hsome eq_refl) |].
    rewrite Hrun. reflexivity.
  - unfold jpg_files. apply posix_names_sublist.
    intros n Hn. apply Hbare. apply list_elem_of_In in Hn.
    apply List.filter_In in Hn as [Hn _]. apply list_elem_of_In, Hn.
  - intros p Hp. apply list_elem_of_omap in Hp as (f & _ & Hf).
    apply resolved_place_names in Hf as [-> ->]. reflexivity.
Qed.

(** * Closed instances *)

(** Case analysis on membership of a pair in an explicit list. *)
Ltac pair_cases H :=
  repeat (apply elem_of_cons in H; destruct H as [[= -> ->] | H]);
  [ .. | apply elem_of_nil in H; destruct H ].

Lemma pillow_GPSTAGS_distinct : distinct_names pillow_GPSTAGS.
Proof.
  intros z z' [n Hn] Heq. unfold pillow_GPSTAGS in *.
  repeat match goal with
         | H : context [(?a =? ?b)%Z] |- _ => destruct (Z.eqb_spec a b)
         end; subst; try discriminate; reflexivity.
Qed.

Lemma sample_ifd_keys : keyed_by_numbers sample_ifd.
Proof.
  intros k Hk. unfold sample_ifd in Hk. simpl in Hk.
  elem_cases Hk; eexists; reflexivity.
Qed.

Lemma gps_mapping_decoded_witness :
  exists gps_data,
    decode_gps pillow_GPSTAGS (PyDict sample_ifd) = Ok gps_data /\
    dict_lookup gps_data (KStr "GPSLatitude")
    = Some (dms_rationals (40, 1) (26, 1) (46, 1))%Z /\
    dict_lookup gps_data (KInt 6) = Some (PyRational 2350 10).
Proof.
  destruct (gps_mapping_decoded pillow_GPSTAGS sample_ifd) as (gps_data & Hdec & Hl).
  exists gps_data. split; [exact Hdec |]. split.
  - apply (Hl (KInt 2)); [reflexivity |].
    intros k Hk Heq. unfold sample_ifd in Hk. simpl in Hk.
    elem_cases Hk; first [reflexivity | discriminate Heq].
  - apply (Hl (KInt 6)); [reflexivity |].
    intros k Hk Heq. unfold sample_ifd in Hk. simpl in Hk.
    elem_cases Hk; first [reflexivity | discriminate Heq].
Defined.

Lemma reader_stores_every_tag_witness :
  dict_lookup
    (get_exif_data pillow_TAGS pillow_GPSTAGS ifd_world "/photos/d.jpg").1
    (KStr "Model") = Some (PyStr "EOS") /\
  dict_lookup
    (get_exif_data pillow_TAGS pillow_GPSTAGS ifd_world "/photos/d.jpg").1
    (KStr "Software") = None.
Proof.
  destruct (reader_stores_every_tag pillow_TAGS pillow_GPSTAGS ifd_world
              "/photos/d.jpg"
              [(271, PyStr "Canon"); (34853, PyDict sample_ifd); (272, PyStr "EOS")]%Z
              (get_exif_data pillow_TAGS pillow_GPSTAGS ifd_world "/photos/d.jpg").1
              eq_refl) as [Hstored Hnone]; [vm_compute; reflexivity |].
  split.
  - apply (Hstored 272%Z (PyStr "EOS")).
    + apply list_elem_of_further, list_elem_of_further, list_elem_of_here.
    + intros tag value Hin Heq.
      pair_cases Hin; first [reflexivity | discriminate Heq].
  - apply Hnone. intros tag value Hin. pair_cases Hin; discriminate.
Defined.

Lemma reader_hands_over_gps_block_witness :
  has_gps_fields
    (get_exif_data pillow_TAGS pillow_GPSTAGS ifd_world "/photos/d.jpg").1
    (dms_rationals (40, 1) (26, 1) (46, 1))%Z (PyStr "N")
    (dms_rationals (79, 1) (56, 1) (55, 1))%Z (PyStr "W").
Proof.
  apply (reader_hands_over_gps_block pillow_TAGS pillow_GPSTAGS ifd_world
           "/photos/d.jpg" [(271, PyStr "Canon")] [(272, PyStr "EOS")]
           34853 sample_ifd)%Z;
    try reflexivity.
  - exact pillow_GPSTAGS_distinct.
  - exact sample_ifd_keys.
  - intros t v Hin. simpl in Hin. pair_cases Hin; discriminate.
Defined.

Lemma reader_error_is_failure_witness :
  read_failure pillow_TAGS pillow_GPSTAGS sample_world "/photos/broken.jpg"
    TypeError [(KStr "Make", PyStr "Canon")].
Proof.
  apply reader_error_is_failure. vm_compute. reflexivity.
Defined.

Lemma unreadable_file_reported_witness :
  collect_places pillow_TAGS pillow_GPSTAGS posix_basename sample_world
    ["/photos/none.jpg"; "/photos/a.jpg"] []
  = (ErrorReadingExif "/photos/none.jpg" (OtherError "FileNotFoundError")
       :: WarningNoGps "/photos/none.jpg"
       :: (collect_places pillow_TAGS pillow_GPSTAGS posix_basename sample_world
             ["/photos/a.jpg"] []).1,
     (collect_places pillow_TAGS pillow_GPSTAGS posix_basename sample_world
        ["/photos/a.jpg"] []).2).
Proof.
  apply (unreadable_file_reported pillow_TAGS pillow_GPSTAGS posix_basename
           sample_world "/photos/none.jpg" ["/photos/a.jpg"] []
           (OtherError "FileNotFoundError")).
  reflexivity.
Defined.

Lemma builder_stops_at_exception_witness :
  exists out, forall after,
    generate_maps_html pillow_TAGS pillow_GPSTAGS posix_basename
      sample_float_repr sample_str_repr plain_sum faulty_world
      (["/photos/a.jpg"; "/photos/c.jpg"] ++ "/photos/b.jpg" :: after)
    = (out, Raise ZeroDivisionError).
Proof.
  apply (builder_stops_at_exception pillow_TAGS pillow_GPSTAGS posix_basename
           sample_float_repr sample_str_repr plain_sum faulty_world
           ["/photos/a.jpg"; "/photos/c.jpg"] "/photos/b.jpg" ZeroDivisionError).
  - intros g Hg. elem_cases Hg; eexists; vm_compute; reflexivity.
  - vm_compute. reflexivity.
Defined.

Lemma builder_warns_in_order_witness :
  exists out doc,
    generate_maps_html pillow_TAGS pillow_GPSTAGS posix_basename
      sample_float_repr sample_str_repr plain_sum sample_world sample_files
    = (out, Ok doc) /\
    warned out = skipped pillow_TAGS pillow_GPSTAGS posix_basename sample_world
                   sample_files /\
    length (omap (resolved_place pillow_TAGS pillow_GPSTAGS posix_basename
                    sample_world) sample_files)
    + length (warned out)
    = length sample_files.
Proof.
  apply (builder_warns_in_order pillow_TAGS pillow_GPSTAGS posix_basename
           sample_float_repr sample_str_repr plain_sum sample_world sample_files).
  exact sample_files_resolve.
Defined.

Lemma builder_without_coordinates_witness :
  exists out,
    generate_maps_html pillow_TAGS pillow_GPSTAGS posix_basename
      sample_float_repr sample_str_repr plain_sum sample_world
      ["/photos/c.jpg"; "/photos/none.jpg"]
    = (out, Ok (maps_html_content sample_float_repr sample_str_repr
                  (0x1.e4ccccccccccdp+5, 15.5)%float [])) /\
    warned out = ["/photos/c.jpg"; "/photos/none.jpg"] /\
    places_repr sample_float_repr sample_str_repr [] = "[]".
Proof.
  apply (builder_without_coordinates pillow_TAGS pillow_GPSTAGS posix_basename
           sample_float_repr sample_str_repr plain_sum sample_world
           ["/photos/c.jpg"; "/photos/none.jpg"]).
  intros f Hf. elem_cases Hf; vm_compute; reflexivity.
Defined.

Lemma script_without_jpg_witness :
  main pillow_TAGS pillow_GPSTAGS posix_basename sample_float_repr sample_str_repr plain_sum
    posix_join "/photos" ["notes.txt"; "c.jpeg"; "jpg"] None sample_world
  = {| stdout := [Printed "No JPG files found in the current directory."];
       written := None; raised := None |}.
Proof.
  apply script_without_jpg. intros f Hf. elem_cases Hf; vm_compute; reflexivity.
Defined.

Lemma script_stops_without_writing_witness :
  exists out,
    main pillow_TAGS pillow_GPSTAGS posix_basename sample_float_repr sample_str_repr plain_sum
      posix_join "/photos" ["a.jpg"; "b.jpg"; "c.jpg"] None faulty_world
    = {| stdout := map Logged out; written := None;
         raised := Some ZeroDivisionError |}.
Proof.
  apply (script_stops_without_writing pillow_TAGS pillow_GPSTAGS posix_basename
           sample_float_repr sample_str_repr plain_sum posix_join "/photos"
           ["a.jpg"; "b.jpg"; "c.jpg"] None faulty_world
           ["/photos/a.jpg"] ["/photos/c.jpg"] "/photos/b.jpg" ZeroDivisionError).
  - vm_compute. reflexivity.
  - intros g Hg. elem_cases Hg. eexists. vm_compute. reflexivity.
  - vm_compute. reflexivity.
Defined.

Lemma sample_listing_resolves (f : string) :
  f ∈ jpg_files posix_join "/photos" sample_listing ->
  resolver_returns pillow_TAGS pillow_GPSTAGS upper_world f.
Proof.
  assert (E : jpg_files posix_join "/photos" sample_listing
              = ["/photos/a.jpg"; "/photos/b.JPG"; "/photos/c.jpg"])
    by (vm_compute; reflexivity).
  rewrite E. intros Hf. elem_cases Hf; eexists; vm_compute; reflexivity.
Qed.

Lemma script_names_markers_after_entries_witness :
  exists out places_data,
    main pillow_TAGS pillow_GPSTAGS posix_basename sample_float_repr sample_str_repr plain_sum
      posix_join "/photos" sample_listing None upper_world
    = {| stdout :=
           map Logged out
           ++ [Printed "maps.html generated successfully!";
               Printed "You can now open maps.html in your browser to view the map."];
         written := Some (maps_html_content sample_float_repr sample_str_repr
                            (map_center plain_sum places_data) places_data);
         raised := None |} /\
    map name places_data
    `sublist_of` List.filter (fun f => py_endswith (py_lower f) ".jpg") sample_listing /\
    forall p, p ∈ places_data -> image p = name p.
Proof.
  apply (script_names_markers_after_entries pillow_TAGS pillow_GPSTAGS
           sample_float_repr sample_str_repr plain_sum "/photos" sample_listing upper_world).
  - intros n Hn. unfold sample_listing in Hn. elem_cases Hn; reflexivity.
  - vm_compute. discriminate.
  - exact sample_listing_resolves.
Defined.

(** The sample directory, run through the script. *)
Example sample_script :
  stdout (main pillow_TAGS pillow_GPSTAGS posix_basename sample_float_repr
            sample_str_repr plain_sum posix_join "/photos" sample_listing None upper_world)
  = [Logged (WarningNoGps "/photos/c.jpg");
     Printed "maps.html generated successfully!";
     Printed "You can now open maps.html in your browser to view the map."]
  /\ jpg_files posix_join "/photos" sample_listing
     = ["/photos/a.jpg"; "/photos/b.JPG"; "/photos/c.jpg"].
Proof. split; vm_compute; reflexivity. Qed.

(** ** A GPS block that cannot be decoded *)

Section UndecodableBlock.

Variables TAGS GPSTAGS : Z -> option string.

(** X22: when the GPS block of a file cannot be decoded and no earlier
    tag is named ["GPSInfo"], the reader prints one error line and keeps
    the earlier tags, and the resolver reports absence on what it
    returns: the photo gets no marker. *)
Theorem undecodable_block_is_absent (w : world) (image_path : string)
  (before after : list (Z * pyval)) (tag : Z) (value : pyval) (e : exn) :
  w image_path = Ok (Some (before ++ (tag, value) :: after)) ->
  tag_decode TAGS tag = KStr "GPSInfo" ->
  decode_gps GPSTAGS value = Raise e ->
  (forall t v, (t, v) ∈ before -> tag_decode TAGS t <> KStr "GPSInfo") ->
  (get_exif_data TAGS GPSTAGS w image_path).2 = [ErrorReadingExif image_path e] /\
  (forall t v, (t, v) ∈ before ->
     (forall t' v', (t', v') ∈ before -> tag_decode TAGS t' = tag_decode TAGS t ->
                    v' = v) ->
     dict_lookup (get_exif_data TAGS GPSTAGS w image_path).1 (tag_decode TAGS t)
     = Some v) /\
  get_gps_coordinates (get_exif_data TAGS GPSTAGS w image_path).1 = Ok (None, None).
Proof.
  intros Hw Htag Hgps Hbefore.
  assert (Hstored : forall tv, tv ∈ before ->
                      stored_value TAGS GPSTAGS tv.1 tv.2 = Some tv.2).
  { intros [t v] Hin. simpl. unfold stored_value.
    destruct (decide _) as [Heq |]; [destruct (Hbefore t v Hin Heq) | reflexivity]. }
  assert (Hrun : decode_tags TAGS GPSTAGS (before ++ (tag, value) :: after) []
                 = (fold_left
                      (fun a (tv : Z * pyval) =>
                         dict_set a (tag_decode TAGS tv.1)
                           (default PyNone (stored_value TAGS GPSTAGS tv.1 tv.2)))
                      before [],
                    Some e)).
  { rewrite decode_tags_app, decode_tags_stored.
    - simpl. rewrite Htag. destruct (decide _); [| congruence].
      rewrite Hgps. reflexivity.
    - intros tv Htv. rewrite (Hstored tv Htv). eexists. reflexivity. }
  assert (Hread : get_exif_data TAGS GPSTAGS w image_path
                  = (fold_left
                       (fun a (tv : Z * pyval) =>
                          dict_set a (tag_decode TAGS tv.1)
                            (default PyNone (stored_value TAGS GPSTAGS tv.1 tv.2)))
                       before [],
                     [ErrorReadingExif image_path e])).
  { unfold get_exif_data. rewrite Hw, Hrun.
    destruct (before ++ (tag, value) :: after) eqn:Happ; [| reflexivity].
    destruct before; discriminate. }
  rewrite Hread. simpl. split; [reflexivity | split].
  - intros t v Hin Hsame.
    pose proof (fold_set_lookup_some (fun tv : Z * pyval => tag_decode TAGS tv.1)
                  (fun tv => default PyNone (stored_value TAGS GPSTAGS tv.1 tv.2))
                  before [] (t, v) Hin) as H.
    pose proof (Hstored (t, v) Hin) as Hs.
    simpl in H, Hs. rewrite Hs in H. apply H.
    intros [t' v'] Hin' Heq. pose proof (Hstored (t', v') Hin') as Hs'.
    simpl in *. rewrite Hs'. simpl. exact (Hsame t' v' Hin' Heq).
  - apply get_gps_coordinates_no_block. unfold dict_get.
    rewrite (fold_set_lookup_none (fun tv : Z * pyval => tag_decode TAGS tv.1)
               (fun tv => default PyNone (stored_value TAGS GPSTAGS tv.1 tv.2)));
      [reflexivity |].
    intros [t v] Hin. exact (Hbefore t v Hin).
Qed.

End UndecodableBlock.

Lemma undecodable_block_is_absent_witness :
  (get_exif_data pillow_TAGS pillow_GPSTAGS sample_world "/photos/broken.jpg").2
  = [ErrorReadingExif "/photos/broken.jpg" TypeError] /\
  dict_lookup
    (get_exif_data pillow_TAGS pillow_GPSTAGS sample_world "/photos/broken.jpg").1
    (KStr "Make") = Some (PyStr "Canon") /\
  get_gps_coordinates
    (get_exif_data pillow_TAGS pillow_GPSTAGS sample_world "/photos/broken.jpg").1
  = Ok (None, None).
Proof.
  destruct (undecodable_block_is_absent pillow_TAGS pillow_GPSTAGS sample_world
              "/photos/broken.jpg" [(271, PyStr "Canon")] [(272, PyStr "EOS")]
              34853 PyNone TypeError eq_refl eq_refl eq_refl)%Z
    as (Hlog & Hkept & Habsent).
  - intros t v Hin. pair_cases Hin. discriminate.
  - split; [exact Hlog | split; [| exact Habsent]].
    apply (Hkept 271%Z (PyStr "Canon")); [apply list_elem_of_here |].
    intros t' v' Hin _. pair_cases Hin. reflexivity.
Defined.
